(* ===== verification/_CoqProject ===== *)
-Q . S2P
Prelude.v
JsObject.v
JsLogic.v
JsHoare.v
Axis.v
Config.v
ConfigWf.v
Fixtures.v
ConfigRun.v
ScaleRun.v
Canvas.v
TickLabel.v
Label.v
