(* ===== verification/Prelude.v ===== *)
(** * A verification library for the configuration and label code of Chart.js

    The repository (src/) holds three source files of Chart.js:
    - [src/src/core/core.config.js]: the chart configuration.  [Config]
      wraps a raw user configuration; [initConfig] fills in [data],
      threads the option defaults with [includeDefaults] and builds the
      per-scale option objects with [includeScaleDefaults].  Option
      inheritance is done with JavaScript prototype chains
      ([Object.setPrototypeOf]) and never copies the default tree:
      [recursiveSetPrototype] threads a user object onto a default object
      key by key, [recursiveChildObjects] and [recursiveSetChildPrototypes]
      give every nested scale option the nested defaults of its whole
      prototype chain.  The axis resolver ([getIndexAxis],
      [getAxisFromDefaultScaleID], [getDefaultScaleIDFromAxis],
      [axisFromPosition], [determineAxis]) maps scale ids to axes.
    - [src/src/core/core.tickLabel.js]: [TickLabel], the geometry of a
      rotated multi-line text label (size, rotated bounding box, anchor
      centre, padding) and its drawing on a canvas context, with a
      module-level text width cache.
    - [src/src/elements/element.label.js]: [Label], the chart-owned
      label element with a text setter that invalidates the cached size,
      a width cache per font, and its draw routine.
    The config code calls the JavaScript runtime (objects, prototypes,
    [Object.assign]); both label files call the canvas ([measureText]
    and the drawing calls).  Nothing calls across the two halves.

    The files, in dependency order:
    - [Prelude] (this file): the state-and-error monad [SE] in which all
      JavaScript code that mutates objects or throws is written, with its
      notation [let* x := m in k] ([se_scope]), the loops [se_iter]
      ([forEach]) and [se_foldl], association lists (the own properties
      of an object, in insertion order) with their lemmas, the hint
      databases [chartjs] and [chartjs_rw] and the shared tactics.
    - [JsObject]: the runtime the config code calls, modelled from the
      language semantics (no repository code): a heap of objects with
      own properties and optional prototypes, [js_get] ([[Get]] along the
      chain), [js_set], [js_delete], [js_keys], [js_assign],
      [js_setPrototypeOf] with its cycle check, [isObject]; the heap
      invariant [heap_wf] (finite acyclic chains, closed values) and the
      relational lookup [lookup_rel] of the spec's option nodes.
    - [JsLogic]: reasoning about whole routines.  [Pres R m] says that a
      run of [m] relates its heaps by [R]; for a preorder [R]
      ([HeapPreorder]) it composes through [let*] and loops
      ([pres_split]).  Relations: [grows] (nothing disappears, classes
      kept), [same_props] (only prototypes change), [frozen n] (an object
      nothing refers to stays as it is).  Also [Object.assign] onto a
      fresh object and the tree [own_tree] of own object values.
    - [JsHoare]: a Hoare logic over [JS]: [hoare P m Q] (every run of
      [m] from a heap in [P] that returns [a] ends in [Q a]), its rules
      (bind, consequence, loops), the assertion [W vs] (the heap is
      well formed and the values [vs] the code holds in variables are
      closed in it), one triple per runtime operation and the tactic
      [hoare_step] that walks a routine through them.
    - [Axis] (core.config.js lines 5-41): the resolver.
    - [Config] (Section [Config], parameters [defaults] and [fuel];
      lines 43-225): every function of the rest of core.config.js, the
      class [Config] ([config_new], accessors, [config_update]), and two
      fixtures ([line_heap], [opts_heap]).
    - [ConfigWf]: one [W] triple per function of [Config] and [Axis],
      composed into the invariant of the whole configuration code.
    - [Fixtures]: the test fixture
      [src/test/fixtures/scale.radialLinear/anglelines-indexable.js]
      ([anglelines_indexable]) allocated after a radar default registry
      ([radar_defaults], an invented registry in the shape of spec
      section 6), run through the constructor and [update].
    - [ConfigRun]: forward runs on an arbitrary registry, with the frame
      relation [keeps] (old objects unchanged, new ones above): the
      constructor with no configuration returns, and what it builds.
    - [ScaleRun]: the dataset-defaults step of [includeScaleDefaults]
      ([default_scale_step], lines 79-88) run forwards for the first
      dataset that needs an axis and for the later ones.
    - [Canvas]: the drawing-surface interface [DrawingSurface] (a class
      with [measureText]), the record of context calls [ctx_call], the
      width cache [width_cache] and its consistency [cache_ok].
    - [TickLabel]: core.tickLabel.js over the reals.
    - [Label]: element.label.js over the reals, with the life of a label
      as the step relation [label_step].

    The theorems, by group:
    - option inheritance ([Config]): the lookup law of [includeDefaults]
      (own key, else the parent chain; the parent is [defaults[type]]),
      [update] installing the scales computed before it replaces the
      options, enough call depth for [recursiveSetPrototype] on a finite
      option tree, [recursiveSetPrototype] changing prototypes only, the
      while loop of [recursiveChildObjects] collecting the chain's nested
      objects in order, and the idempotence of re-threading
      ([recursiveSetPrototype] on a structure it already threaded
      changes nothing).  The line-chart runs of the spec on [line_heap]
      (after [update]; after construction, where the scales are not
      installed; a second [update] after the index axis changed, which
      re-threads the same scale objects) are kept as examples;
    - the constructor ([Config], [ConfigRun]): a truthy primitive
      configuration throws a [TypeError] in every heap; no configuration
      gives, on any registry, a fresh configuration with empty data
      arrays and options reading the registry; a configuration that has
      its data containers keeps them, the data phase changing no object
      (spec section 3);
    - scale synthesis ([ScaleRun]): for the first dataset that needs an
      axis, merging a default scale placeholder returns and stores under
      the axis a fresh scale with its [axis], hooked onto the
      placeholder's defaults, changing no other existing object; for a
      later dataset needing the same axis the step changes no object;
    - the axis resolver ([Axis]): [getIndexAxis] refines its
      precedence specification, each branch of [determineAxis] including
      its [TypeError] on [null] options, its string typing when the
      [axis] options are strings, the placeholder round trips (the
      cartesian axes, and where the radial axis ['r'] is sent);
    - tick labels ([TickLabel]): the padding puts the anchor on the
      edges its code names, the anchor code read as a set of direction
      characters (so ['center'] is ['rt']), each side of the rotated box
      between the shorter side and the diagonal, the ["tR"] anchor at
      opposite rotations, the unit test [Should calculate size at
      initialization] over any surface measuring its text in the tested
      range, [draw] restores what it saves and paints lines bottom to
      top, the width cache is transparent;
    - the label element ([Label]): the text setter and the change test
      [linesChanged], the cache of [_measure] (transparent, except that
      a line named like an [Object.prototype] member makes the width
      [NaN]), and by induction over [label_step] that the size cache is
      never filled; [draw] never restores the context and hangs the
      lines below the anchor.

    Lemmas that are not listed as properties: [ConfigWf] proves that
    [new Config] and [update] keep the heap well formed (every
    prototype chain finite and acyclic, every stored reference
    allocated), which every runtime operation guarantees on its own;
    [Fixtures] runs the radar fixture through the constructor and
    [update].

    Numbers.  Label geometry is over Rocq's real numbers [R]: the
    theorems are about the arithmetic the code writes, not about IEEE
    rounding.  Property values of the object model are integers
    ([VNum : Z -> value]); no theorem depends on fractional options.

    Fuel.  JavaScript recursion that the code does not bound is modelled
    with a call-depth budget ([fuel] of [Config]); running out of it is
    the [RangeError] of a stack overflow, the behaviour of the code.
    [recursiveSetPrototype_enough_fuel] shows that a budget above the
    depth of the option tree is enough; the concrete runs use
    [line_fuel] = 8, twice the depth of the fixtures.  Prototype-chain
    walks are bounded by the number of objects of the heap, enough on a
    heap whose chains are acyclic ([heap_wf], kept by every operation).

    Not modelled: the canvas pixels (drawing is the list of calls made on
    the context); [helpers.*] beyond what the code calls (those are
    modelled from the spec); the default registry [core.defaults] as a
    whole (a parameter here; the fixtures hold registries in its shape);
    the animation and element base classes (unset [x] and [y] of a
    label are taken as 0); the members of [Object.prototype] on the
    objects of the config code (they are modelled for the label's width
    cache, where a line can name one; a font string naming one is not
    modelled); the test [Should expose formatters api], which checks
    the module's exports with [typeof]. *)

From stdpp Require Export base list strings gmap.
From Stdlib Require Import Lia.

Declare Scope se_scope.
Delimit Scope se_scope with se.

Create HintDb chartjs.
Create Rewrite HintDb chartjs_rw.

(** ** The state-and-error monad *)

Section SE.
Context {S E : Type}.

Definition SE (A : Type) : Type := S -> E + (A * S).

Definition se_ret {A} (a : A) : SE A := fun s => inr (a, s).

Definition se_bind {A B} (m : SE A) (k : A -> SE B) : SE B :=
  fun s => match m s with
           | inl e => inl e
           | inr (a, s') => k a s'
           end.

Definition se_throw {A} (e : E) : SE A := fun _ => inl e.

Definition se_get : SE S := fun s => inr (s, s).

Definition se_put (s : S) : SE unit := fun _ => inr (tt, s).

(** [xs.forEach(f)]: run [f] on every element in order. *)
Fixpoint se_iter {A} (f : A -> SE unit) (xs : list A) : SE unit :=
  match xs with
  | [] => se_ret tt
  | x :: xs' => se_bind (f x) (fun _ => se_iter f xs')
  end.

(** A loop that threads an accumulator. *)
Fixpoint se_foldl {A B} (f : B -> A -> SE B) (b : B) (xs : list A) : SE B :=
  match xs with
  | [] => se_ret b
  | x :: xs' => se_bind (f b x) (fun b' => se_foldl f b' xs')
  end.

Lemma se_bind_ret_l {A B} (a : A) (k : A -> SE B) s :
  se_bind (se_ret a) k s = k a s.
Proof. reflexivity. Qed.

Lemma se_bind_inr {A B} (m : SE A) (k : A -> SE B) s a s' :
  m s = inr (a, s') -> se_bind m k s = k a s'.
Proof. intros H. unfold se_bind. by rewrite H. Qed.

Lemma se_bind_inl {A B} (m : SE A) (k : A -> SE B) s e :
  m s = inl e -> se_bind m k s = inl e.
Proof. intros H. unfold se_bind. by rewrite H. Qed.

Lemma se_bind_inr_inv {A B} (m : SE A) (k : A -> SE B) s b s'' :
  se_bind m k s = inr (b, s'') ->
  exists a s', m s = inr (a, s') /\ k a s' = inr (b, s'').
Proof.
  unfold se_bind. destruct (m s) as [e|[a s']]; [discriminate|eauto].
Qed.

Lemma se_iter_app {A} (f : A -> SE unit) xs ys s :
  se_iter f (xs ++ ys) s = se_bind (se_iter f xs) (fun _ => se_iter f ys) s.
Proof.
  revert s. induction xs as [|x xs IH]; intros s; simpl; [reflexivity|].
  unfold se_bind in *. destruct (f x s) as [e|[[] s']]; [reflexivity|].
  apply IH.
Qed.

(** An invariant of the state that every step preserves holds after a
    whole [forEach]. *)
Lemma se_iter_invariant {A} (P : S -> Prop) (f : A -> SE unit) xs s s' :
  (forall x s1 s2, x ∈ xs -> P s1 -> f x s1 = inr (tt, s2) -> P s2) ->
  P s -> se_iter f xs s = inr (tt, s') -> P s'.
Proof.
  revert s. induction xs as [|x xs IH]; intros s Hstep Hs Hrun; simpl in Hrun.
  - by inversion Hrun; subst.
  - apply se_bind_inr_inv in Hrun as ([] & s1 & H1 & H2).
    eapply IH; [|eapply Hstep; [left|..]|]; eauto.
    intros y s3 s4 Hy. apply Hstep. by right.
Qed.
(** A loop whose steps only read the state computes a [fold_left]. *)
Lemma se_foldl_pure {A B} (f : B -> A -> SE B) (g : B -> A -> B) b xs s :
  (forall b x, x ∈ xs -> f b x s = inr (g b x, s)) ->
  se_foldl f b xs s = inr (fold_left g xs b, s).
Proof.
  revert b. induction xs as [|x xs IH]; intros b Hf; simpl; [done|].
  rewrite (se_bind_inr _ _ _ _ _ (Hf b x ltac:(left))). apply IH.
  intros b' y Hy. apply Hf. by right.
Qed.

(** A loop each of whose steps leaves the state as it is. *)
Lemma se_iter_noop {A} (f : A -> SE unit) xs s :
  (forall x, x ∈ xs -> f x s = inr (tt, s)) -> se_iter f xs s = inr (tt, s).
Proof.
  induction xs as [|x xs IH]; intros Hf; simpl; [done|].
  rewrite (se_bind_inr _ _ _ _ _ (Hf x ltac:(left))). apply IH.
  intros y Hy. apply Hf. by right.
Qed.

(** A loop none of whose steps fails with [e], from a state where [P]
    holds and that every step keeps, does not fail with [e]. *)
Lemma se_iter_not_err {A} (P : S -> Prop) (f : A -> SE unit) xs e s :
  (forall x s1, x ∈ xs -> P s1 -> f x s1 <> inl e) ->
  (forall x s1 s2, x ∈ xs -> P s1 -> f x s1 = inr (tt, s2) -> P s2) ->
  P s -> se_iter f xs s <> inl e.
Proof.
  revert s. induction xs as [|x xs IH]; intros s Herr Hstep Hs; simpl; [done|].
  unfold se_bind. destruct (f x s) as [e'|[[] s']] eqn:Hf.
  - intros [=<-]. by eapply Herr; [left|..].
  - apply IH.
    + intros y s1 Hy. apply Herr. by right.
    + intros y s1 s2 Hy. apply Hstep. by right.
    + eapply Hstep; [left|done|done].
Qed.
End SE.

Arguments SE : clear implicits.

Notation "'let*' x ':=' m 'in' k" := (se_bind m (fun x => k))
  (at level 10, x name, m at level 100, k at level 200)
  : se_scope.
Notation "'let*' ' p ':=' m 'in' k" := (se_bind m (fun x => match x with p => k end))
  (at level 10, p pattern, m at level 100, k at level 200)
  : se_scope.
Notation "m ;;; k" := (se_bind m (fun _ => k))
  (at level 100, right associativity) : se_scope.

#[export] Hint Rewrite @se_bind_ret_l : chartjs_rw.

(** ** Association lists: the own properties of an object

    JavaScript keeps the own string-keyed properties of an ordinary
    object in insertion order: assigning an existing key updates it in
    place, assigning a new key appends it, [delete] removes it. *)

Section Alist.
Context {K V : Type} `{EqDecision K}.

Fixpoint alist_get (k : K) (l : list (K * V)) : option V :=
  match l with
  | [] => None
  | (k', v) :: t => if decide (k = k') then Some v else alist_get k t
  end.

Fixpoint alist_put (k : K) (v : V) (l : list (K * V)) : list (K * V) :=
  match l with
  | [] => [(k, v)]
  | (k', v') :: t =>
      if decide (k = k') then (k, v) :: t else (k', v') :: alist_put k v t
  end.

Fixpoint alist_del (k : K) (l : list (K * V)) : list (K * V) :=
  match l with
  | [] => []
  | (k', v') :: t => if decide (k = k') then alist_del k t else (k', v') :: alist_del k t
  end.

Lemma alist_get_put_eq k v l : alist_get k (alist_put k v l) = Some v.
Proof.
  induction l as [|[k' v'] t IH]; simpl; [by rewrite decide_True|].
  case_decide; simpl; [by rewrite decide_True|]. by rewrite decide_False.
Qed.

(** Writing a key with the value it already has changes nothing. *)
Lemma alist_put_same k v l : alist_get k l = Some v -> alist_put k v l = l.
Proof.
  induction l as [|[k' v'] t IH]; simpl; [done|].
  case_decide; [subst; by intros [=->]|]. intros Hk. by rewrite IH.
Qed.

Lemma alist_get_put_ne k k2 v l :
  k <> k2 -> alist_get k2 (alist_put k v l) = alist_get k2 l.
Proof.
  intros Hne. induction l as [|[k' v'] t IH]; simpl.
  - by rewrite decide_False.
  - case_decide; subst; simpl.
    + by rewrite !decide_False.
    + case_decide; [done|apply IH].
Qed.

Lemma alist_get_del_eq k l : alist_get k (alist_del k l) = None.
Proof.
  induction l as [|[k' v'] t IH]; simpl; [done|].
  case_decide; simpl; [done|]. by rewrite decide_False.
Qed.

Lemma alist_get_del_ne k k2 l :
  k <> k2 -> alist_get k2 (alist_del k l) = alist_get k2 l.
Proof.
  intros Hne. induction l as [|[k' v'] t IH]; simpl; [done|].
  case_decide; subst; simpl.
  - rewrite decide_False; [apply IH|done].
  - case_decide; [done|apply IH].
Qed.

Lemma alist_get_Some_in k v l : alist_get k l = Some v -> k ∈ map fst l.
Proof.
  induction l as [|[k' v'] t IH]; simpl; [done|].
  case_decide; subst; [intros _; left|intros Hg; right; auto].
Qed.

Lemma alist_get_Some_val k v l : alist_get k l = Some v -> v ∈ map snd l.
Proof.
  induction l as [|[k' v'] t IH]; simpl; [done|].
  case_decide; [intros [=->]; left|intros Hg; right; auto].
Qed.

Lemma alist_get_None_notin k l : alist_get k l = None <-> k ∉ map fst l.
Proof.
  induction l as [|[k' v'] t IH]; simpl; [set_solver|].
  case_decide; subst; [split; [done|set_solver]|].
  rewrite IH. set_solver.
Qed.

(** Assigning a key that is already present keeps the key order. *)
Lemma alist_put_keys_in k v l : k ∈ map fst l -> map fst (alist_put k v l) = map fst l.
Proof.
  induction l as [|[k' v'] t IH]; simpl; [set_solver|].
  intros Hin. case_decide; subst; simpl; [done|].
  rewrite IH; [done|set_solver].
Qed.

(** Assigning a new key appends it. *)
Lemma alist_put_keys_notin k v l : k ∉ map fst l -> map fst (alist_put k v l) = map fst l ++ [k].
Proof.
  induction l as [|[k' v'] t IH]; simpl; [done|].
  intros Hin. rewrite decide_False; [|set_solver]. simpl.
  rewrite IH; [done|set_solver].
Qed.
End Alist.

#[export] Hint Rewrite @alist_get_put_eq @alist_get_del_eq : chartjs_rw.

(** ** Shared tactics *)

(** Split every [se_bind] whose first computation has been evaluated in
    a hypothesis [H : se_bind ... = inr ...]. *)
Ltac se_inv H :=
  repeat match type of H with
  | se_bind _ _ _ = inr _ =>
      let a := fresh "a" in let s := fresh "s" in
      let Ha := fresh "Hrun" in let H' := fresh "H" in
      apply se_bind_inr_inv in H as (a & s & Ha & H'); clear H; rename H' into H
  end.

(** Close goals of decidable string equalities between literals. *)
Ltac str_neq := solve [discriminate | intros ?; discriminate].
