(* ===== verification/JsObject.v ===== *)
(** * The ECMAScript object model used by core.config.js

    Objects live in a heap [heap]: a finite map from locations to
    [jsobj] records (class, own properties in insertion order, optional
    prototype) and the next free location.  JavaScript code that reads,
    mutates or throws is a computation of the monad [JS := SE heap
    js_error] of the prelude.

    This file models the language runtime the code calls
    ([[Get]], strict-mode [[Set]], [delete], [Object.keys],
    [Object.assign], [Object.create(null)], [Object.getPrototypeOf],
    [Object.setPrototypeOf], [hasOwnProperty]) and [helpers.core.isObject];
    these are not repository code.  It proves the option-node contract of
    the spec (section 3) of them: a lookup returns the own value or
    falls back along the prototype chain ([js_get_loc_spec]), the heap
    invariant [heap_wf] (closed, acyclic prototype chains) is preserved
    by every mutation, in particular by [js_setPrototypeOf], whose cycle
    check is what keeps lookups terminating, and assigning a key of one
    object never changes a lookup on an object whose chain does not pass
    through it. *)

From S2P Require Import Prelude.
From stdpp Require Import pretty.
From Stdlib Require Import Lia.

Local Open Scope se_scope.

(** ** Values, objects, heaps *)

Definition loc := nat.

Inductive value :=
| VUndef
| VNull
| VBool (b : bool)
| VNum (n : Z)
| VStr (s : string)
| VRef (l : loc).

#[export] Instance value_eq_dec : EqDecision value.
Proof. solve_decision. Defined.

(** Plain objects ([{}], [Object.create(null)]) and arrays. *)
Inductive objclass :=
| OPlain
| OArray (items : list value).

Record jsobj := mkObj {
  o_class : objclass;
  o_props : list (string * value);
  o_proto : option loc
}.

Record heap := mkHeap {
  h_cells : gmap loc jsobj;
  h_next : loc
}.

Inductive js_error :=
| TypeError
| RangeError.

Abbreviation JS := (SE heap js_error).

Definition obj_at (h : heap) (l : loc) : option jsobj := h_cells h !! l.

Definition heap_upd (h : heap) (l : loc) (o : jsobj) : heap :=
  mkHeap (<[l := o]> (h_cells h)) (h_next h).

Definition set_props (o : jsobj) (ps : list (string * value)) : jsobj :=
  mkObj (o_class o) ps (o_proto o).

Definition set_proto (o : jsobj) (p : option loc) : jsobj :=
  mkObj (o_class o) (o_props o) p.

(** ** Truthiness and property keys *)

Definition js_truthy (v : value) : bool :=
  match v with
  | VUndef | VNull => false
  | VBool b => b
  | VNum n => bool_decide (n <> 0%Z)
  | VStr s => bool_decide (s <> "")
  | VRef _ => true
  end.

(** [a || b] when [b] has no effect. *)
Definition js_or (a b : value) : value := if js_truthy a then a else b.

(** ToPropertyKey on the values a key is built from. *)
Definition to_key (v : value) : string :=
  match v with
  | VUndef => "undefined"
  | VNull => "null"
  | VBool true => "true"
  | VBool false => "false"
  | VNum n => if bool_decide (n < 0)%Z then "-" +:+ pretty (Z.to_nat (- n))
              else pretty (Z.to_nat n)
  | VStr s => s
  | VRef _ => "[object Object]"
  end.

(** ** Own properties *)

Fixpoint index_of_key (k : string) (i : nat) (items : list value) : option value :=
  match items with
  | [] => None
  | x :: xs => if decide (k = pretty i) then Some x else index_of_key k (S i) xs
  end.

Definition own_get (o : jsobj) (k : string) : option value :=
  match o_class o with
  | OPlain => alist_get k (o_props o)
  | OArray items =>
      if decide (k = "length") then Some (VNum (Z.of_nat (length items)))
      else match index_of_key k 0 items with
           | Some v => Some v
           | None => alist_get k (o_props o)
           end
  end.

Definition own_keys (o : jsobj) : list string :=
  match o_class o with
  | OPlain => map fst (o_props o)
  | OArray items => map pretty (seq 0 (length items)) ++ map fst (o_props o)
  end.

(** ** Prototype chains

    [chain_from h n l] lists the objects of the prototype chain of [l],
    [l] first, following at most [n] links. *)

Fixpoint chain_from (h : heap) (n : nat) (l : loc) : list loc :=
  match n with
  | 0 => []
  | S n' =>
      match obj_at h l with
      | None => []
      | Some o =>
          l :: match o_proto o with
               | None => []
               | Some p => chain_from h n' p
               end
      end
  end.

(** [[Get]] along the chain, with the number of objects of the heap
    as the bound of the walk. *)
Fixpoint get_fuel (h : heap) (n : nat) (l : loc) (k : string) : value :=
  match n with
  | 0 => VUndef
  | S n' =>
      match obj_at h l with
      | None => VUndef
      | Some o =>
          match own_get o k with
          | Some v => v
          | None =>
              match o_proto o with
              | None => VUndef
              | Some p => get_fuel h n' p k
              end
          end
      end
  end.

Definition js_get_loc (h : heap) (l : loc) (k : string) : value :=
  get_fuel h (S (h_next h)) l k.

(** ** Runtime operations *)

Definition js_alloc (o : jsobj) : JS loc :=
  fun h => inr (h_next h, mkHeap (<[h_next h := o]> (h_cells h)) (S (h_next h))).

(** [Object.create(null)], and an object literal with the given
    properties (the members of [Object.prototype] are not modelled). *)
Definition js_create_null : JS value :=
  let* l := js_alloc (mkObj OPlain [] None) in se_ret (VRef l).

Definition js_object (ps : list (string * value)) : JS value :=
  let* l := js_alloc (mkObj OPlain ps None) in se_ret (VRef l).

Definition js_array (items : list value) : JS value :=
  let* l := js_alloc (mkObj (OArray items) [] None) in se_ret (VRef l).

Definition js_load (l : loc) : JS jsobj :=
  fun h => match obj_at h l with
           | Some o => inr (o, h)
           | None => inl TypeError
           end.

(** [v[k]]: reading a property of [undefined] or [null] throws. *)
Definition js_get (v : value) (k : string) : JS value :=
  match v with
  | VUndef | VNull => se_throw TypeError
  | VRef l => fun h => inr (js_get_loc h l k, h)
  | _ => se_ret VUndef
  end.

(** [Object.prototype.hasOwnProperty.call(v, k)]. *)
Definition js_hasOwn (v : value) (k : string) : JS bool :=
  match v with
  | VUndef | VNull => se_throw TypeError
  | VRef l => let* o := js_load l in se_ret (bool_decide (is_Some (own_get o k)))
  | _ => se_ret false
  end.

(** [v[k] = x] in strict mode (ES modules): throws on a primitive. *)
Definition js_set (v : value) (k : string) (x : value) : JS unit :=
  match v with
  | VRef l =>
      let* o := js_load l in
      fun h => inr (tt, heap_upd h l (set_props o (alist_put k x (o_props o))))
  | _ => se_throw TypeError
  end.

(** [delete v[k]]. *)
Definition js_delete (v : value) (k : string) : JS unit :=
  match v with
  | VUndef | VNull => se_throw TypeError
  | VRef l =>
      let* o := js_load l in
      fun h => inr (tt, heap_upd h l (set_props o (alist_del k (o_props o))))
  | _ => se_ret tt
  end.

(** [Object.keys(v)]. *)
Definition js_keys (v : value) : JS (list string) :=
  match v with
  | VUndef | VNull => se_throw TypeError
  | VRef l => let* o := js_load l in se_ret (own_keys o)
  | VStr s => se_ret (map pretty (seq 0 (String.length s)))
  | _ => se_ret []
  end.

(** [Object.getPrototypeOf(v)]; a primitive's wrapper prototype has no
    enumerable keys, so it is observed as [null] by the code. *)
Definition js_getPrototypeOf (v : value) : JS value :=
  match v with
  | VUndef | VNull => se_throw TypeError
  | VRef l =>
      let* o := js_load l in
      se_ret (match o_proto o with Some p => VRef p | None => VNull end)
  | _ => se_ret VNull
  end.

(** [Object.setPrototypeOf(v, p)]: the ordinary [[SetPrototypeOf]]
    refuses a prototype whose chain contains the object itself. *)
Definition js_setPrototypeOf (v p : value) : JS unit :=
  match v with
  | VUndef | VNull => se_throw TypeError
  | VRef l =>
      let np := match p with VRef q => Some q | _ => None end in
      match p with
      | VRef _ | VNull =>
          let* o := js_load l in
          fun h =>
            if decide (np = o_proto o) then inr (tt, h)
            else match np with
                 | Some q =>
                     if decide (l ∈ chain_from h (S (h_next h)) q) then inl TypeError
                     else inr (tt, heap_upd h l (set_proto o np))
                 | None => inr (tt, heap_upd h l (set_proto o np))
                 end
      | _ => se_throw TypeError
      end
  | _ => match p with VRef _ | VNull => se_ret tt | _ => se_throw TypeError end
  end.

(** [Object.assign(target, ...sources)]: copies the own enumerable
    properties of each source in key order; [undefined] and [null]
    sources are skipped. *)
Definition assign_one (target src : value) : JS unit :=
  match src with
  | VRef _ =>
      let* ks := js_keys src in
      se_iter (fun k => let* x := js_get src k in js_set target k x) ks
  | VStr s =>
      se_iter (fun i => js_set target (pretty i)
                          (VStr (match String.get i s with
                                 | Some c => String c EmptyString
                                 | None => EmptyString end)))
              (seq 0 (String.length s))
  | _ => se_ret tt
  end.

Definition js_assign (target : value) (srcs : list value) : JS value :=
  match target with
  | VUndef | VNull => se_throw TypeError
  | _ => se_iter (assign_one target) srcs ;;; se_ret target
  end.

(** [helpers.core.isObject]: a plain object, not an array, not null. *)
Definition isObject (h : heap) (v : value) : bool :=
  match v with
  | VRef l => match obj_at h l with
              | Some (mkObj OPlain _ _) => true
              | _ => false
              end
  | _ => false
  end.

Definition js_isObject (v : value) : JS bool := fun h => inr (isObject h v, h).

(** ** The heap invariant

    [proto_chain h l ls]: the prototype chain of [l] is the finite list
    [ls], every object of it allocated.  A heap is well formed when
    locations below [h_next] are the only ones used, every object has a
    finite chain, and every reference stored in a property points to an
    allocated object. *)

Inductive proto_chain (h : heap) : loc -> list loc -> Prop :=
| pc_end l o :
    obj_at h l = Some o -> o_proto o = None -> proto_chain h l [l]
| pc_step l o p ls :
    obj_at h l = Some o -> o_proto o = Some p -> proto_chain h p ls ->
    proto_chain h l (l :: ls).

Definition val_ok (h : heap) (v : value) : Prop :=
  match v with VRef l => is_Some (obj_at h l) | _ => True end.

Definition obj_vals (o : jsobj) : list value :=
  map snd (o_props o) ++ match o_class o with OPlain => [] | OArray xs => xs end.

Record heap_wf (h : heap) : Prop := {
  wf_bound : forall l, is_Some (obj_at h l) -> l < h_next h;
  wf_chain : forall l, is_Some (obj_at h l) -> exists ls, proto_chain h l ls;
  wf_vals : forall l o v, obj_at h l = Some o -> v ∈ obj_vals o -> val_ok h v
}.

(** [lookup_rel h l k v]: the abstract lookup of the option-node
    contract: the own value if there is one, else the lookup on the
    parent, else [undefined]. *)
Inductive lookup_rel (h : heap) : loc -> string -> value -> Prop :=
| lr_own l o k v :
    obj_at h l = Some o -> own_get o k = Some v -> lookup_rel h l k v
| lr_inherit l o p k v :
    obj_at h l = Some o -> own_get o k = None -> o_proto o = Some p ->
    lookup_rel h p k v -> lookup_rel h l k v
| lr_absent l o k :
    obj_at h l = Some o -> own_get o k = None -> o_proto o = None ->
    lookup_rel h l k VUndef.

#[export] Hint Constructors proto_chain lookup_rel : chartjs.

Section Chains.
Context (h : heap).

Lemma proto_chain_head l ls : proto_chain h l ls -> exists ls', ls = l :: ls'.
Proof. inversion 1; eauto. Qed.

Lemma proto_chain_det l ls1 ls2 :
  proto_chain h l ls1 -> proto_chain h l ls2 -> ls1 = ls2.
Proof.
  intros H1. revert ls2. induction H1 as [l o Ho Hp|l o p ls Ho Hp Hc IH];
    intros ls2 H2; inversion H2; simplify_eq; [done|].
  f_equal. by apply IH.
Qed.

(** Every object on a chain has its own chain, a suffix of it. *)
Lemma proto_chain_suffix l ls m :
  proto_chain h l ls -> m ∈ ls ->
  exists ls', proto_chain h m ls' /\ length ls' <= length ls.
Proof.
  induction 1 as [l o Ho Hp|l o p ls Ho Hp Hc IH]; intros Hm.
  - apply list_elem_of_singleton in Hm. subst. eauto with chartjs.
  - apply elem_of_cons in Hm as [->|Hm].
    + eexists; split; [by eapply pc_step|done].
    + destruct (IH Hm) as (ls' & ? & ?). exists ls'. simpl. split; [done|lia].
Qed.

Lemma proto_chain_NoDup l ls : proto_chain h l ls -> NoDup ls.
Proof.
  induction 1 as [l o Ho Hp|l o p ls Ho Hp Hc IH].
  - apply NoDup_singleton.
  - constructor; [|done]. intros Hin.
    destruct (proto_chain_suffix _ _ _ Hc Hin) as (ls' & Hl & Hlen).
    pose proof (proto_chain_det _ _ _ Hl (pc_step h _ _ _ _ Ho Hp Hc)) as ->.
    simpl in Hlen. lia.
Qed.

Lemma proto_chain_alloc l ls m :
  proto_chain h l ls -> m ∈ ls -> is_Some (obj_at h m).
Proof.
  induction 1; intros Hm; [apply list_elem_of_singleton in Hm; subst; eauto|].
  apply elem_of_cons in Hm as [->|]; eauto.
Qed.

(** On a well-formed heap a chain visits at most [h_next h] objects. *)
Lemma proto_chain_length l ls :
  heap_wf h -> proto_chain h l ls -> length ls <= h_next h.
Proof.
  intros Hwf Hc.
  replace (h_next h) with (length (seq 0 (h_next h))) by apply length_seq.
  apply NoDup_incl_length; [apply NoDup_ListNoDup; by eapply proto_chain_NoDup|].
  intros m Hm. apply list_elem_of_In in Hm.
  apply in_seq. split; [lia|]. simpl.
  eapply wf_bound; [done|]. by eapply proto_chain_alloc.
Qed.

Lemma chain_from_spec l ls n :
  proto_chain h l ls -> length ls <= n -> chain_from h n l = ls.
Proof.
  intros Hc. revert n. induction Hc as [l o Ho Hp|l o p ls Ho Hp Hc IH];
    intros [|n] Hn; simpl in *; try lia; rewrite Ho, Hp; [done|].
  f_equal. apply IH. lia.
Qed.

Lemma get_fuel_spec l ls k n :
  proto_chain h l ls -> length ls <= n -> lookup_rel h l k (get_fuel h n l k).
Proof.
  intros Hc. revert n. induction Hc as [l o Ho Hp|l o p ls Ho Hp Hc IH];
    intros [|n] Hn; simpl in *; try lia; rewrite Ho;
    destruct (own_get o k) eqn:Hk; eauto with chartjs; rewrite Hp.
  - eauto with chartjs.
  - eapply lr_inherit; eauto. apply IH. lia.
Qed.

Lemma lookup_rel_det l k v1 v2 :
  lookup_rel h l k v1 -> lookup_rel h l k v2 -> v1 = v2.
Proof.
  intros Hv1. revert v2.
  induction Hv1; intros v2 Hv2; inversion Hv2; simplify_eq; auto.
Qed.
End Chains.

(** ** Updates of the heap *)

Lemma obj_at_upd h l o m :
  obj_at (heap_upd h l o) m = if decide (m = l) then Some o else obj_at h m.
Proof.
  unfold obj_at, heap_upd; simpl. case_decide; subst.
  - apply lookup_insert_eq.
  - by apply lookup_insert_ne.
Qed.

Lemma is_Some_upd h l o o' m :
  obj_at h l = Some o -> is_Some (obj_at (heap_upd h l o') m) <-> is_Some (obj_at h m).
Proof. intros Ho. rewrite obj_at_upd. case_decide; subst; rewrite ?Ho; done. Qed.

Lemma val_ok_upd h l o o' v :
  obj_at h l = Some o -> val_ok (heap_upd h l o') v <-> val_ok h v.
Proof. intros Ho. destruct v; simpl; try done. by apply (is_Some_upd _ _ o). Qed.

(** A chain that does not pass through the updated object is unchanged. *)
Lemma proto_chain_upd_notin h l o' m ls :
  proto_chain h m ls -> l ∉ ls -> proto_chain (heap_upd h l o') m ls.
Proof.
  induction 1 as [m o Ho Hp|m o p ls Ho Hp Hc IH]; intros Hl.
  - eapply pc_end; [|done]. rewrite obj_at_upd, decide_False; [done|set_solver].
  - eapply pc_step; [|done|apply IH; set_solver].
    rewrite obj_at_upd, decide_False; [done|set_solver].
Qed.

(** An update that keeps the prototype keeps every chain. *)
Lemma proto_chain_upd_same h l o o' m ls :
  obj_at h l = Some o -> o_proto o' = o_proto o ->
  proto_chain h m ls -> proto_chain (heap_upd h l o') m ls.
Proof.
  intros Hl Hpr. induction 1 as [m o1 Ho Hp|m o1 p ls Ho Hp Hc IH].
  - destruct (decide (m = l)) as [->|Hne].
    + eapply pc_end; [by rewrite obj_at_upd, decide_True|]. congruence.
    + eapply pc_end; [|done]. by rewrite obj_at_upd, decide_False.
  - destruct (decide (m = l)) as [->|Hne].
    + eapply pc_step; [by rewrite obj_at_upd, decide_True| |done]. congruence.
    + eapply pc_step; [|done|done]. by rewrite obj_at_upd, decide_False.
Qed.

(** Replacing the properties of an object, with values that point into
    the heap, keeps the heap well formed. *)
Lemma heap_upd_wf h l o o' :
  heap_wf h -> obj_at h l = Some o -> o_proto o' = o_proto o ->
  (forall v, v ∈ obj_vals o' -> val_ok h v) ->
  heap_wf (heap_upd h l o').
Proof.
  intros Hwf Hl Hpr Hvals. split.
  - intros m Hm. apply (is_Some_upd h l o o' m Hl) in Hm.
    simpl. by apply (wf_bound h Hwf).
  - intros m Hm. apply (is_Some_upd h l o o' m Hl) in Hm.
    destruct (wf_chain _ Hwf m Hm) as [ls Hc].
    exists ls. by eapply proto_chain_upd_same.
  - intros m om v Hm Hv. apply (val_ok_upd _ _ o). { done. }
    rewrite obj_at_upd in Hm. case_decide; simplify_eq; [by apply Hvals|].
    by eapply wf_vals.
Qed.

Lemma alist_put_vals {K V} `{EqDecision K} (k : K) (x v : V) ps :
  v ∈ map snd (alist_put k x ps) -> v = x \/ v ∈ map snd ps.
Proof.
  induction ps as [|[k' v'] t IH]; simpl; [set_solver|].
  case_decide; simpl; rewrite !elem_of_cons; [naive_solver|].
  intros [->|Hv]; [by right; left|]. destruct (IH Hv); [by left|by right; right].
Qed.

Lemma alist_del_vals {K V} `{EqDecision K} (k : K) (v : V) ps :
  v ∈ map snd (alist_del k ps) -> v ∈ map snd ps.
Proof.
  induction ps as [|[k' v'] t IH]; simpl; [set_solver|].
  case_decide; simpl; rewrite !elem_of_cons; naive_solver.
Qed.

Lemma js_set_inv v k x h u h' :
  js_set v k x h = inr (u, h') ->
  exists l o, v = VRef l /\ obj_at h l = Some o /\
    h' = heap_upd h l (set_props o (alist_put k x (o_props o))).
Proof.
  destruct v; try discriminate. unfold js_set, se_bind, js_load.
  destruct (obj_at h l) as [o|] eqn:Ho; [|discriminate]. intros [=<-]. eauto.
Qed.

Lemma js_set_wf v k x h h' :
  heap_wf h -> val_ok h x -> js_set v k x h = inr (tt, h') -> heap_wf h'.
Proof.
  intros Hwf Hx Hrun. apply js_set_inv in Hrun as (l & o & -> & Ho & ->).
  eapply heap_upd_wf; [done|done|done|].
  intros v. unfold obj_vals; simpl. rewrite elem_of_app.
  intros [Hv|Hv].
  - apply alist_put_vals in Hv as [->|Hv]; [done|].
    eapply wf_vals; [done|done|]. unfold obj_vals. set_solver.
  - eapply wf_vals; [done|done|]. unfold obj_vals. set_solver.
Qed.

Lemma js_delete_wf v k h h' :
  heap_wf h -> js_delete v k h = inr (tt, h') -> heap_wf h'.
Proof.
  intros Hwf. destruct v; try discriminate; try (by intros [=<-]).
  unfold js_delete, se_bind, js_load.
  destruct (obj_at h l) as [o|] eqn:Ho; [|discriminate]. intros [=<-].
  eapply heap_upd_wf; [done|done|done|].
  intros v. unfold obj_vals; simpl. rewrite elem_of_app.
  intros [Hv|Hv]; eapply wf_vals; try done; unfold obj_vals;
    [apply alist_del_vals in Hv|]; set_solver.
Qed.

(** Re-pointing the prototype of [l] to an object whose chain exists in
    the updated heap gives every object a chain again. *)
Lemma proto_chain_reproto h l o np m ls :
  obj_at h l = Some o ->
  (forall q, np = Some q -> exists lq, proto_chain (heap_upd h l (set_proto o np)) q lq) ->
  proto_chain h m ls -> exists ls', proto_chain (heap_upd h l (set_proto o np)) m ls'.
Proof.
  intros Hl Hq.
  assert (Hself : exists ls', proto_chain (heap_upd h l (set_proto o np)) l ls').
  { destruct np as [q|] eqn:Hnp.
    - destruct (Hq q eq_refl) as [lq Hc]. exists (l :: lq).
      eapply pc_step; [by rewrite obj_at_upd, decide_True|done|done].
    - exists [l]. eapply pc_end; [by rewrite obj_at_upd, decide_True|done]. }
  induction 1 as [m o1 Ho Hp|m o1 p ls Ho Hp Hc IH];
    (destruct (decide (m = l)) as [->|Hne]; [done|]).
  - exists [m]. eapply pc_end; [|done]. by rewrite obj_at_upd, decide_False.
  - destruct IH as [ls' Hc']. exists (m :: ls').
    eapply pc_step; [|done|done]. by rewrite obj_at_upd, decide_False.
Qed.

Lemma heap_upd_same h l o :
  obj_at h l = Some o -> heap_upd h l o = h.
Proof.
  intros Hl. destruct h as [cells next]. unfold heap_upd; simpl.
  f_equal. by apply insert_id.
Qed.

Lemma set_proto_same o : set_proto o (o_proto o) = o.
Proof. by destruct o. Qed.

Lemma js_get_loc_chain h l ls k :
  heap_wf h -> proto_chain h l ls -> lookup_rel h l k (js_get_loc h l k).
Proof.
  intros Hwf Hc. eapply get_fuel_spec; [done|].
  pose proof (proto_chain_length _ _ _ Hwf Hc). lia.
Qed.

Lemma lookup_rel_frame h h' m ls k v :
  proto_chain h m ls -> (forall n, n ∈ ls -> obj_at h' n = obj_at h n) ->
  lookup_rel h m k v -> lookup_rel h' m k v.
Proof.
  intros Hc. revert v. induction Hc as [m o Ho Hp|m o p ls Ho Hp Hc IH];
    intros v Hsame Hlk; (assert (Ho' : obj_at h' m = Some o) by
      (rewrite Hsame; [done|set_solver]));
    inversion Hlk; simplify_eq; eauto with chartjs.
  eapply lr_inherit; [done|done|done|]. apply IH; [|done].
  intros n Hn. apply Hsame. set_solver.
Qed.

Lemma obj_at_alloc h o m :
  obj_at (mkHeap (<[h_next h := o]> (h_cells h)) (S (h_next h))) m =
  if decide (m = h_next h) then Some o else obj_at h m.
Proof.
  unfold obj_at; simpl. case_decide; subst.
  - apply lookup_insert_eq.
  - by apply lookup_insert_ne.
Qed.

(** ** The runtime operations keep the heap well formed *)

(** [Object.setPrototypeOf] on an object: a prototype whose chain
    contains the object is refused with a [TypeError]; any other one is
    installed. *)
Theorem js_setPrototypeOf_spec h l o q lq :
  heap_wf h -> obj_at h l = Some o -> proto_chain h q lq ->
  js_setPrototypeOf (VRef l) (VRef q) h =
    if decide (l ∈ lq) then inl TypeError
    else inr (tt, heap_upd h l (set_proto o (Some q))).
Proof.
  intros Hwf Hl Hq. unfold js_setPrototypeOf, se_bind, js_load. rewrite Hl.
  rewrite (chain_from_spec _ _ _ _ Hq); last first.
  { pose proof (proto_chain_length _ _ _ Hwf Hq). lia. }
  case_decide as Heq.
  - rewrite Heq, set_proto_same, heap_upd_same by done.
    rewrite decide_False; [done|]. intros Hin.
    pose proof (pc_step h _ _ _ _ Hl (eq_sym Heq) Hq) as Hc.
    apply proto_chain_NoDup in Hc. by apply NoDup_cons in Hc as [? _].
  - done.
Qed.

Theorem js_setPrototypeOf_wf h v p h' :
  heap_wf h -> val_ok h p -> js_setPrototypeOf v p h = inr (tt, h') -> heap_wf h'.
Proof.
  intros Hwf Hp Hrun. destruct v as [| |?|?|?|l]; try (destruct p; discriminate);
    try (destruct p; simpl in Hrun; try discriminate; injection Hrun as <-; done).
  destruct (obj_at h l) as [o|] eqn:Hl; last first.
  { destruct p; simpl in Hrun; unfold se_bind, js_load in Hrun; rewrite ?Hl in Hrun;
      discriminate. }
  assert (Hupd : forall np, (forall q, np = Some q -> exists lq, proto_chain h q lq /\ l ∉ lq) ->
            heap_wf (heap_upd h l (set_proto o np))).
  { intros np Hnp. split.
    - intros m Hm. apply (is_Some_upd h l o _ m Hl) in Hm. simpl.
      by apply (wf_bound h Hwf).
    - intros m Hm. apply (is_Some_upd h l o _ m Hl) in Hm.
      destruct (wf_chain h Hwf m Hm) as [ls Hc].
      eapply proto_chain_reproto; [done| |done].
      intros q Hq. destruct (Hnp q Hq) as (lq & Hcq & Hnotin).
      exists lq. by apply proto_chain_upd_notin.
    - intros m om w Hm Hw. apply (val_ok_upd h l o). { done. }
      rewrite obj_at_upd in Hm. case_decide; simplify_eq; eapply wf_vals; eauto. }
  destruct p as [| |?|?|?|q]; unfold js_setPrototypeOf in Hrun; try discriminate;
    unfold se_bind, js_load in Hrun; rewrite Hl in Hrun.
  - case_decide; [by simplify_eq|]. injection Hrun as <-. apply Hupd. done.
  - destruct (wf_chain h Hwf q Hp) as [lq Hq].
    case_decide; [by simplify_eq|].
    rewrite (chain_from_spec _ _ _ _ Hq) in Hrun; last first.
    { pose proof (proto_chain_length _ _ _ Hwf Hq). lia. }
    case_decide as Hin; [discriminate|]. injection Hrun as <-.
    apply Hupd. intros q' [=<-]. eauto.
Qed.

Lemma js_get_loc_spec h l k :
  heap_wf h -> is_Some (obj_at h l) -> lookup_rel h l k (js_get_loc h l k).
Proof.
  intros Hwf Hl. destruct (wf_chain h Hwf l Hl) as [ls Hc].
  by eapply js_get_loc_chain.
Qed.

(** Assigning a key of [l] changes no lookup on an object whose chain
    does not pass through [l]: in particular not on [l]'s prototype or on
    any sibling sharing it. *)
Theorem js_set_lookup_frame h l k x h' m ls k' :
  heap_wf h -> val_ok h x -> js_set (VRef l) k x h = inr (tt, h') ->
  proto_chain h m ls -> l ∉ ls -> js_get_loc h' m k' = js_get_loc h m k'.
Proof.
  intros Hwf Hx Hrun Hc Hl.
  pose proof (js_set_wf _ _ _ _ _ Hwf Hx Hrun) as Hwf'.
  apply js_set_inv in Hrun as (l' & o & [=<-] & Ho & ->).
  pose proof (proto_chain_upd_notin _ l (set_props o (alist_put k x (o_props o))) _ _ Hc Hl) as Hc'.
  set (h' := heap_upd h l (set_props o (alist_put k x (o_props o)))) in *.
  apply (lookup_rel_det h' m k'); [by apply (js_get_loc_chain h' m ls)|].
  apply (lookup_rel_frame h h' m ls); [done| |by apply (js_get_loc_chain h m ls)].
  intros n Hn. subst h'. rewrite obj_at_upd, decide_False; [done|]. by intros ->.
Qed.

Lemma js_set_lookup_self h l k x h' :
  isObject h (VRef l) = true -> js_set (VRef l) k x h = inr (tt, h') ->
  js_get_loc h' l k = x.
Proof.
  intros Hobj Hrun. apply js_set_inv in Hrun as (l' & o & [=<-] & Ho & ->).
  unfold isObject in Hobj. rewrite Ho in Hobj.
  destruct o as [[] ps pr]; [|discriminate].
  unfold js_get_loc; simpl. rewrite obj_at_upd, decide_True by done.
  unfold own_get; simpl. by rewrite alist_get_put_eq.
Qed.

Lemma js_alloc_wf h o l h' :
  heap_wf h -> o_proto o = None -> (forall v, v ∈ obj_vals o -> val_ok h v) ->
  js_alloc o h = inr (l, h') -> heap_wf h' /\ l = h_next h /\ obj_at h' l = Some o.
Proof.
  intros Hwf Hpr Hvals [=<- <-]. rewrite obj_at_alloc, decide_True by done.
  assert (Hold : forall m, is_Some (obj_at h m) -> m <> h_next h).
  { intros m Hm ->. pose proof (wf_bound h Hwf _ Hm). lia. }
  assert (Hval : forall v, val_ok h v ->
            val_ok (mkHeap (<[h_next h := o]> (h_cells h)) (S (h_next h))) v).
  { intros [| |?|?|?|m] Hv; simpl in *; try done.
    rewrite obj_at_alloc, decide_False; [done|]. by apply Hold. }
  split; [|done]. split.
  - intros m. rewrite obj_at_alloc. simpl. case_decide; [lia|].
    intros Hm. pose proof (wf_bound h Hwf _ Hm). lia.
  - intros m. rewrite obj_at_alloc. case_decide as Hm.
    + intros _. exists [m]. eapply pc_end; [by rewrite obj_at_alloc, decide_True|done].
    + intros Hs. destruct (wf_chain h Hwf m Hs) as [ls Hc]. exists ls.
      clear Hs. induction Hc as [m' o' Ho Hp|m' o' p ls Ho Hp Hc IH].
      * eapply pc_end; [|done]. rewrite obj_at_alloc, decide_False; [done|].
        apply Hold. by rewrite Ho.
      * eapply pc_step; [|done|].
        { rewrite obj_at_alloc, decide_False; [done|]. apply Hold. by rewrite Ho. }
        apply IH. apply Hold. by inversion Hc; simplify_eq; eauto.
  - intros m om v. rewrite obj_at_alloc. case_decide; intros Hm Hv; simplify_eq.
    + by apply Hval, Hvals.
    + by apply Hval; eapply wf_vals.
Qed.

(** ** An executable check of the heap invariant

    Concrete heaps are shown well formed by evaluating [heap_wf_b]. *)

Fixpoint chain_ok_b (h : heap) (n : nat) (l : loc) : bool :=
  match n with
  | 0 => false
  | S n' =>
      match obj_at h l with
      | None => false
      | Some o => match o_proto o with
                  | None => true
                  | Some p => chain_ok_b h n' p
                  end
      end
  end.

Definition val_ok_b (h : heap) (v : value) : bool :=
  match v with VRef m => bool_decide (is_Some (obj_at h m)) | _ => true end.

Definition heap_wf_b (h : heap) : bool :=
  forallb (fun lo => bool_decide (lo.1 < h_next h) && chain_ok_b h (S (h_next h)) lo.1
                     && forallb (val_ok_b h) (obj_vals lo.2))
          (map_to_list (h_cells h)).

Lemma chain_ok_b_sound h n l : chain_ok_b h n l = true -> exists ls, proto_chain h l ls.
Proof.
  revert l. induction n as [|n IH]; intros l; simpl; [discriminate|].
  destruct (obj_at h l) as [o|] eqn:Ho; [|discriminate].
  destruct (o_proto o) as [p|] eqn:Hp.
  - intros Hb. destruct (IH p Hb) as [ls Hc]. eexists. by eapply pc_step.
  - intros _. eexists. by eapply pc_end.
Qed.

Lemma heap_wf_b_sound h : heap_wf_b h = true -> heap_wf h.
Proof.
  unfold heap_wf_b. rewrite forallb_forall. intros Hall.
  assert (Hat : forall l o, obj_at h l = Some o ->
            l < h_next h /\ chain_ok_b h (S (h_next h)) l = true /\
            forallb (val_ok_b h) (obj_vals o) = true).
  { intros l o Ho. specialize (Hall (l, o)).
    ospecialize (Hall _); [apply list_elem_of_In, elem_of_map_to_list; done|].
    simpl in Hall. apply andb_prop in Hall as [Hall H3].
    apply andb_prop in Hall as [H1 H2]. apply bool_decide_eq_true in H1. done. }
  split.
  - intros l [o Ho]. by apply (Hat l o).
  - intros l [o Ho]. apply (chain_ok_b_sound h (S (h_next h))). by apply (Hat l o).
  - intros l o v Ho Hv. destruct (Hat l o Ho) as (_ & _ & Hvs).
    rewrite forallb_forall in Hvs. apply list_elem_of_In in Hv.
    specialize (Hvs v Hv). destruct v; simpl in *; try done.
    by apply bool_decide_eq_true in Hvs.
Qed.

(** [a || b] with [b] evaluated only when [a] is falsy. *)
Definition js_lor (a : value) (b : JS value) : JS value :=
  if js_truthy a then se_ret a else b.

(** [v || {}]: a fresh empty object literal when [v] is falsy. *)
Definition js_or_empty (v : value) : JS value := js_lor v (js_object []).

(** ** Heap extension

    [heap_ext h h']: [h'] is well formed and keeps every object of [h]
    as it was; allocation of fresh literals extends the heap. *)

Definition heap_ext (h h' : heap) : Prop :=
  heap_wf h' /\ forall l o, obj_at h l = Some o -> obj_at h' l = Some o.

Lemma heap_ext_refl h : heap_wf h -> heap_ext h h.
Proof. by split. Qed.

Lemma heap_ext_trans h1 h2 h3 : heap_ext h1 h2 -> heap_ext h2 h3 -> heap_ext h1 h3.
Proof. intros [_ H12] [Hwf H23]. split; [done|]. eauto. Qed.

Lemma heap_ext_val_ok h h' v : heap_ext h h' -> val_ok h v -> val_ok h' v.
Proof. intros [_ Hext]. destruct v; simpl; try done. intros [o Ho]. eauto. Qed.

Lemma proto_chain_frame h h' m ls :
  proto_chain h m ls -> (forall n, n ∈ ls -> obj_at h' n = obj_at h n) ->
  proto_chain h' m ls.
Proof.
  induction 1 as [m o Ho Hp|m o p ls Ho Hp Hc IH]; intros Hs.
  - eapply pc_end; [|done]. rewrite Hs; [done|set_solver].
  - eapply pc_step; [rewrite Hs; [done|set_solver]|done|].
    apply IH. intros n Hn. apply Hs. set_solver.
Qed.

Lemma heap_ext_get h h' l k :
  heap_wf h -> heap_ext h h' -> is_Some (obj_at h l) ->
  js_get_loc h' l k = js_get_loc h l k.
Proof.
  intros Hwf [Hwf' Hext] Hl. destruct (wf_chain h Hwf l Hl) as [ls Hc].
  assert (Hs : forall n, n ∈ ls -> obj_at h' n = obj_at h n).
  { intros n Hn. destruct (proto_chain_alloc _ _ _ _ Hc Hn) as [o Ho].
    rewrite Ho. eauto. }
  apply (lookup_rel_det h' l k).
  - apply (js_get_loc_chain h' l ls); [done|]. by apply (proto_chain_frame h).
  - apply (lookup_rel_frame h h' l ls); [done|done|]. by eapply js_get_loc_chain.
Qed.

Lemma js_alloc_ext h o l h' :
  heap_wf h -> o_proto o = None -> (forall v, v ∈ obj_vals o -> val_ok h v) ->
  js_alloc o h = inr (l, h') -> heap_ext h h' /\ obj_at h' l = Some o /\ obj_at h l = None.
Proof.
  intros Hwf Hpr Hvals Hrun. pose proof Hrun as Hrun'.
  apply js_alloc_wf in Hrun as (Hwf' & -> & Hl); [|done..].
  injection Hrun' as <-. split; [split; [done|]|split; [done|]].
  - intros m om Hm. rewrite obj_at_alloc, decide_False; [done|].
    intros ->. pose proof (wf_bound h Hwf (h_next h) (ltac:(eauto))). lia.
  - destruct (obj_at h (h_next h)) eqn:Hn; [|done].
    pose proof (wf_bound h Hwf (h_next h) (ltac:(eauto))). lia.
Qed.

(** An own property read returns a stored value, or an array length. *)
Lemma own_get_vals o k v :
  own_get o k = Some v -> v ∈ obj_vals o \/ exists z, v = VNum z.
Proof.
  unfold own_get, obj_vals. destruct (o_class o) as [|items] eqn:Hcl.
  - intros Hk. left. apply elem_of_app; left. by eapply alist_get_Some_val.
  - case_decide; [intros [=<-]; eauto|].
    destruct (index_of_key k 0 items) as [x|] eqn:Hi.
    + intros [=<-]. left. apply elem_of_app; right. revert Hi. clear.
      generalize 0. induction items as [|y ys IH]; intros i; simpl; [done|].
      case_decide; [intros [=->]; left|intros Hy; right; eauto].
    + intros Hk. left. apply elem_of_app; left. by eapply alist_get_Some_val.
Qed.

Lemma lookup_rel_val_ok h l k v : heap_wf h -> lookup_rel h l k v -> val_ok h v.
Proof.
  intros Hwf. induction 1 as [l o k v Ho Hk|l o p k v Ho Hk Hp _ IH|]; try done.
  destruct (own_get_vals o k v Hk) as [Hv|[z ->]]; [|done].
  by apply (wf_vals h Hwf l o).
Qed.

Lemma js_get_loc_val_ok h l k :
  heap_wf h -> is_Some (obj_at h l) -> val_ok h (js_get_loc h l k).
Proof. intros Hwf Hl. eapply lookup_rel_val_ok; [done|]. by apply js_get_loc_spec. Qed.

#[export] Hint Resolve heap_ext_refl heap_ext_val_ok js_get_loc_val_ok : chartjs.

(** [v[k]] on an object, when the lookup is known. *)
Lemma js_get_ref h l k : js_get (VRef l) k h = inr (js_get_loc h l k, h).
Proof. reflexivity. Qed.

(** A heap built from a list of objects, the [i]-th at location [i]. *)
Definition heap_of (os : list jsobj) : heap :=
  mkHeap (list_to_map (zip (seq 0 (length os)) os)) (length os).

Definition plain (ps : list (string * value)) : jsobj := mkObj OPlain ps None.

(** [arr.forEach(...)] needs an array: its items, in order. *)
Definition js_array_items (v : value) : JS (list value) :=
  match v with
  | VRef l =>
      let* o := js_load l in
      match o_class o with
      | OArray items => se_ret items
      | OPlain => se_throw TypeError
      end
  | _ => se_throw TypeError
  end.

(** Strict equality [===] of two values (numbers are integers here, so
    [NaN] and signed zeros do not arise). *)
Definition js_strict_eq (a b : value) : bool := bool_decide (a = b).
