(* ===== verification/JsLogic.v ===== *)
(** * A small logic for computations over the heap

    [Pres R m] states that every successful run of [m] relates its
    initial and final heaps by [R]; when [R] is a preorder
    ([HeapPreorder]) the statement composes along [let*], [forEach] and
    loops, so that a property of a whole routine follows from the
    properties of the runtime operations it calls.  The relations used
    by the development: [grows] (nothing disappears), [same_props] (only
    prototypes change), [wf_rel] (the heap invariant is kept) and
    [frozen n] (the object at [n] is left alone while nothing refers to
    it).  Also here: [path_get], the value a property read returns. *)

From S2P Require Import Prelude JsObject.
From stdpp Require Import pretty.

Local Open Scope se_scope.

(** ** Relations between the heap before and after a computation

    [Pres R m]: every successful run of [m] relates its initial and final
    heaps by [R].  [grows]: no object disappears and the next free
    location never decreases.  [same_props]: only prototypes change. *)

Definition Pres {A} (R : heap -> heap -> Prop) (m : JS A) : Prop :=
  forall h a h', m h = inr (a, h') -> R h h'.

Definition bounded (h : heap) : Prop := forall l, h_next h <= l -> obj_at h l = None.

Definition grows (h h' : heap) : Prop :=
  bounded h -> bounded h' /\ h_next h <= h_next h' /\
  forall l o, obj_at h l = Some o -> exists o', obj_at h' l = Some o' /\ o_class o' = o_class o.

Definition same_props (h h' : heap) : Prop :=
  h_next h' = h_next h /\
  forall l, match obj_at h l, obj_at h' l with
            | Some o, Some o' => o_class o' = o_class o /\ o_props o' = o_props o
            | None, None => True
            | _, _ => False
            end.

(** A relation between heaps that composes along a computation. *)
Class HeapPreorder (R : heap -> heap -> Prop) := {
  hp_refl : forall h, R h h;
  hp_trans : forall h1 h2 h3, R h1 h2 -> R h2 h3 -> R h1 h3
}.

Section PresLemmas.
Context (R : heap -> heap -> Prop) `{!HeapPreorder R}.

Lemma Pres_ret {A} (a : A) : Pres R (se_ret a).
Proof. intros h b h' [=<- <-]. apply hp_refl. Qed.

Lemma Pres_throw {A} e : Pres R (se_throw (A:=A) e).
Proof. discriminate. Qed.

Lemma Pres_bind {A B} (m : JS A) (k : A -> JS B) :
  Pres R m -> (forall a, Pres R (k a)) -> Pres R (se_bind m k).
Proof.
  intros Hm Hk h b h'' Hrun. apply se_bind_inr_inv in Hrun as (a & h' & H1 & H2).
  eapply hp_trans; [eapply Hm, H1|eapply Hk, H2].
Qed.

Lemma Pres_iter {A} (f : A -> JS unit) xs :
  (forall x, Pres R (f x)) -> Pres R (se_iter f xs).
Proof.
  intros Hf. induction xs as [|x xs IH]; simpl; [apply Pres_ret|].
  apply Pres_bind; [apply Hf|intros _; apply IH].
Qed.

Lemma Pres_foldl {A B} (f : B -> A -> JS B) b xs :
  (forall b x, Pres R (f b x)) -> Pres R (se_foldl f b xs).
Proof.
  intros Hf. revert b. induction xs as [|x xs IH]; intros b; simpl; [apply Pres_ret|].
  apply Pres_bind; [apply Hf|intros b'; apply IH].
Qed.

Lemma Pres_read {A} (f : heap -> A) : Pres R (fun h => inr (f h, h)).
Proof. intros h a h' [=<- <-]. apply hp_refl. Qed.

Lemma Pres_load l : Pres R (js_load l).
Proof. intros h o h'. unfold js_load. destruct (obj_at h l); [intros [=<- <-]; apply hp_refl|done]. Qed.

Lemma Pres_get v k : Pres R (js_get v k).
Proof. destruct v; try apply Pres_throw; try apply Pres_ret. apply Pres_read. Qed.

Lemma Pres_keys v : Pres R (js_keys v).
Proof. destruct v; try apply Pres_throw; try apply Pres_ret. apply Pres_bind; [apply Pres_load|intros; apply Pres_ret]. Qed.

Lemma Pres_hasOwn v k : Pres R (js_hasOwn v k).
Proof. destruct v; try apply Pres_throw; try apply Pres_ret. apply Pres_bind; [apply Pres_load|intros; apply Pres_ret]. Qed.

Lemma Pres_getPrototypeOf v : Pres R (js_getPrototypeOf v).
Proof. destruct v; try apply Pres_throw; try apply Pres_ret. apply Pres_bind; [apply Pres_load|intros; apply Pres_ret]. Qed.

Lemma Pres_isObject v : Pres R (js_isObject v).
Proof. apply Pres_read. Qed.

Lemma Pres_array_items v : Pres R (js_array_items v).
Proof.
  destruct v; try apply Pres_throw. apply Pres_bind; [apply Pres_load|].
  intros o. destruct (o_class o); [apply Pres_throw|apply Pres_ret].
Qed.

Lemma Pres_lor a m : Pres R m -> Pres R (js_lor a m).
Proof. intros Hm. unfold js_lor. destruct (js_truthy a); [apply Pres_ret|done]. Qed.
End PresLemmas.

(** A relation that implies another. *)
Lemma Pres_mono {A} (R R' : heap -> heap -> Prop) (m : JS A) :
  (forall h h', R h h' -> R' h h') -> Pres R m -> Pres R' m.
Proof. intros HR Hm h a h' Hrun. eauto. Qed.

(** A computation that first looks at the heap, such as a loop whose
    bound is the number of objects. *)
Lemma Pres_dep {A} (R : heap -> heap -> Prop) (f : heap -> JS A) :
  (forall h0, Pres R (f h0)) -> Pres R (fun h => f h h).
Proof. intros Hf h a h'. apply Hf. Qed.

(** Use a preservation fact on a run. *)
Lemma Pres_run {A} R (m : JS A) h a h' : Pres R m -> m h = inr (a, h') -> R h h'.
Proof. intros Hm. apply Hm. Qed.

Lemma grows_refl h : grows h h.
Proof. intros Hb. split_and!; eauto. Qed.

Lemma grows_trans h1 h2 h3 : grows h1 h2 -> grows h2 h3 -> grows h1 h3.
Proof.
  intros H12 H23 Hb. destruct (H12 Hb) as (Hb2 & N2 & C2). destruct (H23 Hb2) as (Hb3 & N3 & C3).
  split_and!; [done|lia|]. intros l o Ho. destruct (C2 l o Ho) as (o2 & Ho2 & Hc2).
  destruct (C3 l o2 Ho2) as (o3 & Ho3 & Hc3). exists o3. split; congruence.
Qed.

Lemma same_props_refl h : same_props h h.
Proof. split; [done|]. intros l. destruct (obj_at h l); done. Qed.

Lemma same_props_trans h1 h2 h3 : same_props h1 h2 -> same_props h2 h3 -> same_props h1 h3.
Proof.
  intros [N12 H12] [N23 H23]. split; [lia|]. intros l.
  specialize (H12 l). specialize (H23 l).
  destruct (obj_at h1 l), (obj_at h2 l), (obj_at h3 l); try done.
  destruct H12, H23. split; congruence.
Qed.

(** Reads: the heap is unchanged. *)
#[export] Instance eq_preorder : HeapPreorder (@eq heap).
Proof. split; [done|congruence]. Qed.

#[export] Instance grows_preorder : HeapPreorder grows :=
  {| hp_refl := grows_refl; hp_trans := grows_trans |}.
#[export] Instance same_props_preorder : HeapPreorder same_props :=
  {| hp_refl := same_props_refl; hp_trans := same_props_trans |}.

Lemma same_props_grows h h' : same_props h h' -> grows h h'.
Proof.
  intros [N H] Hb. split_and!; [|lia|].
  - intros l Hl. specialize (H l). rewrite Hb in H by lia. by destruct (obj_at h' l).
  - intros l o Ho. specialize (H l). rewrite Ho in H.
    destruct (obj_at h' l) as [o'|]; [|done]. destruct H. eauto.
Qed.

(** Replacing an allocated object by one of the same class. *)
Lemma grows_upd h l o o' :
  obj_at h l = Some o -> o_class o' = o_class o -> grows h (heap_upd h l o').
Proof.
  intros Hl Hc Hb. split_and!; [|done|].
  - intros m Hm. change (h_next h <= m) in Hm.
    rewrite obj_at_upd. case_decide; [subst|by apply Hb].
    rewrite Hb in Hl; [done|lia].
  - intros m om Hm. rewrite obj_at_upd. case_decide; [subst|eauto].
    rewrite Hl in Hm. injection Hm as <-. eauto.
Qed.

(** Changing one object's prototype keeps every property. *)
Lemma same_props_reproto h l o np :
  obj_at h l = Some o -> same_props h (heap_upd h l (set_proto o np)).
Proof.
  intros Hl. split; [done|]. intros m. rewrite obj_at_upd. case_decide; subst.
  - by rewrite Hl.
  - destruct (obj_at h m); done.
Qed.

Lemma js_setPrototypeOf_inv v p h h' :
  js_setPrototypeOf v p h = inr (tt, h') ->
  h' = h \/ exists l o np, v = VRef l /\ obj_at h l = Some o /\
                          h' = heap_upd h l (set_proto o np).
Proof.
  destruct v as [| |?|?|?|l]; try discriminate;
    try (destruct p; simpl; try discriminate; intros [=<-]; by left).
  destruct p as [| |?|?|?|q]; try discriminate;
    unfold js_setPrototypeOf, se_bind, js_load;
    (destruct (obj_at h l) as [o|] eqn:Hl; [|discriminate]).
  - case_decide; intros [=<-]; [by left|right; eexists _, _, _; eauto].
  - case_decide; [intros [=<-]; by left|].
    case_decide; [discriminate|]. intros [=<-]. right; eexists _, _, _; eauto.
Qed.

Lemma Pres_setPrototypeOf_same_props v p : Pres same_props (js_setPrototypeOf v p).
Proof.
  intros h [] h' Hrun. destruct (js_setPrototypeOf_inv _ _ _ _ Hrun)
    as [->|(l & o & np & -> & Hl & ->)]; [apply same_props_refl|by apply same_props_reproto].
Qed.

Lemma Pres_set_grows v k x : Pres grows (js_set v k x).
Proof.
  intros h [] h' Hrun. apply js_set_inv in Hrun as (l & o & -> & Hl & ->).
  by eapply grows_upd.
Qed.

Lemma Pres_delete_grows v k : Pres grows (js_delete v k).
Proof.
  intros h [] h'. destruct v; try discriminate; try (intros [=<-]; apply grows_refl).
  unfold js_delete, se_bind, js_load. destruct (obj_at h l) eqn:Hl; [|discriminate].
  intros [=<-]. by eapply grows_upd.
Qed.

Lemma Pres_alloc_grows o : Pres grows (js_alloc o).
Proof.
  intros h l h' [=<- <-] Hb. split_and!; simpl; [|lia|].
  - intros m Hm. simpl in Hm. rewrite obj_at_alloc, decide_False by lia. apply Hb. lia.
  - intros m om Hm. rewrite obj_at_alloc, decide_False; [eauto|].
    intros ->. by rewrite Hb in Hm.
Qed.

(** Split a computation into its steps and close the primitive ones. *)
Ltac pres_prim R :=
  first [ apply (Pres_ret R) | apply (Pres_throw R) | apply (Pres_get R)
        | apply (Pres_keys R) | apply (Pres_hasOwn R) | apply (Pres_getPrototypeOf R)
        | apply (Pres_isObject R) | apply (Pres_array_items R) | apply (Pres_load R)
        | apply (Pres_read R) ].

Ltac pres_step :=
  match goal with
  | |- Pres ?R (se_bind _ _) => apply (Pres_bind R); [|intros ?]
  | |- Pres ?R (se_iter _ _) => apply (Pres_iter R); intros ?
  | |- Pres ?R (se_foldl _ _ _) => apply (Pres_foldl R); intros ? ?
  | |- Pres ?R (js_lor _ _) => apply (Pres_lor R)
  | |- Pres _ (js_or_empty _) => unfold js_or_empty
  | |- Pres _ (if ?b then _ else _) => destruct b
  | |- Pres _ (match ?x with _ => _ end) => destruct x
  | |- Pres ?R _ => pres_prim R
  end.

(** [pres_split_using tac] tries [tac] before each step. *)
Ltac pres_split_using tac := repeat first [tac | pres_step].
Ltac pres_split := repeat pres_step.

Lemma Pres_object_grows ps : Pres grows (js_object ps).
Proof. unfold js_object. pres_split. apply Pres_alloc_grows. Qed.

Lemma Pres_create_null_grows : Pres grows js_create_null.
Proof. apply Pres_object_grows. Qed.

Lemma Pres_array_grows xs : Pres grows (js_array xs).
Proof. unfold js_array. pres_split. apply Pres_alloc_grows. Qed.

Lemma Pres_assign_grows t srcs : Pres grows (js_assign t srcs).
Proof.
  unfold js_assign, assign_one. pres_split; apply Pres_set_grows.
Qed.

Lemma Pres_setPrototypeOf_grows v p : Pres grows (js_setPrototypeOf v p).
Proof. eapply Pres_mono; [apply same_props_grows|apply Pres_setPrototypeOf_same_props]. Qed.

#[export] Hint Resolve Pres_set_grows Pres_delete_grows Pres_alloc_grows Pres_object_grows
  Pres_create_null_grows Pres_array_grows Pres_assign_grows Pres_setPrototypeOf_grows : chartjs.

(** ** Lookups along a path of properties

    [path_get h v k] is what [(v || {})[k]] reads when [v] is a value of
    the heap: a lookup on an object, [undefined] on anything else. *)
Definition path_get (h : heap) (v : value) (k : string) : value :=
  match v with VRef l => js_get_loc h l k | _ => VUndef end.

Lemma path_get_ext h h' v k :
  heap_wf h -> heap_ext h h' -> val_ok h v -> path_get h' v k = path_get h v k.
Proof. intros Hwf Hext Hv. destruct v; simpl; try done. by apply heap_ext_get. Qed.

Lemma path_get_val_ok h v k : heap_wf h -> val_ok h v -> val_ok h (path_get h v k).
Proof. intros Hwf Hv. destruct v; simpl; try done. by apply js_get_loc_val_ok. Qed.

#[export] Hint Resolve path_get_val_ok : chartjs.

(** A successful read leaves the heap as it was and returns [path_get]. *)
Lemma js_get_inv v k h c h' :
  js_get v k h = inr (c, h') -> h' = h /\ c = path_get h v k.
Proof. destruct v; simpl; try discriminate; by intros [=<- <-]. Qed.

(** ** Objects nothing refers to

    A freshly allocated object is referenced by no property of the heap;
    a routine that only follows properties can then never reach it. *)

Definition unreferenced (h : heap) (n : loc) : Prop :=
  forall l o, obj_at h l = Some o -> VRef n ∉ obj_vals o.

Lemma get_fuel_stored h f l k m :
  get_fuel h f l k = VRef m -> exists l' o, obj_at h l' = Some o /\ VRef m ∈ obj_vals o.
Proof.
  revert l. induction f as [|f IH]; intros l; simpl; [done|].
  destruct (obj_at h l) as [o|] eqn:Ho; [|done].
  destruct (own_get o k) as [v|] eqn:Hk.
  - intros ->. destruct (own_get_vals o k _ Hk) as [Hv|[z ?]]; [eauto|done].
  - destruct (o_proto o); [apply IH|done].
Qed.

Lemma path_get_unref h n v k : unreferenced h n -> path_get h v k <> VRef n.
Proof.
  intros Hu Hg. destruct v; simpl in Hg; try done.
  destruct (get_fuel_stored _ _ _ _ _ Hg) as (l' & o & Ho & Hin).
  by apply (Hu l' o).
Qed.

Lemma same_props_obj_vals h h' l o' :
  same_props h h' -> obj_at h' l = Some o' ->
  exists o, obj_at h l = Some o /\ obj_vals o' = obj_vals o.
Proof.
  intros [_ Hs] Ho'. specialize (Hs l). rewrite Ho' in Hs.
  destruct (obj_at h l) as [o|]; [|done]. destruct Hs as [Hc Hp].
  exists o. unfold obj_vals. by rewrite Hc, Hp.
Qed.

Lemma unreferenced_same_props h h' n :
  same_props h h' -> unreferenced h n -> unreferenced h' n.
Proof.
  intros Hs Hu l o' Ho'. destruct (same_props_obj_vals h h' l o' Hs Ho') as (o & Ho & ->).
  by apply (Hu l).
Qed.

(** In a well-formed heap the next free location is referenced by
    nothing, and stays so while only prototypes change. *)
Lemma fresh_unreferenced h h' :
  heap_wf h -> same_props h h' -> unreferenced h' (h_next h').
Proof.
  intros Hwf Hs. rewrite (proj1 Hs). apply (unreferenced_same_props h); [done|].
  intros l o Ho Hin. pose proof (wf_vals h Hwf l o _ Ho Hin) as Hv.
  pose proof (wf_bound h Hwf (h_next h) Hv). lia.
Qed.

(** [frozen n]: while nothing refers to [n], the object at [n] is kept
    and nothing comes to refer to it. *)
Definition frozen (n : loc) (h h' : heap) : Prop :=
  unreferenced h n -> unreferenced h' n /\ obj_at h' n = obj_at h n.

#[export] Instance frozen_preorder n : HeapPreorder (frozen n).
Proof.
  split; [by intros h Hu|].
  intros h1 h2 h3 H12 H23 Hu. destruct (H12 Hu) as [Hu2 E2].
  destruct (H23 Hu2) as [Hu3 E3]. split; [done|congruence].
Qed.

Lemma Pres_setPrototypeOf_frozen n v p :
  v <> VRef n -> Pres (frozen n) (js_setPrototypeOf v p).
Proof.
  intros Hv h [] h' Hrun Hu. split.
  - eapply unreferenced_same_props; [|done]. by eapply Pres_setPrototypeOf_same_props.
  - destruct (js_setPrototypeOf_inv v p h h' Hrun) as [->|(l & o & np & -> & _ & ->)]; [done|].
    rewrite obj_at_upd, decide_False; [done|]. intros ->. done.
Qed.

(** A value read from the heap is never a reference to an object
    nothing refers to. *)
Lemma Pres_get_frozen {A} n v k (K : value -> JS A) :
  (forall c, c <> VRef n -> Pres (frozen n) (K c)) ->
  Pres (frozen n) (se_bind (js_get v k) K).
Proof.
  intros HK h a h' Hrun Hu. apply se_bind_inr_inv in Hrun as (c & h1 & Hg & Hk).
  apply js_get_inv in Hg as [-> ->].
  eapply HK; [by apply path_get_unref|done|done].
Qed.

(** A successful [Object.setPrototypeOf(obj, proto)] on objects
    installs [proto]. *)
Lemma js_setPrototypeOf_ref_inv l q o h h' :
  obj_at h l = Some o -> js_setPrototypeOf (VRef l) (VRef q) h = inr (tt, h') ->
  h' = heap_upd h l (set_proto o (Some q)).
Proof.
  intros Hl. unfold js_setPrototypeOf, se_bind, js_load. rewrite Hl.
  case_decide as Heq; [intros [=<-]; by rewrite Heq, set_proto_same, heap_upd_same|].
  case_decide; [discriminate|]. by intros [=<-].
Qed.

(** ** [Object.assign] onto an object of its own *)

Lemma heap_upd_upd h l o o' : heap_upd (heap_upd h l o') l o = heap_upd h l o.
Proof. unfold heap_upd; simpl. by rewrite insert_insert_eq. Qed.

(** The own properties [Object.assign] leaves on a target with own
    properties [acc], copying the keys [ks] of a plain source with own
    properties [ps]. *)
Definition copy_props (ps : list (string * value)) (ks : list string)
    (acc : list (string * value)) : list (string * value) :=
  fold_left (fun acc k => alist_put k (default VUndef (alist_get k ps)) acc) ks acc.

Lemma copy_props_get ps ks acc k :
  alist_get k (copy_props ps ks acc) =
    if decide (k ∈ ks) then Some (default VUndef (alist_get k ps)) else alist_get k acc.
Proof.
  revert acc. induction ks as [|k' ks IH]; intros acc; simpl; [done|].
  rewrite IH. case_decide as H1; case_decide as H2; try set_solver.
  - assert (k = k') as -> by set_solver. by rewrite alist_get_put_eq.
  - rewrite alist_get_put_ne; set_solver.
Qed.

(** Copying all keys of a plain source onto an empty target copies the
    source's own properties. *)
Lemma copy_props_all ps k : alist_get k (copy_props ps (map fst ps) []) = alist_get k ps.
Proof.
  rewrite copy_props_get. case_decide as Hin.
  - destruct (alist_get k ps) eqn:Hk; [done|]. by apply alist_get_None_notin in Hk.
  - symmetry. by apply alist_get_None_notin.
Qed.

(** A read that finds an own property returns it. *)
Lemma js_get_loc_own h l k o v :
  obj_at h l = Some o -> own_get o k = Some v -> js_get_loc h l k = v.
Proof. intros Ho Hk. unfold js_get_loc. simpl. by rewrite Ho, Hk. Qed.

Lemma js_set_ref h l k x o :
  obj_at h l = Some o ->
  js_set (VRef l) k x h = inr (tt, heap_upd h l (set_props o (alist_put k x (o_props o)))).
Proof. intros Ho. unfold js_set, se_bind, js_load. by rewrite Ho. Qed.

Section AssignFresh.
Context (h : heap) (n lo : loc) (ps : list (string * value)) (pr : option loc).
Hypothesis Hne : lo <> n.
Hypothesis Hlo : obj_at h lo = Some (mkObj OPlain ps pr).

Lemma assign_key_step acc k :
  k ∈ map fst ps ->
  (let* x := js_get (VRef lo) k in js_set (VRef n) k x) (heap_upd h n (mkObj OPlain acc None)) =
  inr (tt, heap_upd h n (mkObj OPlain (alist_put k (default VUndef (alist_get k ps)) acc) None)).
Proof.
  intros Hk. rewrite (se_bind_inr _ _ _ _ _ (js_get_ref _ _ _)).
  destruct (alist_get k ps) as [v|] eqn:Hv; [|by apply alist_get_None_notin in Hv].
  rewrite (js_get_loc_own _ _ _ (mkObj OPlain ps pr) v); [|by rewrite obj_at_upd, decide_False|done].
  rewrite (js_set_ref _ _ _ _ (mkObj OPlain acc None)); [|by rewrite obj_at_upd, decide_True].
  by rewrite heap_upd_upd.
Qed.

Lemma assign_keys_loop ks acc h' :
  (forall k, k ∈ ks -> k ∈ map fst ps) ->
  se_iter (fun k => let* x := js_get (VRef lo) k in js_set (VRef n) k x) ks
    (heap_upd h n (mkObj OPlain acc None)) = inr (tt, h') ->
  h' = heap_upd h n (mkObj OPlain (copy_props ps ks acc) None).
Proof.
  revert acc. induction ks as [|k ks IH]; intros acc Hks; simpl; [by intros [=<-]|].
  rewrite (se_bind_inr _ _ _ tt _ (assign_key_step acc k (Hks k ltac:(set_solver)))).
  apply IH. set_solver.
Qed.

(** [Object.assign(target, source)] with a target [n] of no prototype
    and a plain source [lo]: the source's own properties are put on the
    target in key order. *)
Lemma js_assign_plain_fresh ps0 r h' :
  obj_at h n = Some (mkObj OPlain ps0 None) ->
  js_assign (VRef n) [VRef lo] h = inr (r, h') ->
  r = VRef n /\ h' = heap_upd h n (mkObj OPlain (copy_props ps (map fst ps) ps0) None).
Proof.
  intros Hn Hrun. unfold js_assign in Hrun. se_inv Hrun. injection Hrun as <- <-.
  split; [done|]. simpl in Hrun0. apply se_bind_inr_inv in Hrun0 as ([] & h1 & Hi & [=<-]).
  subst. unfold assign_one in Hi. apply se_bind_inr_inv in Hi as (ks & h2 & Hk & Hi).
  unfold js_keys, se_bind, js_load in Hk. rewrite Hlo in Hk. injection Hk as <- <-.
  rewrite <- (heap_upd_same h n _ Hn) in Hi. by apply assign_keys_loop in Hi.
Qed.
End AssignFresh.

Lemma copy_props_vals ps ks acc v :
  v ∈ map snd (copy_props ps ks acc) -> v ∈ map snd acc \/ v ∈ map snd ps \/ v = VUndef.
Proof.
  revert acc. induction ks as [|k ks IH]; intros acc; simpl; [by left|].
  intros Hv. destruct (IH _ Hv) as [Hput|?]; [|by right].
  apply alist_put_vals in Hput as [->|?]; [|by left].
  destruct (alist_get k ps) eqn:Hk; simpl; [|by right; right].
  right; left. by eapply alist_get_Some_val.
Qed.

(** ** Allocation and update keep an object unreferenced *)

Lemma same_props_obj h h' l o :
  same_props h h' -> obj_at h l = Some o ->
  exists pr, obj_at h' l = Some (mkObj (o_class o) (o_props o) pr).
Proof.
  intros [_ Hs] Ho. specialize (Hs l). rewrite Ho in Hs.
  destruct (obj_at h' l) as [[c ps pr]|]; [|done]. destruct Hs as [Hc Hp].
  simpl in *. subst. by exists pr.
Qed.

Lemma js_create_null_inv h v h' :
  js_create_null h = inr (v, h') ->
  v = VRef (h_next h) /\ h' = mkHeap (<[h_next h := mkObj OPlain [] None]> (h_cells h)) (S (h_next h)).
Proof. by intros [=<- <-]. Qed.

Lemma unreferenced_alloc h n o :
  unreferenced h n -> VRef n ∉ obj_vals o ->
  unreferenced (mkHeap (<[h_next h := o]> (h_cells h)) (S (h_next h))) n.
Proof.
  intros Hu Ho l o'. rewrite obj_at_alloc. case_decide; [by intros [=<-]|]. apply Hu.
Qed.

Lemma unreferenced_upd h n l o :
  unreferenced h n -> VRef n ∉ obj_vals o -> unreferenced (heap_upd h l o) n.
Proof.
  intros Hu Ho m o'. rewrite obj_at_upd. case_decide; [by intros [=<-]|]. apply Hu.
Qed.

(** ** The lookup on one object, unfolded *)

(** The lookup that continues at an optional prototype. *)
Definition lookup_from (h : heap) (p : option loc) (k : string) (v : value) : Prop :=
  match p with Some q => lookup_rel h q k v | None => v = VUndef end.

Lemma lookup_rel_plain h n ps p k v :
  obj_at h n = Some (mkObj OPlain ps p) ->
  lookup_rel h n k v <->
  alist_get k ps = Some v \/ (alist_get k ps = None /\ lookup_from h p k v).
Proof.
  intros Hn. split.
  - inversion 1 as [? o ? ? Ho Hk|? o q ? ? Ho Hk Hp Hl|? o ? Ho Hk Hp]; subst;
      rewrite Hn in Ho; injection Ho as <-; simpl in *; [by left|right..].
    + split; [done|]. by rewrite Hp.
    + split; [done|]. by rewrite Hp.
  - intros [Hk|[Hk Hl]]; [by eapply lr_own|].
    destruct p as [q|]; simpl in Hl; [by eapply lr_inherit|subst; by eapply lr_absent].
Qed.

(** ** Assignments, seen from the objects *)

Lemma heap_wf_bounded h : heap_wf h -> bounded h.
Proof.
  intros Hwf l Hl. destruct (obj_at h l) eqn:Ho; [|done].
  pose proof (wf_bound h Hwf l ltac:(eauto)). lia.
Qed.

Lemma isObject_grows h h' v :
  grows h h' -> bounded h -> isObject h v = true -> isObject h' v = true.
Proof.
  intros Hg Hb. destruct v as [| | | | |l]; try done. unfold isObject.
  destruct (obj_at h l) as [o|] eqn:Ho; [|done]. destruct (Hg Hb) as (_ & _ & Hc).
  destruct (Hc l o Ho) as (o' & -> & Hcl). destruct o as [[] ? ?], o' as [[] ? ?]; done.
Qed.

(** [obj[k] = x] on a plain object makes [x] its own value at [k]... *)
Lemma js_set_own h l k x h' :
  isObject h (VRef l) = true -> js_set (VRef l) k x h = inr (tt, h') ->
  exists o, obj_at h' l = Some o /\ own_get o k = Some x.
Proof.
  intros Hobj Hrun. apply js_set_inv in Hrun as (l' & o & [=<-] & Ho & ->).
  unfold isObject in Hobj. rewrite Ho in Hobj. destruct o as [[] ps pr]; [|discriminate].
  eexists. rewrite obj_at_upd, decide_True by done. split; [done|].
  unfold own_get; simpl. by rewrite alist_get_put_eq.
Qed.

(** ... and leaves every other object as it was. *)
Lemma js_set_other h l k x h' m :
  js_set (VRef l) k x h = inr (tt, h') -> m <> l -> obj_at h' m = obj_at h m.
Proof.
  intros Hrun Hm. apply js_set_inv in Hrun as (l' & o & [=<-] & Ho & ->).
  by rewrite obj_at_upd, decide_False.
Qed.

Lemma js_assign_ret t srcs h r h' : js_assign t srcs h = inr (r, h') -> r = t.
Proof.
  unfold js_assign. intros Hrun.
  destruct t; try discriminate; apply se_bind_inr_inv in Hrun as (u & h1 & _ & Hr);
    unfold se_ret in Hr; congruence.
Qed.

(** ** Own keys and the tree of own values

    [own_tree h d v]: the objects reachable from [v] through own
    property values are at most [d] deep. *)

Lemma index_of_key_Some k items i j :
  j < length items -> k = pretty (i + j) -> is_Some (index_of_key k i items).
Proof.
  revert i j. induction items as [|x xs IH]; intros i j Hj Hk; simpl in *; [lia|].
  case_decide; [eauto|]. destruct j as [|j]; [rewrite Nat.add_0_r in Hk; done|].
  apply (IH (S i) j); [lia|]. by rewrite Hk, Nat.add_succ_r.
Qed.

Lemma own_keys_get o k : k ∈ own_keys o -> is_Some (own_get o k).
Proof.
  unfold own_keys, own_get. destruct (o_class o) as [|items].
  - intros Hk. destruct (alist_get k (o_props o)) eqn:Hg; [eauto|].
    by apply alist_get_None_notin in Hg.
  - intros Hk. case_decide; [eauto|].
    destruct (index_of_key k 0 items) eqn:Hi; [eauto|].
    apply elem_of_app in Hk as [Hk|Hk].
    + apply list_elem_of_fmap in Hk as (j & -> & Hj). apply elem_of_seq in Hj.
      destruct (index_of_key_Some (pretty j) items 0 j) as [? Hs]; [lia|done|congruence].
    + destruct (alist_get k (o_props o)) eqn:Hg; [eauto|].
      by apply alist_get_None_notin in Hg.
Qed.

Inductive own_tree (h : heap) : nat -> value -> Prop :=
| ot_leaf d v : (forall l, v = VRef l -> obj_at h l = None) -> own_tree h d v
| ot_node d l o : obj_at h l = Some o -> (forall v, v ∈ obj_vals o -> own_tree h d v) ->
    own_tree h (S d) (VRef l).

Lemma own_tree_same_props h h' d v : same_props h h' -> own_tree h d v -> own_tree h' d v.
Proof.
  intros Hs. induction 1 as [d v Hv|d l o Ho Hvs IH].
  - apply ot_leaf. intros l ->. specialize (Hv l eq_refl). destruct Hs as [_ Hs].
    specialize (Hs l). rewrite Hv in Hs. by destruct (obj_at h' l).
  - destruct (same_props_obj h h' l o Hs Ho) as [pr Ho']. eapply ot_node; [exact Ho'|].
    intros v Hv. apply IH. unfold obj_vals in *. done.
Qed.

(** The own value at an own key of a node is a subtree. *)
Lemma own_tree_child h d l o k :
  own_tree h (S d) (VRef l) -> obj_at h l = Some o -> k ∈ own_keys o ->
  own_tree h d (js_get_loc h l k).
Proof.
  intros Ht Ho Hk. destruct (own_keys_get o k Hk) as [v Hv].
  rewrite (js_get_loc_own _ _ _ _ _ Ho Hv).
  inversion Ht as [? ? Hleaf|? ? o' Ho' Hvs]; subst; [by rewrite Hleaf in Ho|].
  rewrite Ho in Ho'. injection Ho' as <-.
  destruct (own_get_vals o k v Hv) as [Hin|[z ->]]; [by apply Hvs|].
  by apply ot_leaf.
Qed.

Fixpoint own_tree_b (h : heap) (d : nat) (v : value) : bool :=
  match v with
  | VRef l =>
      match obj_at h l with
      | None => true
      | Some o => match d with 0 => false | S d' => forallb (own_tree_b h d') (obj_vals o) end
      end
  | _ => true
  end.

Lemma own_tree_b_sound h d v : own_tree_b h d v = true -> own_tree h d v.
Proof.
  revert v. induction d as [|d IH]; intros v; simpl.
  - destruct v; try (intros _; by apply ot_leaf).
    destruct (obj_at h l) eqn:Ho; [done|]. intros _. apply ot_leaf. by intros ? [=<-].
  - destruct v; try (intros _; by apply ot_leaf).
    destruct (obj_at h l) as [o|] eqn:Ho; [|intros _; apply ot_leaf; by intros ? [=<-]].
    intros Hall. eapply ot_node; [done|]. intros v Hv. apply IH.
    rewrite forallb_forall in Hall. apply Hall. by apply list_elem_of_In.
Qed.

(** The runtime operations the threading uses fail with [TypeError]
    only. *)
Lemma js_setPrototypeOf_not_range v p h : js_setPrototypeOf v p h <> inl RangeError.
Proof.
  unfold js_setPrototypeOf, se_bind, js_load.
  destruct v, p; try discriminate; destruct (obj_at h _); try discriminate;
    repeat case_decide; discriminate.
Qed.

Lemma js_keys_not_range v h : js_keys v h <> inl RangeError.
Proof. unfold js_keys, se_bind, js_load. destruct v; try discriminate. by destruct (obj_at h l). Qed.

Lemma same_props_own_keys h h' l o o' :
  same_props h h' -> obj_at h l = Some o -> obj_at h' l = Some o' -> own_keys o' = own_keys o.
Proof.
  intros [_ Hs] Ho Ho'. specialize (Hs l). rewrite Ho, Ho' in Hs. destruct Hs as [Hc Hp].
  unfold own_keys. by rewrite Hc, Hp.
Qed.

(** Reading a property of a truthy value never throws. *)
Lemma js_get_truthy v k h : js_truthy v = true -> js_get v k h = inr (path_get h v k, h).
Proof. by destruct v. Qed.

Lemma js_keys_ref h l o : obj_at h l = Some o -> js_keys (VRef l) h = inr (own_keys o, h).
Proof. intros Ho. unfold js_keys, se_bind, js_load. by rewrite Ho. Qed.

Lemma js_getPrototypeOf_ref h l o :
  obj_at h l = Some o ->
  js_getPrototypeOf (VRef l) h =
    inr (match o_proto o with Some p => VRef p | None => VNull end, h).
Proof. intros Ho. unfold js_getPrototypeOf, se_bind, js_load. by rewrite Ho. Qed.
