(* ===== verification/JsHoare.v ===== *)
(** * Hoare triples over the heap

    [hoare P m Q]: every successful run of [m] from a heap satisfying
    [P] ends in a heap satisfying [Q] of its result.  The assertion the
    configuration code is verified against is [W vs]: the heap is well
    formed ([heap_wf]: finite acyclic prototype chains, no dangling
    reference) and the values [vs] the code holds are closed in it.
    Every runtime operation keeps [W vs] provided what it stores (a
    property value, a prototype) is one of the values held; reads add
    what they read to the values held.  The rules of this file compose
    these facts through [let*], conditionals and loops. *)

From S2P Require Import Prelude JsObject JsLogic.

Local Open Scope se_scope.

Definition hoare {A} (P : heap -> Prop) (m : JS A) (Q : A -> heap -> Prop) : Prop :=
  forall h a h', P h -> m h = inr (a, h') -> Q a h'.

Definition W (vs : list value) (h : heap) : Prop := heap_wf h /\ Forall (val_ok h) vs.

(** ** The rules *)

Section Rules.

Lemma hoare_ret {A} (P : heap -> Prop) (Q : A -> heap -> Prop) a :
  (forall h, P h -> Q a h) -> hoare P (se_ret a) Q.
Proof. intros HQ h b h' HP [=<- <-]. auto. Qed.

Lemma hoare_throw {A} P (Q : A -> heap -> Prop) e : hoare P (se_throw e) Q.
Proof. discriminate. Qed.

Lemma hoare_bind {A B} P (R : A -> heap -> Prop) (Q : B -> heap -> Prop) m k :
  hoare P m R -> (forall a, hoare (R a) (k a) Q) -> hoare P (se_bind m k) Q.
Proof.
  intros Hm Hk h b h'' HP Hrun. apply se_bind_inr_inv in Hrun as (a & h' & H1 & H2).
  eapply Hk; [eapply Hm|]; eauto.
Qed.

Lemma hoare_conseq {A} (P P' : heap -> Prop) (Q Q' : A -> heap -> Prop) m :
  (forall h, P h -> P' h) -> hoare P' m Q' -> (forall a h, Q' a h -> Q a h) -> hoare P m Q.
Proof. intros HP Hm HQ h a h' Hh Hrun. eauto. Qed.

Lemma hoare_iter {A} (I : heap -> Prop) (f : A -> JS unit) xs :
  (forall x, x ∈ xs -> hoare I (f x) (fun _ => I)) -> hoare I (se_iter f xs) (fun _ => I).
Proof.
  intros Hf h [] h' HI Hrun. eapply (se_iter_invariant I f xs h h'); [|done|done].
  intros x s1 s2 Hx H1 H2. by eapply Hf.
Qed.

Lemma hoare_foldl {A B} (I : B -> heap -> Prop) (f : B -> A -> JS B) b xs :
  (forall b x, x ∈ xs -> hoare (I b) (f b x) I) -> hoare (I b) (se_foldl f b xs) I.
Proof.
  revert b. induction xs as [|x xs IH]; intros b Hf; simpl; [by apply hoare_ret|].
  eapply hoare_bind; [apply Hf; left|intros b']. apply IH. intros. apply Hf. by right.
Qed.

Lemma hoare_dep {A} (P : heap -> Prop) (Q : A -> heap -> Prop) (f : heap -> JS A) :
  (forall h0, hoare (fun h => P h /\ h = h0) (f h0) Q) -> hoare P (fun h => f h h) Q.
Proof. intros Hf h a h' HP Hrun. eapply Hf; eauto. Qed.
End Rules.

(** ** The assertion [W] *)

Lemma W_mono vs vs' h : W vs h -> (forall x, x ∈ vs' -> x ∈ vs) -> W vs' h.
Proof.
  intros [Hwf Hvs] Hsub. split; [done|]. rewrite Forall_forall in *.
  intros x Hx. apply Hvs, Hsub, Hx.
Qed.

Lemma W_val vs h x : W vs h -> x ∈ vs -> val_ok h x.
Proof. intros [_ Hvs] Hx. rewrite Forall_forall in Hvs. apply Hvs, Hx. Qed.

Lemma W_cons vs h x : W vs h -> val_ok h x -> W (x :: vs) h.
Proof. intros [Hwf Hvs] Hx. split; [done|]. by constructor. Qed.

Lemma val_ok_grows h h' v : grows h h' -> bounded h -> val_ok h v -> val_ok h' v.
Proof.
  intros Hg Hb. destruct v as [| | | | |l]; try done. simpl. intros [o Ho].
  destruct (Hg Hb) as (_ & _ & Hc). destruct (Hc l o Ho) as (o' & -> & _). eauto.
Qed.

Lemma W_grows vs h h' : W vs h -> heap_wf h' -> grows h h' -> W vs h'.
Proof.
  intros [Hwf Hvs] Hwf' Hg. split; [done|]. eapply Forall_impl; [exact Hvs|].
  intros v. apply val_ok_grows; [done|by apply heap_wf_bounded].
Qed.

(** A value that is not a reference is closed in every heap. *)
Definition prim (v : value) : Prop := forall l, v <> VRef l.

Lemma val_ok_prim h v : prim v -> val_ok h v.
Proof. destruct v; try done. intros Hp. by destruct (Hp l). Qed.

(** A computation that keeps the heap well formed and only grows it
    keeps [W vs] for every [vs]. *)
Lemma hoare_W_frame {A} vs (m : JS A) (R : A -> heap -> Prop) :
  Pres grows m ->
  (forall h a h', heap_wf h -> Forall (val_ok h) vs -> m h = inr (a, h') -> heap_wf h' /\ R a h') ->
  hoare (W vs) m (fun a h => W vs h /\ R a h).
Proof.
  intros Hg Hm h a h' [Hwf Hvs] Hrun. destruct (Hm h a h' Hwf Hvs Hrun) as [Hwf' HR].
  split; [|done]. apply (W_grows vs h h'); [by split|done|exact (Hg h a h' Hrun)].
Qed.

(** ** Reads *)

Lemma path_get_closed h v k : heap_wf h -> val_ok h (path_get h v k).
Proof.
  intros Hwf. destruct v as [| | | | |l]; try done. simpl.
  destruct (obj_at h l) eqn:Hl; [apply js_get_loc_val_ok; eauto|].
  by unfold js_get_loc; simpl; rewrite Hl.
Qed.

(** A read-only computation adds what it returns to the values held. *)
Lemma hoare_read_val vs (m : JS value) :
  (forall h a h', m h = inr (a, h') -> h' = h /\ (heap_wf h -> val_ok h a)) ->
  hoare (W vs) m (fun a => W (a :: vs)).
Proof.
  intros Hm h a h' HW Hrun. destruct (Hm h a h' Hrun) as [-> Ha].
  apply W_cons; [done|]. apply Ha, HW.
Qed.

Lemma hoare_read {A} vs (m : JS A) :
  (forall h a h', m h = inr (a, h') -> h' = h) -> hoare (W vs) m (fun _ => W vs).
Proof. intros Hm h a h' HW Hrun. by rewrite (Hm h a h' Hrun). Qed.

Lemma hoare_get vs v k : hoare (W vs) (js_get v k) (fun c => W (c :: vs)).
Proof.
  apply hoare_read_val. intros h a h' Hrun. apply js_get_inv in Hrun as [-> ->].
  split; [done|]. apply path_get_closed.
Qed.

Lemma hoare_keys vs v : hoare (W vs) (js_keys v) (fun _ => W vs).
Proof. apply hoare_read. intros. symmetry. by eapply (Pres_keys eq). Qed.

Lemma hoare_hasOwn vs v k : hoare (W vs) (js_hasOwn v k) (fun _ => W vs).
Proof. apply hoare_read. intros. symmetry. by eapply (Pres_hasOwn eq). Qed.

Lemma hoare_isObject vs v : hoare (W vs) (js_isObject v) (fun _ => W vs).
Proof. apply hoare_read. intros. symmetry. by eapply (Pres_isObject eq). Qed.

(** The prototype of an object of a well-formed heap is an object. *)
Lemma proto_allocated h l o p :
  heap_wf h -> obj_at h l = Some o -> o_proto o = Some p -> is_Some (obj_at h p).
Proof.
  intros Hwf Ho Hp. destruct (wf_chain h Hwf l ltac:(eauto)) as [ls Hc].
  inversion Hc as [? o' Ho' Hp'|? o' p' ? Ho' Hp' Hc']; simplify_eq.
  inversion Hc'; eauto.
Qed.

Lemma hoare_getPrototypeOf vs v : hoare (W vs) (js_getPrototypeOf v) (fun r => W (r :: vs)).
Proof.
  apply hoare_read_val. intros h a h'. destruct v as [| | | | |l]; try discriminate;
    try (intros [=<- <-]; done).
  unfold js_getPrototypeOf, se_bind, js_load. destruct (obj_at h l) as [o|] eqn:Ho; [|done].
  intros [=<- <-]. split; [done|]. intros Hwf.
  destruct (o_proto o) eqn:Hp; [|done]. by eapply proto_allocated.
Qed.

Lemma hoare_array_items vs v :
  hoare (W vs) (js_array_items v) (fun items => W (items ++ vs)).
Proof.
  intros h items h' [Hwf Hvs]. destruct v as [| | | | |l]; try discriminate.
  unfold js_array_items, se_bind, js_load. destruct (obj_at h l) as [o|] eqn:Ho; [|done].
  destruct (o_class o) as [|xs] eqn:Hc; [done|]. intros [=<- <-].
  split; [done|]. apply Forall_app; split; [|done]. apply Forall_forall.
  intros x Hx. apply (wf_vals h Hwf l o x Ho). unfold obj_vals. rewrite Hc.
  apply elem_of_app; right. done.
Qed.

(** ** Writes *)

Lemma hoare_set vs v k x : x ∈ vs -> hoare (W vs) (js_set v k x) (fun _ => W vs).
Proof.
  intros Hx. eapply hoare_conseq; [done|apply (hoare_W_frame vs _ (fun _ _ => True))|naive_solver].
  - apply Pres_set_grows.
  - intros h [] h' Hwf Hvs Hrun. split; [|done]. eapply js_set_wf; [done| |done].
    by apply (W_val vs h x).
Qed.

Lemma hoare_set_prim vs v k x : prim x -> hoare (W vs) (js_set v k x) (fun _ => W vs).
Proof.
  intros Hx. eapply hoare_conseq; [|apply (hoare_set (x :: vs)); left|].
  - intros h HW. apply W_cons; [done|by apply val_ok_prim].
  - intros u h HW. eapply W_mono; [exact HW|set_solver].
Qed.

Lemma hoare_delete vs v k : hoare (W vs) (js_delete v k) (fun _ => W vs).
Proof.
  eapply hoare_conseq; [done|apply (hoare_W_frame vs _ (fun _ _ => True))|naive_solver].
  - apply Pres_delete_grows.
  - intros h [] h' Hwf _ Hrun. split; [|done]. by eapply js_delete_wf.
Qed.

Lemma hoare_setPrototypeOf vs v p :
  p ∈ vs -> hoare (W vs) (js_setPrototypeOf v p) (fun _ => W vs).
Proof.
  intros Hp. eapply hoare_conseq; [done|apply (hoare_W_frame vs _ (fun _ _ => True))|naive_solver].
  - apply Pres_setPrototypeOf_grows.
  - intros h [] h' Hwf Hvs Hrun. split; [|done]. eapply js_setPrototypeOf_wf; [done| |done].
    by apply (W_val vs h p).
Qed.

(** An object literal whose values are held. *)
Lemma hoare_object vs ps :
  (forall v, v ∈ map snd ps -> v ∈ vs) -> hoare (W vs) (js_object ps) (fun r => W (r :: vs)).
Proof.
  intros Hps h r h' [Hwf Hvs] Hrun. unfold js_object in Hrun.
  apply se_bind_inr_inv in Hrun as (l & h1 & Ha & [=<- <-]).
  pose proof (Pres_alloc_grows _ _ _ _ Ha) as Hg.
  apply js_alloc_wf in Ha as (Hwf1 & -> & Hl); [|done|done|].
  - apply W_cons; [apply (W_grows vs h h1); [by split|done|done]|]. simpl. eauto.
  - intros v Hv. unfold obj_vals in Hv. simpl in Hv. rewrite app_nil_r in Hv.
    apply (W_val vs); [by split|auto].
Qed.

Lemma hoare_create_null vs : hoare (W vs) js_create_null (fun r => W (r :: vs)).
Proof. apply (hoare_object vs []). set_solver. Qed.

Lemma hoare_array vs items :
  (forall v, v ∈ items -> v ∈ vs) -> hoare (W vs) (js_array items) (fun r => W (r :: vs)).
Proof.
  intros Hitems h r h' [Hwf Hvs] Hrun. unfold js_array in Hrun.
  apply se_bind_inr_inv in Hrun as (l & h1 & Ha & [=<- <-]).
  pose proof (Pres_alloc_grows _ _ _ _ Ha) as Hg.
  apply js_alloc_wf in Ha as (Hwf1 & -> & Hl); [|done|done|].
  - apply W_cons; [apply (W_grows vs h h1); [by split|done|done]|]. simpl. eauto.
  - intros v Hv. unfold obj_vals in Hv. simpl in Hv. apply (W_val vs); [by split|auto].
Qed.

Lemma hoare_ret_in vs a : a ∈ vs -> hoare (W vs) (se_ret a) (fun r => W (r :: vs)).
Proof. intros Ha. apply hoare_ret. intros h HW. apply W_cons; [done|by eapply W_val]. Qed.

Lemma hoare_ret_prim vs a : prim a -> hoare (W vs) (se_ret a) (fun r => W (r :: vs)).
Proof. intros Ha. apply hoare_ret. intros h HW. apply W_cons; [done|by apply val_ok_prim]. Qed.

Lemma hoare_lor vs a m :
  a ∈ vs -> hoare (W vs) m (fun r => W (r :: vs)) -> hoare (W vs) (js_lor a m) (fun r => W (r :: vs)).
Proof. intros Ha Hm. unfold js_lor. destruct (js_truthy a); [by apply hoare_ret_in|done]. Qed.

(** [Object.assign(target, ...sources)] copies values it reads. *)
Lemma hoare_assign vs t srcs :
  t ∈ vs -> hoare (W vs) (js_assign t srcs) (fun r => W (r :: vs)).
Proof.
  intros Ht. unfold js_assign.
  destruct t as [| | | | |l]; try apply hoare_throw;
  (eapply (hoare_bind _ (fun _ => W vs)); [|intros u; by apply hoare_ret_in]);
  apply hoare_iter; intros src _; unfold assign_one; destruct src; try (apply hoare_ret; done).
  all: first
    [ apply hoare_iter; intros i _; apply hoare_set_prim; intros l'; discriminate
    | eapply hoare_bind; [apply hoare_keys|intros ks]; apply hoare_iter; intros k _;
      eapply hoare_bind; [apply hoare_get|intros x];
      eapply hoare_conseq; [done|apply hoare_set; left|];
      intros u h HW; by eapply W_mono; [exact HW|set_solver] ].
Qed.

(** [v || {}] *)
Lemma hoare_or_empty vs v : v ∈ vs -> hoare (W vs) (js_or_empty v) (fun r => W (r :: vs)).
Proof. intros Hv. apply hoare_lor; [done|]. apply hoare_object. set_solver. Qed.

(** Weakening the values held at the end of a step. *)
Lemma hoare_weaken {A} vs vs' (m : JS A) :
  hoare (W vs) m (fun _ => W vs) -> (forall x, x ∈ vs' -> x ∈ vs) ->
  hoare (W vs) m (fun _ => W vs').
Proof. intros Hm Hsub. eapply hoare_conseq; [done|exact Hm|]. intros u h HW. eapply W_mono; [exact HW|exact Hsub]. Qed.

(** ** Stepping through a routine

    [hoare_step] takes one step of a goal [hoare (W vs) m Q]: a [let*]
    whose first computation is a runtime operation, a conditional, a
    loop over a list held in a variable, or the final return.  The side
    conditions that a stored value is held are closed by [set_solver]. *)
Ltac hoare_prim :=
  first [ apply hoare_get | apply hoare_keys | apply hoare_hasOwn | apply hoare_isObject
        | apply hoare_getPrototypeOf | apply hoare_array_items | apply hoare_create_null
        | apply hoare_delete
        | apply hoare_set; set_solver | apply hoare_setPrototypeOf; set_solver
        | apply hoare_object; set_solver | apply hoare_array; set_solver
        | apply hoare_assign; set_solver | apply hoare_or_empty; set_solver
        | apply hoare_ret_in; set_solver | apply hoare_throw ].

Ltac hoare_step :=
  match goal with
  | |- hoare ((fun _ => _) _) _ _ => cbv beta
  | |- hoare (W ?vs) (@se_bind _ _ value _ ?m ?k) _ =>
      eapply (hoare_bind _ (fun r => W (r :: vs)) _ m k); [|intros ?]
  | |- hoare (W ?vs) (@se_bind _ _ _ _ ?m ?k) _ =>
      eapply (hoare_bind _ (fun _ => W vs) _ m k); [|intros ?]
  | |- hoare _ (se_throw _) _ => apply hoare_throw
  | |- hoare (W _) (se_iter _ _) (fun _ => W _) => apply hoare_iter; intros ? ?
  | |- hoare (W _) (js_lor _ _) _ => apply hoare_lor; [set_solver|]
  | |- hoare _ (if ?b then _ else _) _ => destruct b
  | |- hoare (W _) (se_ret _) (fun _ => W _) =>
      apply hoare_ret; let HW := fresh "HW" in intros ? HW; eapply W_mono; [exact HW|set_solver]
  | |- hoare (W _) (se_ret _) _ => first [apply hoare_ret_in; set_solver | apply hoare_ret_prim]
  | |- hoare (W _) _ _ => hoare_prim
  end.
