(* ===== verification/Axis.v ===== *)
(** * The axis resolver of core.config.js

    [getIndexAxis], [getAxisFromDefaultScaleID],
    [getDefaultScaleIDFromAxis], [axisFromPosition] and [determineAxis]
    (src/src/core/core.config.js, lines 5-41).  Reads of option objects
    go through the prototype chains of the heap ([js_get]), [||] is
    [js_lor], [x || {}] allocates the literal as the code does.

    The theorems: [getIndexAxis] refines its precedence specification,
    each branch of [determineAxis] (reserved ids, the [axis] option, the
    position and first-character fallbacks, the [TypeError] on nullish
    options), its string typing under string-typed options, and the
    placeholder round trip. *)

From S2P Require Import Prelude JsObject JsLogic.
From Stdlib Require Import Ascii.

Local Open Scope se_scope.

(** ** Definitions *)

(** [getIndexAxis(type, optionsWithDefaults)]; [defaults] is the
    imported default registry. *)
Definition getIndexAxis (defaults type opts : value) : JS value :=
  let* td := js_get defaults (to_key type) in
  let* typeDefaults := js_or_empty td in
  let* dd := js_get typeDefaults "datasets" in
  let* datasetDefaults := js_or_empty dd in
  let* tyo := js_get opts (to_key type) in
  let* typeOptions := js_or_empty tyo in
  let* dso := js_get typeOptions "datasets" in
  let* datasetOptions := js_or_empty dso in
  let* a1 := js_get datasetOptions "indexAxis" in
  js_lor a1 (
    let* a2 := js_get opts "indexAxis" in
    js_lor a2 (
      let* a3 := js_get datasetDefaults "indexAxis" in
      js_lor a3 (se_ret (VStr "x")))).

Definition getAxisFromDefaultScaleID (id : string) (indexAxis : value) : value :=
  if decide (id = "_index_") then indexAxis
  else if decide (id = "_value_") then
    (if decide (indexAxis = VStr "x") then VStr "y" else VStr "x")
  else VStr id.

Definition getDefaultScaleIDFromAxis (axis indexAxis : value) : string :=
  if decide (axis = indexAxis) then "_index_" else "_value_".

Definition axisFromPosition (position : value) : value :=
  if decide (position = VStr "top" \/ position = VStr "bottom") then VStr "x"
  else if decide (position = VStr "left" \/ position = VStr "right") then VStr "y"
  else VUndef.

(** [String.prototype.toLowerCase] on ASCII letters. *)
Definition ascii_lower (c : ascii) : ascii :=
  let n := nat_of_ascii c in
  if decide (65 <= n <= 90)%nat then ascii_of_nat (n + 32) else c.

(** [id.charAt(0).toLowerCase()] *)
Definition first_char_lower (id : string) : string :=
  match id with
  | EmptyString => EmptyString
  | String c _ => String (ascii_lower c) EmptyString
  end.

Definition determineAxis (id : string) (scaleOptions : value) : JS value :=
  if decide (id = "x" \/ id = "y" \/ id = "r") then se_ret (VStr id)
  else
    let* a := js_get scaleOptions "axis" in
    js_lor a (
      let* p := js_get scaleOptions "position" in
      js_lor (axisFromPosition p) (se_ret (VStr (first_char_lower id)))).

(** ** The index axis specification *)

Fixpoint first_truthy (vs : list value) (d : value) : value :=
  match vs with
  | [] => d
  | v :: vs' => if js_truthy v then v else first_truthy vs' d
  end.

(** The precedence of section 4.1 of the spec: the per-type dataset
    options of the chart, the chart-level [indexAxis], the type's
    dataset defaults, then ['x']. *)
Definition index_axis_spec (h : heap) (d o : loc) (key : string) : value :=
  let dsOpts := path_get h (path_get h (VRef o) key) "datasets" in
  let dsDefs := path_get h (path_get h (VRef d) key) "datasets" in
  first_truthy [path_get h dsOpts "indexAxis"; js_get_loc h o "indexAxis";
                path_get h dsDefs "indexAxis"] (VStr "x").


(** [v || {}] followed by a read of a key reads [path_get]. *)
Lemma js_or_empty_spec h v :
  heap_wf h -> val_ok h v ->
  exists v' h', js_or_empty v h = inr (v', h') /\ heap_ext h h' /\ val_ok h' v' /\
    forall h'' k, heap_ext h' h'' -> js_get v' k h'' = inr (path_get h v k, h'').
Proof.
  intros Hwf Hv. unfold js_or_empty, js_lor.
  destruct (js_truthy v) eqn:Ht.
  - exists v, h. split_and!; eauto with chartjs.
    intros h'' k Hx. destruct v; simpl in *; try discriminate; try done.
    by rewrite (heap_ext_get h h'').
  - unfold js_object, se_bind.
    destruct (js_alloc_ext h (plain []) _ _ Hwf eq_refl ltac:(intros ?; unfold obj_vals; simpl; set_solver) eq_refl)
      as (Hext & Hl & _).
    eexists _, _. split_and!; [done|done|simpl; eauto|].
    intros h'' k [_ Hx]. rewrite js_get_ref. f_equal. f_equal.
    unfold js_get_loc, plain in *; simpl. apply Hx in Hl. rewrite Hl.
    destruct v; simpl in *; done.
Qed.

(** Lookups on old objects and reads through [|| {}] in one step. *)
Ltac or_empty_step Hwf :=
  match goal with
  | |- context [se_bind (js_or_empty ?v) _ ?h] =>
      let v' := fresh "v" in let h' := fresh "h" in let Hr := fresh "Hor" in
      let Hx := fresh "Hext" in let Hv := fresh "Hv" in let Hg := fresh "Hget" in
      destruct (js_or_empty_spec h v) as (v' & h' & Hr & Hx & Hv & Hg);
      [try done|eauto with chartjs|];
      rewrite (se_bind_inr _ _ _ _ _ Hr)
  end.

(** ** getIndexAxis *)

(** C6: [getIndexAxis] returns the first truthy
    of the chart's per-type dataset [indexAxis], the chart-level
    [indexAxis], the type's default dataset [indexAxis], else ['x'];
    it never throws and only allocates fresh empty literals. *)
Theorem getIndexAxis_precedence h d o ty :
  heap_wf h -> is_Some (obj_at h d) -> is_Some (obj_at h o) ->
  exists h', getIndexAxis (VRef d) ty (VRef o) h =
             inr (index_axis_spec h d o (to_key ty), h') /\ heap_ext h h'.
Proof.
  intros Hwf Hd Ho. unfold getIndexAxis, index_axis_spec. set (key := to_key ty).
  rewrite (se_bind_inr _ _ _ _ _ (js_get_ref h d key)).
  destruct (js_or_empty_spec h (js_get_loc h d key)) as (t1 & h1 & E1 & X1 & V1 & G1);
    [done|eauto with chartjs|].
  rewrite (se_bind_inr _ _ _ _ _ E1), (se_bind_inr _ _ _ _ _ (G1 h1 "datasets" (heap_ext_refl _ (proj1 X1)))).
  destruct (js_or_empty_spec h1 (path_get h (js_get_loc h d key) "datasets"))
    as (t2 & h2 & E2 & X2 & V2 & G2); [apply X1|eauto with chartjs|].
  pose proof (heap_ext_trans _ _ _ X1 X2) as X12.
  rewrite (se_bind_inr _ _ _ _ _ E2), (se_bind_inr _ _ _ _ _ (js_get_ref h2 o key)).
  rewrite (heap_ext_get h h2) by done.
  destruct (js_or_empty_spec h2 (js_get_loc h o key)) as (t3 & h3 & E3 & X3 & V3 & G3);
    [apply X2|eauto with chartjs|].
  rewrite (se_bind_inr _ _ _ _ _ E3), (se_bind_inr _ _ _ _ _ (G3 h3 "datasets" (heap_ext_refl _ (proj1 X3)))).
  rewrite (path_get_ext h h2) by eauto with chartjs.
  destruct (js_or_empty_spec h3 (path_get h (js_get_loc h o key) "datasets"))
    as (t4 & h4 & E4 & X4 & V4 & G4); [apply X3|eauto using heap_ext_trans with chartjs|].
  rewrite (se_bind_inr _ _ _ _ _ E4), (se_bind_inr _ _ _ _ _ (G4 h4 "indexAxis" (heap_ext_refl _ (proj1 X4)))).
  pose proof (heap_ext_trans _ _ _ X12 X3) as X13.
  rewrite (path_get_ext h h3) by eauto with chartjs.
  exists h4. split; [|eauto using heap_ext_trans]. unfold js_lor. simpl.
  destruct (js_truthy _); [done|].
  rewrite (se_bind_inr _ _ _ _ _ (js_get_ref h4 o "indexAxis")).
  pose proof (heap_ext_trans _ _ _ X13 X4) as X14.
  rewrite (heap_ext_get h h4) by done.
  destruct (js_truthy _); [done|].
  rewrite (se_bind_inr _ _ _ _ _ (G2 h4 "indexAxis" ltac:(eauto using heap_ext_trans))).
  rewrite (path_get_ext h h1) by eauto with chartjs.
  by destruct (js_truthy _).
Qed.

(** ** determineAxis *)

Definition reserved_id (id : string) : Prop := id = "x" \/ id = "y" \/ id = "r".

(** C7: the ids ['x'], ['y'], ['r'] are their own
    axis whatever the scale options are, even [null]: the options are not
    read and the heap is unchanged. *)
Theorem determineAxis_reserved id so h :
  reserved_id id -> determineAxis id so h = inr (VStr id, h).
Proof. intros Hr. unfold determineAxis. by rewrite decide_True. Qed.

Lemma determineAxis_unreserved id so :
  ~ reserved_id id ->
  determineAxis id so =
    (let* a := js_get so "axis" in
     js_lor a (let* p := js_get so "position" in
               js_lor (axisFromPosition p) (se_ret (VStr (first_char_lower id))))).
Proof. intros Hr. unfold determineAxis. by rewrite decide_False. Qed.

(** C8: for any other id, a truthy [axis]
    option, own or inherited through the prototype chain, is the axis. *)
Theorem determineAxis_axis_option id l h :
  ~ reserved_id id -> js_truthy (js_get_loc h l "axis") = true ->
  determineAxis id (VRef l) h = inr (js_get_loc h l "axis", h).
Proof.
  intros Hr Ha. unfold determineAxis. rewrite decide_False by done.
  rewrite (se_bind_inr _ _ _ _ _ (js_get_ref h l "axis")). unfold js_lor. by rewrite Ha.
Qed.

(** C14: with no truthy [axis] option, a [position]
    of ['top'] or ['bottom'] gives ['x'], ['left'] or ['right'] gives
    ['y'], and any other position the first character of the id,
    lower-cased (the empty string for the empty id). *)
Theorem determineAxis_position id l h :
  ~ reserved_id id -> js_truthy (js_get_loc h l "axis") = false ->
  let p := js_get_loc h l "position" in
  (p = VStr "top" \/ p = VStr "bottom" -> determineAxis id (VRef l) h = inr (VStr "x", h)) /\
  (p = VStr "left" \/ p = VStr "right" -> determineAxis id (VRef l) h = inr (VStr "y", h)) /\
  (axisFromPosition p = VUndef ->
     determineAxis id (VRef l) h = inr (VStr (first_char_lower id), h)).
Proof.
  intros Hr Ha p. rewrite determineAxis_unreserved by done.
  rewrite (se_bind_inr _ _ _ _ _ (js_get_ref h l "axis")). unfold js_lor. rewrite Ha.
  rewrite (se_bind_inr _ _ _ _ _ (js_get_ref h l "position")). fold p.
  split_and!; intros Hp; [unfold axisFromPosition..|by rewrite Hp].
  - by rewrite decide_True.
  - rewrite decide_False by (destruct Hp as [-> | ->]; intros [?|?]; discriminate).
    by rewrite decide_True.
Qed.

(** C16: for an id other than ['x'], ['y'],
    ['r'] whose options are [null] or [undefined] (a user writing
    [scales: {foo: null}]), [determineAxis] throws a [TypeError]. *)
Theorem determineAxis_nullish_throws id so h :
  ~ reserved_id id -> so = VUndef \/ so = VNull -> determineAxis id so h = inl TypeError.
Proof.
  intros Hr Hso. rewrite determineAxis_unreserved by done.
  by destruct Hso as [-> | ->].
Qed.

(** The value [axisFromPosition] gives is a string or [undefined]. *)
Lemma axisFromPosition_cases p :
  axisFromPosition p = VUndef \/ exists s, axisFromPosition p = VStr s.
Proof. unfold axisFromPosition. repeat case_decide; eauto. Qed.

(** C15: when the [axis] option of the scale options
    is a string whenever it is truthy, [determineAxis] returns, if it
    returns, a string and leaves the heap unchanged: the typing the spec
    (4.1) gives it ("always returns a string"), under the typing of the
    options it reads.  Without that hypothesis the option is returned as
    it is (C9). *)
Theorem determineAxis_string id so h r h' :
  (forall l, so = VRef l -> js_truthy (js_get_loc h l "axis") = true ->
     exists s, js_get_loc h l "axis" = VStr s) ->
  determineAxis id so h = inr (r, h') -> h' = h /\ exists s, r = VStr s.
Proof.
  intros Hax. unfold determineAxis. case_decide; [intros [=<- <-]; eauto|].
  assert (Hpos : forall p, (js_lor (axisFromPosition p) (se_ret (VStr (first_char_lower id)))) h
                           = inr (r, h') -> h' = h /\ exists s, r = VStr s).
  { intros p. unfold js_lor.
    destruct (axisFromPosition_cases p) as [-> | [s ->]]; cbn; [|case_bool_decide];
      intros [=<- <-]; eauto. }
  destruct so as [| | | | |l]; try discriminate; cbn [js_get]; unfold se_bind;
    try (apply Hpos). unfold js_lor at 1.
  destruct (js_truthy (js_get_loc h l "axis")) eqn:Ht.
  - intros [=<- <-]. split; [done|]. by apply (Hax l).
  - apply Hpos.
Qed.

(** ** The placeholder ids *)

(** C17: for the cartesian axes, [_index_]/[_value_]
    and the axis are inverse to each other under a chart index axis of
    ['x'] or ['y']. *)
Theorem placeholder_roundtrip a ia :
  a = "x" \/ a = "y" -> ia = "x" \/ ia = "y" ->
  getAxisFromDefaultScaleID (getDefaultScaleIDFromAxis (VStr a) (VStr ia)) (VStr ia) = VStr a /\
  forall p, p = "_index_" \/ p = "_value_" ->
  getDefaultScaleIDFromAxis (getAxisFromDefaultScaleID p (VStr ia)) (VStr ia) = p.
Proof.
  intros Ha Hia. split.
  - destruct Ha as [-> | ->], Hia as [-> | ->]; vm_compute; reflexivity.
  - intros p [-> | ->]; destruct Hia as [-> | ->]; vm_compute; reflexivity.
Qed.

(** C18: the radial axis ['r'] has no placeholder of its own: under any
    other index axis it is mapped to [_value_], which maps back to the
    cartesian axis that is not ['x'] when the index axis is ['x'], and to
    ['x'] under any other index axis, so never to ['r']. *)
Theorem placeholder_radial_roundtrip ia :
  ia <> VStr "r" ->
  getDefaultScaleIDFromAxis (VStr "r") ia = "_value_" /\
  getAxisFromDefaultScaleID (getDefaultScaleIDFromAxis (VStr "r") ia) ia =
    if decide (ia = VStr "x") then VStr "y" else VStr "x".
Proof.
  intros Hia. unfold getDefaultScaleIDFromAxis. rewrite decide_False by congruence.
  split; [done|]. unfold getAxisFromDefaultScaleID.
  rewrite decide_False by discriminate. by rewrite decide_True.
Qed.

(** ** Concrete runs *)

(** A default registry with a ['bar'] type whose dataset defaults set
    [indexAxis: 'y'], empty chart options, and some scale options. *)
Definition axis_heap : heap := heap_of [
  plain [("bar", VRef 1)];                         (* 0: defaults *)
  plain [("datasets", VRef 2)];                    (* 1: defaults.bar *)
  plain [("indexAxis", VStr "y")];                 (* 2: defaults.bar.datasets *)
  plain [];                                        (* 3: chart options *)
  plain [("position", VStr "left")];               (* 4 *)
  plain [];                                        (* 5 *)
  plain [("axis", VStr "r")];                      (* 6 *)
  mkObj OPlain [] (Some 6)                         (* 7: inherits axis 'r' *)
].

(** The examples of section 8 of the
    spec: [('x', {})] is ['x'], [('my-scale', {position: 'left'})] is
    ['y'], [('R', {})] is ['r'], [('custom', {})] is ['c']. *)
Lemma determineAxis_spec_examples :
  determineAxis "x" (VRef 5) axis_heap = inr (VStr "x", axis_heap) /\
  determineAxis "my-scale" (VRef 4) axis_heap = inr (VStr "y", axis_heap) /\
  determineAxis "R" (VRef 5) axis_heap = inr (VStr "r", axis_heap) /\
  determineAxis "custom" (VRef 5) axis_heap = inr (VStr "c", axis_heap).
Proof. split_and!; vm_compute; reflexivity. Qed.

Lemma axis_heap_wf : heap_wf axis_heap.
Proof. apply heap_wf_b_sound. vm_compute. reflexivity. Qed.

Lemma getIndexAxis_precedence_witness :
  index_axis_spec axis_heap 0 3 "bar" = VStr "y" /\
  exists h', getIndexAxis (VRef 0) (VStr "bar") (VRef 3) axis_heap =
             inr (index_axis_spec axis_heap 0 3 "bar", h') /\ heap_ext axis_heap h'.
Proof.
  split; [vm_compute; reflexivity|].
  apply getIndexAxis_precedence; [exact axis_heap_wf|vm_compute; eauto|vm_compute; eauto].
Defined.

Lemma not_reserved_foo : ~ reserved_id "foo".
Proof. unfold reserved_id. intros [H|[H|H]]; discriminate. Qed.

Lemma determineAxis_reserved_witness :
  determineAxis "x" VNull axis_heap = inr (VStr "x", axis_heap).
Proof. apply determineAxis_reserved. left. reflexivity. Defined.

Lemma determineAxis_axis_option_witness :
  determineAxis "foo" (VRef 7) axis_heap = inr (VStr "r", axis_heap).
Proof.
  apply (determineAxis_axis_option "foo" 7 axis_heap not_reserved_foo).
  vm_compute. reflexivity.
Defined.

Lemma determineAxis_position_witness :
  determineAxis "foo" (VRef 4) axis_heap = inr (VStr "y", axis_heap) /\
  determineAxis "foo" (VRef 5) axis_heap = inr (VStr "f", axis_heap).
Proof.
  split.
  - apply (proj1 (proj2 (determineAxis_position "foo" 4 axis_heap not_reserved_foo
                           ltac:(vm_compute; reflexivity)))).
    left. vm_compute. reflexivity.
  - apply (proj2 (proj2 (determineAxis_position "foo" 5 axis_heap not_reserved_foo
                           ltac:(vm_compute; reflexivity)))).
    vm_compute. reflexivity.
Defined.

Lemma determineAxis_string_witness :
  determineAxis "foo" (VRef 7) axis_heap = inr (VStr "r", axis_heap) /\
  (axis_heap = axis_heap /\ exists s, VStr "r" = VStr s).
Proof.
  assert (Hrun : determineAxis "foo" (VRef 7) axis_heap = inr (VStr "r", axis_heap))
    by (vm_compute; reflexivity).
  split; [exact Hrun|].
  apply (determineAxis_string "foo" (VRef 7) axis_heap); [|exact Hrun].
  intros l [=<-] _. exists "r". vm_compute. reflexivity.
Defined.


Lemma determineAxis_nullish_throws_witness :
  determineAxis "foo" VNull axis_heap = inl TypeError.
Proof. apply determineAxis_nullish_throws; [exact not_reserved_foo|right; reflexivity]. Defined.

Lemma placeholder_roundtrip_witness :
  getAxisFromDefaultScaleID (getDefaultScaleIDFromAxis (VStr "y") (VStr "x")) (VStr "x") = VStr "y".
Proof. apply (placeholder_roundtrip "y" "x"); [right|left]; reflexivity. Defined.

Lemma placeholder_radial_roundtrip_witness :
  getDefaultScaleIDFromAxis (VStr "r") (VStr "x") = "_value_" /\
  getAxisFromDefaultScaleID (getDefaultScaleIDFromAxis (VStr "r") (VStr "x")) (VStr "x") = VStr "y".
Proof. apply (placeholder_radial_roundtrip (VStr "x")). discriminate. Defined.

(** ** What the resolver does to the heap

    [getIndexAxis] only allocates the literals of [x || {}];
    [determineAxis] only reads. *)

Lemma getIndexAxis_grows defaults type opts : Pres grows (getIndexAxis defaults type opts).
Proof. unfold getIndexAxis. pres_split; auto with chartjs. Qed.

Lemma determineAxis_pres R `{!HeapPreorder R} id scaleOptions :
  Pres R (determineAxis id scaleOptions).
Proof. unfold determineAxis. pres_split. Qed.

#[export] Hint Resolve getIndexAxis_grows : chartjs.
