(* ===== verification/Config.v ===== *)
(** * The option inheritance engine and the Config class

    src/src/core/core.config.js, lines 43-225, over the heap of
    [JsObject].  The imported default registry [defaults] and the call
    depth [fuel] the JavaScript engine allows are the parameters of the
    section; every recursive function of the file consumes one unit of
    [fuel] per nested call and raises [RangeError] when it is exhausted,
    as the engine does on a stack overflow.

    - [directPropertyOrDefault], [recursiveSetPrototype],
      [recursiveChildObjects], [recursiveSetChildPrototypes],
      [includeDefaults], [includeScaleDefaults] and [initConfig] are the
      functions of the same name; the three loops of
      [includeScaleDefaults] are [scale_id_step], [dataset_scale_step]
      and [scale_defaults_step];
    - [Config] is the class: [config_new] its constructor, [config_type],
      [config_data], [config_set_data], [config_options],
      [config_plugins] its accessors, [config_update] its [update].

    The theorems: what [recursiveSetPrototype] changes (prototypes only,
    never an object nothing refers to), the lookup law of
    [includeDefaults], that [update] installs the scales computed from
    the configuration before the call, that no routine removes an object,
    that a call depth above the depth of the option tree is enough, that
    re-threading a structure already [threaded] changes nothing, the
    chain the [while] loop of [recursiveChildObjects] walks, and the
    line-chart runs of the spec on the fixture [line_heap], including a
    second [update] that re-threads the scale objects of the first in
    place. *)

From S2P Require Import Prelude JsObject JsLogic Axis.
From Stdlib Require Import Ascii.

Local Open Scope se_scope.

Definition starts_with_underscore (key : string) : bool :=
  match key with
  | String c _ => bool_decide (c = "_"%char)
  | EmptyString => false
  end.

(** [Map.prototype.get(k).push(v)] or [set(k, [v])]: a JavaScript [Map]
    from keys to lists keeps its keys in first-insertion order. *)
Definition map_push (k : string) (v : value) (m : list (string * list value))
  : list (string * list value) :=
  match alist_get k m with
  | Some vs => alist_put k (vs ++ [v]) m
  | None => alist_put k [v] m
  end.

Section Config.
Context (defaults : value) (fuel : nat).

Definition directPropertyOrDefault (obj : value) (prop : string) (def : value) : JS value :=
  let* b := js_hasOwn obj prop in
  if b then js_get obj prop else se_ret def.

(** The [forEach] callback of [recursiveSetPrototype] on one key of the
    child, [rec] being the recursive call. *)
Definition setPrototypeKey (rec : value -> value -> JS unit) (child parent : value)
    (key : string) : JS unit :=
  if starts_with_underscore key then se_ret tt
  else
    let* c := js_get child key in
    let* oc := js_isObject c in
    if oc then
      let* p := js_get parent key in
      let* op := js_isObject p in
      if op then
        let* c' := js_get child key in
        let* p' := js_get parent key in
        rec c' p'
      else se_ret tt
    else se_ret tt.

Fixpoint recursiveSetPrototype (n : nat) (child parent : value) : JS unit :=
  match n with
  | 0 => se_throw RangeError
  | S n' =>
      if negb (js_truthy child) || negb (js_truthy parent) || js_strict_eq child parent
      then se_ret tt
      else
        js_setPrototypeOf child parent ;;;
        let* keys := js_keys child in
        se_iter (setPrototypeKey (recursiveSetPrototype n') child parent) keys
  end.

(** The [while (obj)] loop of [recursiveChildObjects] over the
    prototype chain, collecting the object-valued own properties. *)
Fixpoint childObjectsLoop (n : nat) (obj : value) (props : list (string * list value))
  : JS (list (string * list value)) :=
  match n with
  | 0 => se_throw RangeError
  | S n' =>
      if negb (js_truthy obj) then se_ret props
      else
        let* keys := js_keys obj in
        let* props' := se_foldl (fun ps key =>
          let* v := js_get obj key in
          let* io := js_isObject v in
          if io then let* v' := js_get obj key in se_ret (map_push key v' ps)
          else se_ret ps) props keys in
        let* next := js_getPrototypeOf obj in
        childObjectsLoop n' next props'
  end.

Definition recursiveChildObjects (target : value) : JS (list (string * list value)) :=
  let* obj := js_getPrototypeOf target in
  fun h => childObjectsLoop (S (h_next h)) obj [] h.

Fixpoint recursiveSetChildPrototypes (n : nat) (target : value) : JS unit :=
  match n with
  | 0 => se_throw RangeError
  | S n' =>
      let* m := recursiveChildObjects target in
      se_iter (fun '(key, chain) =>
        let* fresh := js_create_null in
        let* child := directPropertyOrDefault target key fresh in
        let* cur := js_get target key in
        (if js_strict_eq cur child then se_ret tt else js_set target key child) ;;;
        let* _ := se_foldl (fun c parent =>
                    js_setPrototypeOf c parent ;;; se_ret parent) child chain in
        let* sub := js_get target key in
        recursiveSetChildPrototypes n' sub) m
  end.

Definition includeDefaults (options type : value) : JS value :=
  let* typeDefaults := js_get defaults (to_key type) in
  let* parent :=
    if js_truthy typeDefaults then
      let* ds := js_get typeDefaults "datasets" in
      let* io := js_isObject ds in
      let* p := if io then
                  let* ds1 := js_get typeDefaults "datasets" in
                  js_setPrototypeOf ds1 defaults ;;;
                  js_get typeDefaults "datasets"
                else se_ret defaults in
      recursiveSetPrototype fuel typeDefaults p ;;;
      se_ret typeDefaults
    else se_ret defaults in
  let* o := js_create_null in
  let* newOpts := js_assign o [options] in
  recursiveSetPrototype fuel newOpts parent ;;;
  se_ret newOpts.

(** The first loop of [includeScaleDefaults] (lines 56-71): for every
    explicit scale id other than the placeholders, its axis, its
    placeholder parent, its [_parent] mark and the first id per axis. *)
Definition scale_id_step (configScales chartIndexAxis firstIDs scales : value)
    (id : string) : JS unit :=
  if decide (id = "_index_" \/ id = "_value_") then se_ret tt
  else
    let* scaleConf := js_get configScales id in
    let* axis := determineAxis id scaleConf in
    let defaultId := getDefaultScaleIDFromAxis axis chartIndexAxis in
    let* dc := js_get configScales defaultId in
    let* io := js_isObject dc in
    let* parent := if io then
                     let* p := js_get configScales defaultId in
                     js_setPrototypeOf scaleConf p ;;; se_ret p
                   else se_ret scaleConf in
    js_set scaleConf "_parent" parent ;;;
    let* f := js_get firstIDs (to_key axis) in
    let* first := js_lor f (se_ret (VStr id)) in
    js_set firstIDs (to_key axis) first ;;;
    js_set scales id scaleConf.

(** The inner loop of the second loop (lines 79-88): one default
    scale placeholder of a dataset's type. *)
Definition default_scale_step (dataset indexAxis defaultScaleOptions configScales
    firstIDs scales : value) (defaultID : string) : JS unit :=
  let axis := getAxisFromDefaultScaleID defaultID indexAxis in
  let* a := js_get dataset (to_key axis +:+ "AxisID") in
  let* id := js_lor a (let* f := js_get firstIDs (to_key axis) in js_lor f (se_ret axis)) in
  let* cur := js_get scales (to_key id) in
  let* tgt := js_lor cur js_create_null in
  let* axobj := js_object [("axis", axis)] in
  let* cs := js_get configScales (to_key id) in
  let* scale := js_assign tgt [axobj; cs] in
  js_set scales (to_key id) scale ;;;
  let* defaultScaleOpts := js_get defaultScaleOptions defaultID in
  let* io := js_isObject defaultScaleOpts in
  if io then
    let* sp := js_get scale "_parent" in
    if js_strict_eq defaultScaleOpts sp then se_ret tt
    else
      let* sp' := js_get scale "_parent" in
      let* c := js_lor sp' (se_ret scale) in
      recursiveSetPrototype fuel c defaultScaleOpts ;;;
      js_set scale "_parent" defaultScaleOpts
  else se_ret tt.

(** The second loop (lines 74-89): one dataset. *)
Definition dataset_scale_step (config optionsWithDefaults configScales firstIDs scales : value)
    (dataset : value) : JS unit :=
  let* dt := js_get dataset "type" in
  let* type := js_lor dt (js_get config "type") in
  let* dia := js_get dataset "indexAxis" in
  let* indexAxis := js_lor dia (getIndexAxis defaults type optionsWithDefaults) in
  let* td := js_get defaults (to_key type) in
  let* datasetDefaults := js_or_empty td in
  let* empty := js_object [] in
  let* defaultScaleOptions := directPropertyOrDefault datasetDefaults "scales" empty in
  let* dids := js_keys defaultScaleOptions in
  se_iter (default_scale_step dataset indexAxis defaultScaleOptions configScales
             firstIDs scales) dids.

(** [defaults.scales[scale.type]] *)
Definition scale_type_defaults (scale : value) : JS value :=
  let* ds := js_get defaults "scales" in
  let* st := js_get scale "type" in
  js_get ds (to_key st).

(** The third loop (lines 92-101): one resolved scale. *)
Definition scale_defaults_step (scales : value) (key : string) : JS unit :=
  let* scale := js_get scales key in
  let* sp := js_get scale "_parent" in
  let* target := js_lor sp (se_ret scale) in
  js_delete scale "_parent" ;;;
  let* st := js_get scale "type" in
  let* cond := if js_truthy st then
                 let* td := scale_type_defaults scale in se_ret (js_truthy td)
               else se_ret false in
  (if cond then
     let* td := scale_type_defaults scale in
     let* gen := js_get defaults "scale" in
     recursiveSetPrototype fuel td gen ;;;
     let* td' := scale_type_defaults scale in
     recursiveSetPrototype fuel target td'
   else se_ret tt) ;;;
  recursiveSetChildPrototypes fuel scale.

Definition includeScaleDefaults (config : value) : JS value :=
  let* optionsWithDefaults := js_get config "options" in
  let* empty := js_object [] in
  let* configScales := directPropertyOrDefault optionsWithDefaults "scales" empty in
  let* ty := js_get config "type" in
  let* chartIndexAxis := getIndexAxis defaults ty optionsWithDefaults in
  let* firstIDs := js_create_null in
  let* scales := js_create_null in
  let* ids := js_keys configScales in
  se_iter (scale_id_step configScales chartIndexAxis firstIDs scales) ids ;;;
  let* data := js_get config "data" in
  let* datasets := js_get data "datasets" in
  let* items := js_array_items datasets in
  se_iter (dataset_scale_step config optionsWithDefaults configScales firstIDs scales) items ;;;
  let* keys := js_keys scales in
  se_iter (scale_defaults_step scales) keys ;;;
  se_ret scales.

Definition initConfig (config0 : value) : JS value :=
  let* config := js_lor config0 (js_object []) in
  let* d := js_get config "data" in
  let* data := js_lor d (let* ds := js_array [] in
                         let* ls := js_array [] in
                         js_object [("datasets", ds); ("labels", ls)]) in
  js_set config "data" data ;;;
  let* dd := js_get data "datasets" in
  let* ds := js_lor dd (js_array []) in
  js_set data "datasets" ds ;;;
  let* dl := js_get data "labels" in
  let* ls := js_lor dl (js_array []) in
  js_set data "labels" ls ;;;
  let* o := js_get config "options" in
  let* t := js_get config "type" in
  let* newOpts := includeDefaults o t in
  js_set config "options" newOpts ;;;
  let* _ := includeScaleDefaults config in
  se_ret config.

(** ** The Config class *)

Record Config := mkConfig { _config : value }.

Definition config_new (config : value) : JS Config :=
  let* c := initConfig config in se_ret (mkConfig c).

Definition config_type (c : Config) : JS value := js_get (_config c) "type".
Definition config_data (c : Config) : JS value := js_get (_config c) "data".
Definition config_set_data (c : Config) (data : value) : JS unit :=
  js_set (_config c) "data" data.
Definition config_options (c : Config) : JS value := js_get (_config c) "options".
Definition config_plugins (c : Config) : JS value := js_get (_config c) "plugins".

Definition config_update (c : Config) (options : value) : JS unit :=
  let config := _config c in
  let* scaleConfig := includeScaleDefaults config in
  let* t := js_get config "type" in
  let* opts := includeDefaults options t in
  js_set opts "scales" scaleConfig ;;;
  js_set config "options" opts.
End Config.

(** The parent [includeDefaults] threads the new options onto: the
    type's defaults [defaults[type]] when they exist, else [defaults]. *)
Definition includeDefaults_parent (defaults : value) (h : heap) (type : value) : value :=
  let td := path_get h defaults (to_key type) in if js_truthy td then td else defaults.

(** What [recursiveChildObjects] collects, as a fold over a prototype
    chain: for every object of the chain, in order, its own keys whose
    value is a plain object, each pushed onto the list of its key. *)
Definition own_objects_step (h : heap) (props : list (string * list value)) (l : loc)
    : list (string * list value) :=
  match obj_at h l with
  | Some o =>
      fold_left (fun ps k => let v := js_get_loc h l k in
                             if isObject h v then map_push k v ps else ps) (own_keys o) props
  | None => props
  end.

Definition chain_objects (h : heap) (ls : list loc) : list (string * list value) :=
  fold_left (own_objects_step h) ls [].

(** The prototype a value stands for when installed with
    [Object.setPrototypeOf]. *)
Definition proto_of (p : value) : option loc :=
  match p with VRef q => Some q | _ => None end.

(** The fallback structure [recursiveSetPrototype child parent] builds,
    checked on a heap to depth [n]: unless the guards of the function
    return at once, [child] is an object whose prototype is [parent],
    and every own key of [child] that is not private and whose values
    in [child] and along [parent] are both plain objects is threaded
    one level deeper. *)
Fixpoint threaded (n : nat) (h : heap) (child parent : value) : bool :=
  match n with
  | 0 => false
  | S n' =>
      if negb (js_truthy child) || negb (js_truthy parent) || js_strict_eq child parent then true
      else match child, parent with
           | VRef l, VRef q =>
               match obj_at h l with
               | Some o =>
                   bool_decide (o_proto o = Some q) &&
                   forallb (fun k =>
                     starts_with_underscore k ||
                     negb (isObject h (path_get h child k) && isObject h (path_get h parent k)) ||
                     threaded n' h (path_get h child k) (path_get h parent k)) (own_keys o)
               | None => false
               end
           | _, _ => false
           end
  end.

(** ** A line chart, end to end

    A default registry in the shape of Chart.js's: [defaults.line]
    declares the placeholder scales [_index_] (a category scale) and
    [_value_] (a linear scale), [defaults.scales] holds the per-type
    scale defaults and [defaults.scale] the generic scale defaults with
    [ticks.color] and [gridLines.color].  The user configuration is
    [{type: 'line', data: {datasets: [{label: 'a'}]}, options: {}}]. *)
Definition line_heap : heap := heap_of [
  plain [("line", VRef 1); ("scales", VRef 4); ("scale", VRef 7);
         ("color", VStr "#666")];                                    (* 0 defaults *)
  plain [("scales", VRef 3)];                                        (* 1 defaults.line *)
  plain [];                                                          (* 2 *)
  plain [("_index_", VRef 5); ("_value_", VRef 6)];                  (* 3 line scales *)
  plain [("category", VRef 8); ("linear", VRef 9)];                  (* 4 defaults.scales *)
  plain [("type", VStr "category")];                                 (* 5 *)
  plain [("type", VStr "linear")];                                   (* 6 *)
  plain [("display", VBool true); ("ticks", VRef 10);
         ("gridLines", VRef 11)];                                    (* 7 defaults.scale *)
  plain [];                                                          (* 8 category *)
  plain [("beginAtZero", VBool false)];                              (* 9 linear *)
  plain [("color", VStr "#666")];                                    (* 10 scale.ticks *)
  plain [("color", VStr "rgba(0,0,0,0.1)")];                         (* 11 scale.gridLines *)
  plain [("type", VStr "line"); ("data", VRef 13); ("options", VRef 15)]; (* 12 config *)
  plain [("datasets", VRef 14)];                                     (* 13 data *)
  mkObj (OArray [VRef 16]) [] None;                                  (* 14 datasets *)
  plain [];                                                          (* 15 options *)
  plain [("label", VStr "a")]                                        (* 16 dataset *)
].

(** The call depth used for the concrete runs; they nest at most four
    calls deep. *)
Definition line_fuel : nat := 8.

(** [v.k1.k2...] read along a path, [undefined] off objects. *)
Fixpoint read_path (h : heap) (v : value) (ks : list string) : value :=
  match ks with
  | [] => v
  | k :: ks' => read_path h (path_get h v k) ks'
  end.

(** A registry with a [line] type whose dataset defaults set
    [spanGaps], and user options [{color: 'red', scales: {}}]. *)
Definition opts_heap : heap := heap_of [
  plain [("line", VRef 1); ("color", VStr "#666")];                  (* 0 defaults *)
  plain [("datasets", VRef 2); ("showLine", VBool true)];            (* 1 defaults.line *)
  plain [("spanGaps", VBool false)];                                 (* 2 defaults.line.datasets *)
  plain [("color", VStr "red"); ("scales", VRef 4)];                 (* 3 options *)
  plain []                                                           (* 4 options.scales *)
].

(** An object whose prototype holds [ticks] and [gridLines] objects. *)
Definition chain_heap : heap := heap_of [
  mkObj OPlain [("ticks", VRef 1)] (Some 2);                          (* 0 a scale *)
  plain [("color", VStr "red")];                                     (* 1 its ticks *)
  plain [("ticks", VRef 3); ("gridLines", VRef 4); ("display", VBool true)]; (* 2 defaults *)
  plain [("color", VStr "#666")];                                    (* 3 *)
  plain [("lineWidth", VNum 1)]                                      (* 4 *)
].

(** Constructing a [Config] for
    a line chart with one dataset and no scale options does not install
    the scales that [includeScaleDefaults] synthesizes: [initConfig]
    discards its result, so [options.scales] is still the line type's
    placeholder object and [options.scales.x] is undefined. *)
Example config_new_line_scales_not_installed :
  exists c h', config_new (VRef 0) line_fuel (VRef 12) line_heap = inr (c, h') /\
    read_path h' (_config c) ["options"; "scales"] = VRef 3 /\
    read_path h' (_config c) ["options"; "scales"; "x"] = VUndef /\
    read_path h' (_config c) ["options"; "scales"; "y"] = VUndef.
Proof. eexists _, _. split; [vm_compute; reflexivity|]. vm_compute. split_and!; reflexivity. Qed.

(** After [update] the line chart has the
    scales ['x'] and ['y'] with axes ['x'] and ['y'], the category and
    linear types of the line type's [_index_] and [_value_] defaults, and
    [ticks.color] and [gridLines.color] that fall through to the generic
    scale defaults. *)
Example config_update_line_scales :
  exists c h1 h2, config_new (VRef 0) line_fuel (VRef 12) line_heap = inr (c, h1) /\
    config_update (VRef 0) line_fuel c (VRef 15) h1 = inr (tt, h2) /\
    read_path h2 (_config c) ["options"; "scales"; "x"; "axis"] = VStr "x" /\
    read_path h2 (_config c) ["options"; "scales"; "y"; "axis"] = VStr "y" /\
    read_path h2 (_config c) ["options"; "scales"; "x"; "type"] = VStr "category" /\
    read_path h2 (_config c) ["options"; "scales"; "y"; "type"] = VStr "linear" /\
    read_path h2 (_config c) ["options"; "scales"; "x"; "ticks"; "color"] = VStr "#666" /\
    read_path h2 (_config c) ["options"; "scales"; "y"; "gridLines"; "color"]
      = VStr "rgba(0,0,0,0.1)".
Proof.
  eexists _, _, _. split; [vm_compute; reflexivity|].
  split; [vm_compute; reflexivity|]. vm_compute. split_and!; reflexivity.
Qed.

(** [update] re-threads the scale
    nodes of the previous [update] in place instead of rebuilding them.
    On the line chart, update, switch the dataset's [indexAxis] to ['y']
    and update again: [options.scales] is a new container, but its
    scales ['x'] and ['y'] are the same objects as before; they keep
    their axes, and the switch is applied to them: ['x'] is now the
    linear value scale (with the linear default [beginAtZero]) and ['y']
    the category index scale. *)
Example config_update_reuses_scales :
  exists c h1 h2 h2' h3, config_new (VRef 0) line_fuel (VRef 12) line_heap = inr (c, h1) /\
    config_update (VRef 0) line_fuel c (VRef 15) h1 = inr (tt, h2) /\
    js_set (VRef 16) "indexAxis" (VStr "y") h2 = inr (tt, h2') /\
    config_update (VRef 0) line_fuel c (VRef 15) h2' = inr (tt, h3) /\
    read_path h3 (_config c) ["options"; "scales"] <> read_path h2 (_config c) ["options"; "scales"] /\
    read_path h3 (_config c) ["options"; "scales"; "x"] = read_path h2 (_config c) ["options"; "scales"; "x"] /\
    read_path h3 (_config c) ["options"; "scales"; "y"] = read_path h2 (_config c) ["options"; "scales"; "y"] /\
    read_path h3 (_config c) ["options"; "scales"; "x"; "axis"] = VStr "x" /\
    read_path h3 (_config c) ["options"; "scales"; "y"; "axis"] = VStr "y" /\
    read_path h3 (_config c) ["options"; "scales"; "x"; "type"] = VStr "linear" /\
    read_path h3 (_config c) ["options"; "scales"; "y"; "type"] = VStr "category" /\
    read_path h3 (_config c) ["options"; "scales"; "x"; "beginAtZero"] = VBool false /\
    read_path h3 (_config c) ["options"; "scales"; "y"; "beginAtZero"] = VUndef.
Proof.
  eexists _, _, _, _, _.
  do 4 (split; [vm_compute; reflexivity|]).
  vm_compute. split; [discriminate|]. split_and!; reflexivity.
Qed.

(** ** What [recursiveSetPrototype] changes

    It changes prototypes and nothing else, and it leaves alone an
    object that nothing refers to, unless that object is the child it
    starts from. *)

Lemma setPrototypeKey_pres R `{!HeapPreorder R} rec child parent key :
  (forall c p, Pres R (rec c p)) -> Pres R (setPrototypeKey rec child parent key).
Proof. intros Hrec. unfold setPrototypeKey. pres_split. apply Hrec. Qed.

Lemma recursiveSetPrototype_same_props m c p :
  Pres same_props (recursiveSetPrototype m c p).
Proof.
  revert c p. induction m as [|m IH]; intros c p; simpl; pres_split;
    auto using Pres_setPrototypeOf_same_props, setPrototypeKey_pres with typeclass_instances.
Qed.

Lemma setPrototypeKey_frozen n rec child parent key :
  (forall c p, c <> VRef n -> Pres (frozen n) (rec c p)) ->
  Pres (frozen n) (setPrototypeKey rec child parent key).
Proof.
  intros Hrec. unfold setPrototypeKey.
  pres_split_using ltac:(apply Pres_get_frozen; intros ? ?). by apply Hrec.
Qed.

Lemma recursiveSetPrototype_frozen n m c p :
  c <> VRef n -> Pres (frozen n) (recursiveSetPrototype m c p).
Proof.
  revert c p. induction m as [|m IH]; intros c p Hc; simpl; [apply (Pres_throw (frozen n))|].
  destruct (_ || _); [apply (Pres_ret (frozen n))|].
  apply (Pres_bind (frozen n)); [by apply Pres_setPrototypeOf_frozen|intros _].
  pres_split. apply setPrototypeKey_frozen, IH.
Qed.

(** Threading a fresh object [n] onto [p] installs [p] as its prototype
    (when [p] is truthy) and leaves its properties as they were. *)
Lemma recursiveSetPrototype_child m n p o h h' :
  unreferenced h n -> p <> VRef n -> obj_at h n = Some o ->
  recursiveSetPrototype m (VRef n) p h = inr (tt, h') ->
  obj_at h' n = Some (match p with VRef q => set_proto o (Some q) | _ => o end).
Proof.
  intros Hu Hp Ho Hrun. destruct m as [|m]; [discriminate|].
  cbn [recursiveSetPrototype js_truthy negb orb] in Hrun. unfold js_strict_eq in Hrun.
  rewrite (bool_decide_eq_false_2 (VRef n = p)) in Hrun by congruence.
  destruct (js_truthy p) eqn:Ht; cbn [negb orb] in Hrun;
    [|injection Hrun as <-; destruct p; done].
  apply se_bind_inr_inv in Hrun as ([] & h1 & Hs & Hrest).
  destruct p as [| |?|?|?|q]; try discriminate; try (simpl in Hs; discriminate).
  apply (js_setPrototypeOf_ref_inv _ _ o) in Hs as ->; [|done].
  assert (Hu1 : unreferenced (heap_upd h n (set_proto o (Some q))) n)
    by (eapply unreferenced_same_props; [apply same_props_reproto|]; eauto).
  enough (Hf : frozen n (heap_upd h n (set_proto o (Some q))) h')
    by (destruct (Hf Hu1) as [_ ->]; by rewrite obj_at_upd, decide_True).
  revert Hrest. apply (Pres_bind (frozen n)); [apply (Pres_keys (frozen n))|intros ks].
  apply (Pres_iter (frozen n)); intros key. apply setPrototypeKey_frozen.
  intros c p' Hc. by apply recursiveSetPrototype_frozen.
Qed.

(** The first half of [includeDefaults] changes prototypes only, and
    yields the type's defaults when they are truthy, else [defaults]. *)
Lemma includeDefaults_parent_run defaults fuel td h parent h1 :
  (if js_truthy td then
     let* ds := js_get td "datasets" in
     let* io := js_isObject ds in
     let* p := if io then
                 let* ds1 := js_get td "datasets" in
                 js_setPrototypeOf ds1 defaults ;;;
                 js_get td "datasets"
               else se_ret defaults in
     recursiveSetPrototype fuel td p ;;;
     se_ret td
   else se_ret defaults) h = inr (parent, h1) ->
  same_props h h1 /\ parent = if js_truthy td then td else defaults.
Proof.
  intros Hrun. split.
  - eapply Pres_run; [|exact Hrun]. pres_split;
      auto using Pres_setPrototypeOf_same_props, recursiveSetPrototype_same_props.
  - destruct (js_truthy td); [|by injection Hrun as <-].
    se_inv Hrun. by injection Hrun as <-.
Qed.

(** The parent is a value of the heap, never the next object to be
    allocated. *)
Lemma includeDefaults_parent_fresh defaults h type :
  heap_wf h -> val_ok h defaults -> includeDefaults_parent defaults h type <> VRef (h_next h).
Proof.
  intros Hwf Hd. unfold includeDefaults_parent. case_match.
  - apply path_get_unref, (fresh_unreferenced h h Hwf), same_props_refl.
  - intros ->. pose proof (wf_bound h Hwf _ Hd). lia.
Qed.

(** C1: the lookup law of the threaded options
    (spec section 8).  [includeDefaults(options, type)] on a plain
    options object returns a new object, allocated by the call and so
    distinct from [options]; a key of the result reads the value
    [options] defines for it, and a key [options] does not define falls
    back to the lookup on the type's defaults [defaults[type]] when they
    are truthy, else on [defaults] (in the heap after the call, whose
    default chains the call itself has threaded). *)
Theorem includeDefaults_lookup defaults fuel type h lo ps pr r h' :
  heap_wf h -> val_ok h defaults -> obj_at h lo = Some (mkObj OPlain ps pr) ->
  includeDefaults defaults fuel (VRef lo) type h = inr (r, h') ->
  r = VRef (h_next h) /\ lo <> h_next h /\
  forall k v, lookup_rel h' (h_next h) k v <->
    alist_get k ps = Some v \/
    (alist_get k ps = None /\
     lookup_from h' (proto_of (includeDefaults_parent defaults h type)) k v).
Proof.
  intros Hwf Hd Hlo Hrun. unfold includeDefaults in Hrun.
  apply se_bind_inr_inv in Hrun as (td & h0 & Hg & Hrun). apply js_get_inv in Hg as [-> Htd].
  apply se_bind_inr_inv in Hrun as (parent & h1 & Hp & Hrun).
  apply includeDefaults_parent_run in Hp as [Hs1 Hpar].
  assert (Hpar' : parent = includeDefaults_parent defaults h type)
    by (unfold includeDefaults_parent; by rewrite <- Htd).
  clear Hpar Htd. se_inv Hrun.
  apply js_create_null_inv in Hrun0 as [-> ->].
  assert (Hlt : lo < h_next h) by (apply (wf_bound h Hwf); eauto).
  destruct (same_props_obj h h1 lo _ Hs1 Hlo) as [pr1 Hlo1]. simpl in Hlo1.
  pose proof (proj1 Hs1) as Hnext.
  set (h2 := mkHeap (<[h_next h1 := mkObj OPlain [] None]> (h_cells h1)) (S (h_next h1))) in *.
  assert (Hlo2 : obj_at h2 lo = Some (mkObj OPlain ps pr1))
    by (unfold h2; rewrite obj_at_alloc, decide_False by lia; done).
  apply (js_assign_plain_fresh h2 (h_next h1) lo ps pr1 ltac:(lia) Hlo2 []) in Hrun1 as [-> ->];
    [|by unfold h2; rewrite obj_at_alloc, decide_True].
  injection Hrun as <- <-. rewrite <- Hnext. split_and!; [done|lia|].
  enough (Hn : obj_at s1 (h_next h1) =
            Some (mkObj OPlain (copy_props ps (map fst ps) [])
                        (proto_of (includeDefaults_parent defaults h type))))
    by (intros k v; by rewrite (lookup_rel_plain _ _ _ _ _ _ Hn), copy_props_all).
  assert (Hu1 : unreferenced h1 (h_next h1)) by (eapply fresh_unreferenced; eauto).
  destruct a1.
  eapply (recursiveSetPrototype_child _ _ _ (mkObj OPlain (copy_props ps (map fst ps) []) None))
    in Hrun2 as ->.
  - rewrite <- Hpar'. by destruct parent.
  - apply unreferenced_upd; [apply unreferenced_alloc; [done|set_solver]|].
    unfold obj_vals; simpl. rewrite app_nil_r. intros Hin.
    destruct (copy_props_vals _ _ _ _ Hin) as [Hv|[Hv|Hv]]; [set_solver| |done].
    apply (Hu1 lo _ Hlo1). unfold obj_vals; simpl. set_solver.
  - rewrite Hpar', Hnext. by apply includeDefaults_parent_fresh.
  - by rewrite obj_at_upd, decide_True.
Qed.



(** ** The heap only grows

    No routine of core.config.js removes an object; the objects it
    creates are fresh. *)

Lemma recursiveSetPrototype_grows m c p : Pres grows (recursiveSetPrototype m c p).
Proof. eapply Pres_mono; [apply same_props_grows|apply recursiveSetPrototype_same_props]. Qed.

#[export] Hint Resolve recursiveSetPrototype_grows : chartjs.

Lemma directPropertyOrDefault_pres R `{!HeapPreorder R} obj prop def :
  Pres R (directPropertyOrDefault obj prop def).
Proof. unfold directPropertyOrDefault. pres_split. Qed.

Lemma childObjectsLoop_pres R `{!HeapPreorder R} m obj props :
  Pres R (childObjectsLoop m obj props).
Proof.
  revert obj props. induction m as [|m IH]; intros obj props; simpl; pres_split. apply IH.
Qed.

Lemma recursiveChildObjects_pres R `{!HeapPreorder R} target :
  Pres R (recursiveChildObjects target).
Proof.
  unfold recursiveChildObjects. apply (Pres_bind R); [apply (Pres_getPrototypeOf R)|intros obj].
  exact (Pres_dep R (fun h0 => childObjectsLoop (S (h_next h0)) obj [])
           (fun h0 => childObjectsLoop_pres R _ obj [])).
Qed.

Lemma recursiveSetChildPrototypes_grows m target :
  Pres grows (recursiveSetChildPrototypes m target).
Proof.
  revert target. induction m as [|m IH]; intros target; simpl; pres_split;
    auto using recursiveChildObjects_pres, directPropertyOrDefault_pres
      with chartjs typeclass_instances.
Qed.

#[export] Hint Resolve recursiveSetChildPrototypes_grows : chartjs.

Lemma includeDefaults_grows defaults fuel options type :
  Pres grows (includeDefaults defaults fuel options type).
Proof. unfold includeDefaults. pres_split; auto with chartjs. Qed.

Lemma includeScaleDefaults_grows defaults fuel config :
  Pres grows (includeScaleDefaults defaults fuel config).
Proof.
  unfold includeScaleDefaults, scale_id_step, dataset_scale_step, default_scale_step,
    scale_defaults_step, scale_type_defaults.
  pres_split; auto using directPropertyOrDefault_pres, determineAxis_pres
    with chartjs typeclass_instances.
Qed.

(** Whatever [options] is, [includeDefaults] returns the plain object it
    allocates first. *)
Lemma includeDefaults_result defaults fuel options type h r h' :
  bounded h -> includeDefaults defaults fuel options type h = inr (r, h') ->
  r = VRef (h_next h) /\ isObject h' r = true.
Proof.
  intros Hb Hrun. unfold includeDefaults in Hrun.
  apply se_bind_inr_inv in Hrun as (td & h0 & Hg0 & Hrun). apply js_get_inv in Hg0 as [-> _].
  apply se_bind_inr_inv in Hrun as (parent & h1 & Hp & Hrun).
  apply includeDefaults_parent_run in Hp as [Hs1 _]. se_inv Hrun.
  pose proof (Pres_assign_grows _ _ _ _ _ Hrun1) as Hg2.
  pose proof (recursiveSetPrototype_grows _ _ _ _ _ _ Hrun2) as Hg3.
  pose proof (same_props_grows _ _ Hs1 Hb) as [Hb1 _].
  apply js_create_null_inv in Hrun0 as [-> ->]. apply js_assign_ret in Hrun1 as ->.
  injection Hrun as <- <-. rewrite <- (proj1 Hs1). split; [done|].
  eapply isObject_grows; [apply (grows_trans _ _ _ Hg2 Hg3)|apply (Pres_alloc_grows _ h1 _ _ eq_refl Hb1)|].
  simpl. by rewrite obj_at_alloc, decide_True.
Qed.

(** C2: [update(options)] installs, as the
    [scales] of the options it sets on the configuration, the scales
    that [includeScaleDefaults] computes from the configuration as it
    was before the call, and the new [options] object is the one
    allocated by [includeDefaults] after that computation: the [scales]
    of the options passed in are never read. *)
Theorem config_update_installs defaults fuel c opts h h' :
  heap_wf h -> isObject h (_config c) = true ->
  config_update defaults fuel c opts h = inr (tt, h') ->
  exists sc h1, includeScaleDefaults defaults fuel (_config c) h = inr (sc, h1) /\
    read_path h' (_config c) ["options"] = VRef (h_next h1) /\
    read_path h' (_config c) ["options"; "scales"] = sc.
Proof.
  intros Hwf Hobj Hrun. pose proof (heap_wf_bounded h Hwf) as Hb.
  destruct (_config c) as [| | | | |lc] eqn:Hc; try discriminate.
  unfold config_update in Hrun. rewrite Hc in Hrun. se_inv Hrun.
  exists a, s. split; [done|].
  pose proof (includeScaleDefaults_grows _ _ _ _ _ _ Hrun0 Hb) as (Hb1 & N1 & _).
  pose proof (includeScaleDefaults_grows _ _ _ _ _ _ Hrun0) as Hg1.
  apply js_get_inv in Hrun1 as [-> _].
  pose proof (includeDefaults_grows _ _ _ _ _ _ _ Hrun2) as Hg2.
  apply includeDefaults_result in Hrun2 as [-> Hobj2]; [|done].
  pose proof (Pres_set_grows _ _ _ _ _ _ Hrun3) as Hg3.
  assert (Hlt : lc < h_next h) by (apply (wf_bound h Hwf); unfold isObject in Hobj; by case_match).
  assert (Hobj3 : isObject s2 (VRef lc) = true).
  { eapply isObject_grows; [eapply grows_trans; [eapply grows_trans; [exact Hg1|exact Hg2]|exact Hg3]|done|done]. }
  destruct a2. eapply js_set_own in Hrun3 as (o & Ho & Hown); [|done].
  pose proof Hrun as Hrun'. eapply js_set_own in Hrun as (oc & Hoc & Hownc); [|done].
  simpl. rewrite (js_get_loc_own _ _ _ _ _ Hoc Hownc). split; [done|].
  apply (js_get_loc_own _ _ _ o); [|done].
  rewrite (js_set_other _ _ _ _ _ _ Hrun'); [done|lia].
Qed.

(** ** Enough call depth

    The [forEach] callback of [recursiveSetPrototype], on a truthy child
    and parent, recurses exactly when both own values are plain objects. *)
Lemma setPrototypeKey_unfold rec child parent key h :
  js_truthy child = true -> js_truthy parent = true ->
  setPrototypeKey rec child parent key h =
    if starts_with_underscore key then inr (tt, h)
    else if isObject h (path_get h child key) && isObject h (path_get h parent key)
    then rec (path_get h child key) (path_get h parent key) h
    else inr (tt, h).
Proof.
  intros Hc Hp. unfold setPrototypeKey. destruct (starts_with_underscore key); [done|].
  unfold se_bind. rewrite !js_get_truthy by done. unfold js_isObject.
  destruct (isObject h (path_get h child key)); [|done]. simpl.
  rewrite js_get_truthy by done. destruct (isObject h (path_get h parent key)); [|done].
  by rewrite !js_get_truthy.
Qed.

(** One step of the key loop of [recursiveSetPrototype] on a child whose
    own-value tree is [S d] deep recurses on a tree [d] deep. *)
Lemma setPrototypeKey_child_tree h h1 d l o1 key h' c' :
  own_tree h (S d) (VRef l) -> obj_at h1 l = Some o1 -> same_props h h1 -> same_props h h' ->
  key ∈ own_keys o1 -> isObject h' (path_get h' (VRef l) key) = true ->
  c' = path_get h' (VRef l) key -> own_tree h' d c'.
Proof.
  intros Ht Ho1 Hs1 Hs' Hk _ ->. simpl.
  assert (Ht' : own_tree h' (S d) (VRef l)) by (by eapply own_tree_same_props).
  inversion Ht as [? ? Hleaf|? ? o Ho _]; subst.
  { pose proof (proj2 Hs1 l) as Hl. rewrite Hleaf, Ho1 in Hl by done. done. }
  destruct (same_props_obj h h' l o Hs' Ho) as [pr Ho'].
  eapply own_tree_child; [exact Ht'|exact Ho'|].
  rewrite (same_props_own_keys h h1 l o o1 Hs1 Ho Ho1) in Hk. by destruct o.
Qed.

(** C4: with a call depth larger than
    the depth of the child's tree of own object values,
    [recursiveSetPrototype] never overflows the stack: it may throw only
    the [TypeError] of a refused prototype. *)
Theorem recursiveSetPrototype_enough_fuel m d c p h :
  own_tree h d c -> d < m -> recursiveSetPrototype m c p h <> inl RangeError.
Proof.
  revert d c p h. induction m as [|m IH]; intros d c p h Ht Hd; [lia|].
  cbn [recursiveSetPrototype].
  destruct (js_truthy c) eqn:Hc; [|done]. destruct (js_truthy p) eqn:Hp; [|done].
  cbn [negb orb]. destruct (js_strict_eq c p); [done|].
  unfold se_bind. destruct (js_setPrototypeOf c p h) as [e|[[] h1]] eqn:Hs;
    [intros [=->]; by apply (js_setPrototypeOf_not_range c p h)|].
  pose proof (Pres_setPrototypeOf_same_props _ _ _ _ _ Hs) as Hs1.
  destruct (js_keys c h1) as [e|[ks h2]] eqn:Hk; [intros [=->]; by eapply js_keys_not_range|].
  apply (se_iter_not_err (same_props h)).
  - intros key h' Hkey Hs'. rewrite setPrototypeKey_unfold by done.
    destruct (starts_with_underscore key); [done|].
    destruct (isObject h' (path_get h' c key)) eqn:Hoc; [|done].
    destruct (isObject h' (path_get h' p key)); [|done]. simpl.
    destruct c as [| | | | |l]; try discriminate.
    unfold js_keys, se_bind, js_load in Hk. destruct (obj_at h1 l) as [o1|] eqn:Ho1; [|done].
    injection Hk as <- <-. inversion Ht as [? ? Hleaf|d' ? o Ho _]; subst.
    { pose proof (proj2 Hs1 l) as Hl. by rewrite Hleaf, Ho1 in Hl. }
    eapply (IH d'); [|lia]. by eapply (setPrototypeKey_child_tree h h1 d' l o1 key h').
  - intros key h' h'' _ Hs' Hrun. eapply same_props_trans; [exact Hs'|].
    eapply Pres_run; [|exact Hrun].
    apply setPrototypeKey_pres; [apply _|]. apply recursiveSetPrototype_same_props.
  - eapply same_props_trans; [exact Hs1|].
    eapply Pres_run; [apply (Pres_keys same_props)|exact Hk].
Qed.

(** C9: re-applying
    [recursiveSetPrototype] to a child already threaded onto its parent
    (to a depth within the call budget) adds no fallback edge and changes
    nothing: the run returns at once with the heap unchanged, the
    idempotence the spec (4.2, 8) requires of re-threading. *)
Theorem recursiveSetPrototype_idempotent n m c p h :
  threaded n h c p = true -> n <= m -> recursiveSetPrototype m c p h = inr (tt, h).
Proof.
  revert m c p h. induction n as [|n IH]; intros m c p h Hth Hn; [discriminate|].
  destruct m as [|m]; [lia|]. cbn [recursiveSetPrototype threaded] in *.
  destruct (negb (js_truthy c) || negb (js_truthy p) || js_strict_eq c p) eqn:Hg; [done|].
  destruct c as [| | | | |l]; try discriminate. destruct p as [| | | | |q]; try discriminate.
  destruct (obj_at h l) as [o|] eqn:Ho; [|discriminate].
  apply andb_true_iff in Hth as [Hpr Hall]. apply bool_decide_eq_true in Hpr.
  assert (Hs : js_setPrototypeOf (VRef l) (VRef q) h = inr (tt, h)).
  { unfold js_setPrototypeOf, se_bind, js_load. rewrite Ho. by rewrite decide_True. }
  rewrite (se_bind_inr _ _ _ _ _ Hs), (se_bind_inr _ _ _ _ _ (js_keys_ref h l o Ho)).
  apply se_iter_noop. intros k Hk. rewrite setPrototypeKey_unfold by done.
  rewrite forallb_forall in Hall. specialize (Hall k (proj1 (list_elem_of_In _ _) Hk)).
  destruct (starts_with_underscore k); [done|].
  destruct (isObject h (path_get h (VRef l) k) && isObject h (path_get h (VRef q) k)); [|done].
  apply IH; [done|lia].
Qed.

(** C10: [new Config(config)] with a truthy
    primitive [config] (a string, a non-zero number, [true]) throws a
    [TypeError], in every heap: [config || {}] keeps the primitive,
    reading [config.data] gives [undefined], and the assignment
    [config.data = ...] on a primitive throws in the module's strict
    mode.  The spec (4.3, 7) admits a raw configuration or none and
    describes no error. *)
Theorem config_new_primitive_throws defaults fuel config h :
  js_truthy config = true -> (forall l, config <> VRef l) ->
  config_new defaults fuel config h = inl TypeError.
Proof.
  intros Ht Hp. destruct config as [| |b|n|s|l]; try discriminate; [..|by destruct (Hp l)];
    unfold config_new, initConfig, js_lor; rewrite Ht; reflexivity.
Qed.

(** ** Instances of the general theorems *)

Lemma opts_heap_wf : heap_wf opts_heap.
Proof. apply heap_wf_b_sound. vm_compute. reflexivity. Qed.

Lemma line_heap_wf : heap_wf line_heap.
Proof. apply heap_wf_b_sound. vm_compute. reflexivity. Qed.

Lemma includeDefaults_lookup_witness :
  exists r h', includeDefaults (VRef 0) line_fuel (VRef 3) (VStr "line") opts_heap = inr (r, h') /\
    (r = VRef (h_next opts_heap) /\ 3 <> h_next opts_heap /\
     forall k v, lookup_rel h' (h_next opts_heap) k v <->
       alist_get k [("color", VStr "red"); ("scales", VRef 4)] = Some v \/
       (alist_get k [("color", VStr "red"); ("scales", VRef 4)] = None /\
        lookup_from h' (proto_of (includeDefaults_parent (VRef 0) opts_heap (VStr "line"))) k v)).
Proof.
  eexists _, _. split; [vm_compute; reflexivity|].
  eapply (includeDefaults_lookup _ line_fuel _ _ 3 _ None);
    [exact opts_heap_wf|vm_compute; eauto|reflexivity|vm_compute; reflexivity].
Defined.

Lemma config_update_installs_witness :
  exists c h1 h2, config_new (VRef 0) line_fuel (VRef 12) line_heap = inr (c, h1) /\
    config_update (VRef 0) line_fuel c (VRef 15) h1 = inr (tt, h2) /\
    (exists sc h3, includeScaleDefaults (VRef 0) line_fuel (_config c) h1 = inr (sc, h3) /\
       read_path h2 (_config c) ["options"] = VRef (h_next h3) /\
       read_path h2 (_config c) ["options"; "scales"] = sc).
Proof.
  eexists _, _, _. split; [vm_compute; reflexivity|]. split; [vm_compute; reflexivity|].
  eapply (config_update_installs (VRef 0) line_fuel _ (VRef 15));
    [apply heap_wf_b_sound; vm_compute; reflexivity|vm_compute; reflexivity|vm_compute; reflexivity].
Defined.

Lemma recursiveSetPrototype_enough_fuel_witness :
  own_tree line_heap 4 (VRef 12) /\ 4 < line_fuel /\
  recursiveSetPrototype line_fuel (VRef 12) (VRef 0) line_heap <> inl RangeError.
Proof.
  assert (Ht : own_tree line_heap 4 (VRef 12)) by (apply own_tree_b_sound; vm_compute; reflexivity).
  split; [exact Ht|]. split; [vm_compute; lia|].
  apply (recursiveSetPrototype_enough_fuel line_fuel 4); [exact Ht|vm_compute; lia].
Defined.

(** ** The walk of [recursiveChildObjects] *)

Lemma childObjects_key_step h q o props key :
  obj_at h q = Some o ->
  (let* v := js_get (VRef q) key in
   let* io := js_isObject v in
   if io then let* v' := js_get (VRef q) key in se_ret (map_push key v' props)
   else se_ret props) h =
  inr (let v := js_get_loc h q key in if isObject h v then map_push key v props else props, h).
Proof.
  intros Ho. unfold se_bind, js_get, js_isObject, se_ret. cbv beta iota zeta.
  by destruct (isObject h (js_get_loc h q key)).
Qed.

(** C5: on a well-formed heap the [while]
    loop of [recursiveChildObjects] ends within its bound (the chain of
    prototypes is finite and acyclic), changes nothing, and returns, key
    by key, the plain-object values of the own keys of the target's
    prototypes in chain order. *)
Theorem recursiveChildObjects_chain h t :
  heap_wf h -> is_Some (obj_at h t) ->
  exists ls, proto_chain h t (t :: ls) /\
    recursiveChildObjects (VRef t) h = inr (chain_objects h ls, h).
Proof.
  intros Hwf Ht. destruct (wf_chain h Hwf t Ht) as [lst Hc].
  destruct (proto_chain_head _ _ _ Hc) as [ls ->]. exists ls. split; [done|].
  unfold recursiveChildObjects.
  inversion Hc as [? o Ho Hp|? o p ? Ho Hp Hc']; subst;
    rewrite (se_bind_inr _ _ _ _ _ (js_getPrototypeOf_ref h t o Ho)), Hp; cbv beta; [done|].
  assert (Hloop : forall q ls' n props, proto_chain h q ls' -> length ls' < n ->
            childObjectsLoop n (VRef q) props h = inr (fold_left (own_objects_step h) ls' props, h)).
  { clear dependent t ls p o. intros q ls n props Hq. revert n props.
    induction Hq as [q o Ho Hp|q o p ls Ho Hp Hc IH];
      intros [|n] props Hn; simpl in Hn; try lia; cbn [childObjectsLoop js_truthy negb].
    all: rewrite (se_bind_inr _ _ _ _ _ (js_keys_ref h q o Ho)).
    all: rewrite (se_bind_inr _ _ _ _ _ (se_foldl_pure _ (fun ps k => let v := js_get_loc h q k in
           if isObject h v then map_push k v ps else ps) _ _ _
           (fun b x _ => childObjects_key_step h q o b x Ho))).
    all: rewrite (se_bind_inr _ _ _ _ _ (js_getPrototypeOf_ref h q o Ho)), Hp.
    all: assert (Hs : own_objects_step h props q = fold_left (fun ps k => let v := js_get_loc h q k in
           if isObject h v then map_push k v ps else ps) (own_keys o) props)
        by (unfold own_objects_step; by rewrite Ho).
    - destruct n as [|n]; [lia|]. cbn [childObjectsLoop js_truthy negb fold_left].
      unfold se_ret. by rewrite Hs.
    - rewrite IH by lia. cbn [fold_left]. by rewrite Hs. }
  apply Hloop; [done|]. pose proof (proto_chain_length h _ _ Hwf Hc). simpl in *. lia.
Qed.

Lemma recursiveChildObjects_chain_witness :
  (heap_wf chain_heap /\ is_Some (obj_at chain_heap 0)) /\
  exists ls, proto_chain chain_heap 0 (0 :: ls) /\
    recursiveChildObjects (VRef 0) chain_heap = inr (chain_objects chain_heap ls, chain_heap).
Proof.
  assert (Hwf : heap_wf chain_heap) by (apply heap_wf_b_sound; vm_compute; reflexivity).
  assert (Ht : is_Some (obj_at chain_heap 0)) by (vm_compute; eauto).
  split; [done|]. by apply recursiveChildObjects_chain.
Defined.

Lemma recursiveSetPrototype_idempotent_witness :
  exists r h', includeDefaults (VRef 0) line_fuel (VRef 3) (VStr "line") opts_heap = inr (r, h') /\
    threaded 3 h' r (VRef 1) = true /\ recursiveSetPrototype line_fuel r (VRef 1) h' = inr (tt, h').
Proof.
  do 2 eexists. split; [vm_compute; reflexivity|].
  match goal with |- threaded _ ?h ?r _ = _ /\ _ =>
    split; [vm_compute; reflexivity|];
    apply (recursiveSetPrototype_idempotent 3 line_fuel r (VRef 1) h);
      [vm_compute; reflexivity|unfold line_fuel; lia] end.
Defined.

Lemma config_new_primitive_throws_witness :
  config_new (VRef 0) line_fuel (VStr "line") line_heap = inl TypeError.
Proof. apply config_new_primitive_throws; [reflexivity|discriminate]. Defined.
