(* ===== verification/ConfigWf.v ===== *)
(** * The configuration code keeps the heap well formed

    The Hoare triples of [JsHoare] through every function of
    core.config.js: started in a well-formed heap with the values it is
    given closed in it, each function ends in a well-formed heap (every
    prototype chain finite and acyclic, no property or prototype
    referring to a missing object) and returns a closed value.  The
    cycle check of [Object.setPrototypeOf] is what keeps the chains
    acyclic; the theorems show that the code never stores a value it
    does not hold. *)

From S2P Require Import Prelude JsObject JsLogic JsHoare Axis Config.

Local Open Scope se_scope.

Lemma setPrototypeKey_W vs rec child parent key :
  (forall vs' c p, c ∈ vs' -> p ∈ vs' -> hoare (W vs') (rec c p) (fun _ => W vs')) ->
  hoare (W vs) (setPrototypeKey rec child parent key) (fun _ => W vs).
Proof.
  intros Hrec. unfold setPrototypeKey. repeat hoare_step.
  eapply hoare_weaken; [apply Hrec|]; set_solver.
Qed.

Lemma recursiveSetPrototype_W m vs c p :
  p ∈ vs -> hoare (W vs) (recursiveSetPrototype m c p) (fun _ => W vs).
Proof.
  revert vs c p. induction m as [|m IH]; intros vs c p Hp; simpl; repeat hoare_step.
  apply setPrototypeKey_W. intros. by apply IH.
Qed.

Lemma directPropertyOrDefault_W vs obj prop def :
  def ∈ vs -> hoare (W vs) (directPropertyOrDefault obj prop def) (fun r => W (r :: vs)).
Proof. intros Hd. unfold directPropertyOrDefault. repeat hoare_step. Qed.

(** The values collected by [recursiveChildObjects]. *)
Definition held (props : list (string * list value)) : list value := concat (map snd props).

Lemma elem_of_concat {A} (x : A) (ls : list (list A)) :
  x ∈ concat ls <-> exists l, x ∈ l /\ l ∈ ls.
Proof.
  induction ls as [|l ls IH]; simpl; [set_solver|].
  rewrite elem_of_app, IH. split; [intros [?|(l' & ? & ?)]; eauto; set_solver|].
  intros (l' & Hx & [->|?]%elem_of_cons); eauto.
Qed.

Lemma held_map_push k v ps x : x ∈ held (map_push k v ps) -> x = v \/ x ∈ held ps.
Proof.
  unfold held, map_push. intros Hx. apply elem_of_concat in Hx as (l & Hx & Hl).
  destruct (alist_get k ps) as [vs|] eqn:Hk;
    apply alist_put_vals in Hl as [->|Hl].
  - apply elem_of_app in Hx as [Hx|Hx]; [right|left; set_solver].
    apply elem_of_concat. exists vs. split; [done|]. by eapply alist_get_Some_val.
  - right. apply elem_of_concat. eauto.
  - left. set_solver.
  - right. apply elem_of_concat. eauto.
Qed.

Lemma childObjectsLoop_W m vs obj props :
  hoare (W (held props ++ vs)) (childObjectsLoop m obj props) (fun r => W (held r ++ vs)).
Proof.
  revert obj props. induction m as [|m IH]; intros obj props; simpl; [apply hoare_throw|].
  destruct (negb _); [apply hoare_ret; done|].
  eapply hoare_bind; [apply hoare_keys|intros keys].
  eapply (hoare_bind _ (fun ps => W (held ps ++ vs))); [|intros props'].
  - apply (hoare_foldl (fun ps => W (held ps ++ vs))). intros ps key _. repeat hoare_step.
    apply hoare_ret. intros h HW. eapply W_mono; [exact HW|].
    intros x [Hx|Hx]%elem_of_app; [apply held_map_push in Hx as [->|Hx]|]; set_solver.
  - eapply hoare_bind; [apply hoare_getPrototypeOf|intros next].
    eapply hoare_conseq; [|apply IH|done]. intros h HW. eapply W_mono; [exact HW|set_solver].
Qed.

Lemma recursiveChildObjects_W vs target :
  hoare (W vs) (recursiveChildObjects target) (fun r => W (held r ++ vs)).
Proof.
  unfold recursiveChildObjects. eapply hoare_bind; [apply hoare_getPrototypeOf|intros obj].
  apply (hoare_conseq _ (W (obj :: vs)) _ (fun r => W (held r ++ obj :: vs)));
    [done| |intros r h HW; eapply W_mono; [exact HW|set_solver]].
  refine (hoare_dep _ _ (fun h0 => childObjectsLoop (S (h_next h0)) obj []) _).
  intros h0. eapply hoare_conseq; [|apply (childObjectsLoop_W _ (obj :: vs) obj [])|done].
  intros h [HW _]. exact HW.
Qed.

Lemma held_chain key chain mp : (key, chain) ∈ mp -> forall x, x ∈ chain -> x ∈ held mp.
Proof.
  intros Hin x Hx. unfold held. apply elem_of_concat. exists chain. split; [done|].
  apply list_elem_of_fmap. by exists (key, chain).
Qed.

Lemma recursiveSetChildPrototypes_W m vs target :
  hoare (W vs) (recursiveSetChildPrototypes m target) (fun _ => W vs).
Proof.
  revert vs target. induction m as [|m IH]; intros vs target; simpl; [apply hoare_throw|].
  eapply hoare_bind; [apply recursiveChildObjects_W|intros mp].
  eapply hoare_conseq; [done|apply hoare_iter|intros u h HW; eapply W_mono; [exact HW|set_solver]].
  intros [key chain] Hin. pose proof (held_chain key chain mp Hin) as Hch.
  eapply hoare_bind; [apply (hoare_create_null (held mp ++ vs))|intros fresh].
  eapply hoare_bind; [apply (directPropertyOrDefault_W (fresh :: held mp ++ vs)); set_solver|intros child].
  repeat hoare_step.
  - match goal with |- hoare (W ?L) (se_foldl _ _ _) _ =>
      apply (hoare_conseq _ (W (child :: L)) _ (fun c => W (c :: L)));
        [intros h HW; eapply W_mono; [exact HW|set_solver]| |intros r h HW; exact HW];
      apply (hoare_foldl (fun c => W (c :: L))) end.
    intros c parent Hp. pose proof (Hch parent Hp).
    eapply hoare_bind; [apply hoare_setPrototypeOf; set_solver|intros u].
    apply hoare_ret. intros h HW. eapply W_mono; [exact HW|set_solver].
  - eapply hoare_weaken; [apply IH|set_solver].
Qed.

(** Dropping values held from the post-condition of a step that
    returns one. *)
Lemma hoare_shrink vs vs' (m : JS value) :
  hoare (W vs) m (fun r => W (r :: vs)) -> (forall x, x ∈ vs' -> x ∈ vs) ->
  hoare (W vs) m (fun r => W (r :: vs')).
Proof.
  intros Hm Hsub. eapply hoare_conseq; [done|exact Hm|].
  intros r h HW. eapply W_mono; [exact HW|set_solver].
Qed.

(** Holding one more value, closed in every heap the pre-condition
    admits. *)
Lemma hoare_hold {A} vs x (m : JS A) Q :
  (forall h, W vs h -> val_ok h x) -> hoare (W (x :: vs)) m Q -> hoare (W vs) m Q.
Proof. intros Hx Hm. eapply hoare_conseq; [|exact Hm|done]. intros h HW. by apply W_cons, Hx. Qed.

Lemma hoare_bind_items {B} vs v (k : list value -> JS B) Q :
  (forall items, hoare (W (items ++ vs)) (k items) Q) ->
  hoare (W vs) (let* items := js_array_items v in k items) Q.
Proof. intros Hk. eapply hoare_bind; [apply hoare_array_items|exact Hk]. Qed.

Lemma axisFromPosition_prim p : prim (axisFromPosition p).
Proof. unfold axisFromPosition. intros l. repeat case_decide; discriminate. Qed.

Ltac cfg_base :=
  first [ match goal with
          | |- hoare (W _) (se_bind (js_array_items _) _) _ => apply hoare_bind_items; intros ?
          end
        | hoare_step
        | apply recursiveSetPrototype_W; set_solver
        | apply recursiveSetChildPrototypes_W
        | apply directPropertyOrDefault_W; set_solver
        | apply axisFromPosition_prim
        | match goal with
          | |- prim _ => let l := fresh "l" in intros l; discriminate
          | |- hoare (W ?L) _ (fun r => W (r :: ?L')) =>
              assert_fails (unify L L'); apply (hoare_shrink L L'); [|set_solver]
          | |- hoare (W ?L) _ (fun _ => W ?L') =>
              assert_fails (unify L L'); apply (hoare_weaken L L'); [|set_solver]
          end ].

Lemma includeDefaults_W vs defaults fuel options type :
  defaults ∈ vs ->
  hoare (W vs) (includeDefaults defaults fuel options type) (fun r => W (r :: vs)).
Proof. intros Hd. unfold includeDefaults. repeat cfg_base. Qed.

(** ** The axis helpers of [core.config.js] *)

Lemma getIndexAxis_W vs defaults type opts :
  hoare (W vs) (getIndexAxis defaults type opts) (fun r => W (r :: vs)).
Proof. unfold getIndexAxis. repeat cfg_base. Qed.

Lemma determineAxis_W vs id s :
  hoare (W vs) (determineAxis id s) (fun r => W (r :: vs)).
Proof.
  unfold determineAxis. repeat cfg_base.
  unfold js_lor. destruct (js_truthy _); repeat cfg_base.
Qed.

Ltac cfg_step :=
  first [ cfg_base
        | apply getIndexAxis_W
        | apply determineAxis_W
        | apply includeDefaults_W; set_solver ].

(** ** The three loops of [includeScaleDefaults] *)

Lemma scale_id_step_W vs configScales chartIndexAxis firstIDs scales id :
  hoare (W vs) (scale_id_step configScales chartIndexAxis firstIDs scales id) (fun _ => W vs).
Proof. unfold scale_id_step. repeat cfg_step. Qed.

Lemma getAxisFromDefaultScaleID_cases id indexAxis :
  getAxisFromDefaultScaleID id indexAxis = indexAxis \/ prim (getAxisFromDefaultScaleID id indexAxis).
Proof. unfold getAxisFromDefaultScaleID. repeat case_decide; auto; right; intros l; discriminate. Qed.

Lemma default_scale_step_W vs fuel dataset indexAxis defaultScaleOptions configScales
    firstIDs scales defaultID :
  indexAxis ∈ vs ->
  hoare (W vs) (default_scale_step fuel dataset indexAxis defaultScaleOptions configScales
                  firstIDs scales defaultID) (fun _ => W vs).
Proof.
  intros Hi. unfold default_scale_step.
  apply (hoare_hold _ (getAxisFromDefaultScaleID defaultID indexAxis)).
  { intros h HW. destruct (getAxisFromDefaultScaleID_cases defaultID indexAxis) as [->|Hp];
      [by eapply W_val|by apply val_ok_prim]. }
  repeat cfg_step.
Qed.

Lemma dataset_scale_step_W vs defaults fuel config optionsWithDefaults configScales firstIDs
    scales dataset :
  hoare (W vs) (dataset_scale_step defaults fuel config optionsWithDefaults configScales firstIDs
                  scales dataset) (fun _ => W vs).
Proof.
  unfold dataset_scale_step. repeat cfg_step.
  apply default_scale_step_W. set_solver.
Qed.

Lemma scale_defaults_step_W vs defaults fuel scales key :
  hoare (W vs) (scale_defaults_step defaults fuel scales key) (fun _ => W vs).
Proof. unfold scale_defaults_step, scale_type_defaults. repeat cfg_step. Qed.

Lemma includeScaleDefaults_W vs defaults fuel config :
  hoare (W vs) (includeScaleDefaults defaults fuel config) (fun r => W (r :: vs)).
Proof.
  unfold includeScaleDefaults. repeat cfg_step.
  - apply scale_id_step_W.
  - apply dataset_scale_step_W.
  - apply scale_defaults_step_W.
Qed.

Lemma initConfig_W vs defaults fuel config :
  defaults ∈ vs -> config ∈ vs ->
  hoare (W vs) (initConfig defaults fuel config) (fun r => W (r :: vs)).
Proof.
  intros Hd Hc. unfold initConfig. repeat cfg_step.
  match goal with |- hoare (W ?L) (includeScaleDefaults _ _ _) _ =>
    apply (includeScaleDefaults_W L) end.
Qed.

Lemma config_update_W vs defaults fuel c options :
  defaults ∈ vs ->
  hoare (W vs) (config_update defaults fuel c options) (fun _ => W vs).
Proof.
  intros Hd. unfold config_update. repeat cfg_step.
  match goal with |- hoare (W ?L) (includeScaleDefaults _ _ _) _ =>
    apply (includeScaleDefaults_W L) end.
Qed.

(** ** The invariant of the whole configuration code *)

(** Building a configuration ([new Config(config)],
    that is [initConfig] with [includeDefaults] and
    [includeScaleDefaults]) from a well-formed heap in which the
    defaults and the user configuration are allocated ends, when it
    returns, in a well-formed heap: every prototype chain it installed
    is finite and acyclic and every reference stored is allocated, and
    the configuration object and the defaults are still allocated. *)
Lemma config_new_wf defaults fuel config h c h' :
  heap_wf h -> val_ok h defaults -> val_ok h config ->
  config_new defaults fuel config h = inr (c, h') ->
  heap_wf h' /\ val_ok h' (_config c) /\ val_ok h' defaults.
Proof.
  intros Hwf Hd Hc Hrun.
  assert (Hm : hoare (W [defaults; config]) (config_new defaults fuel config)
                 (fun c => W [_config c; defaults])).
  { unfold config_new. eapply hoare_bind; [apply initConfig_W; set_solver|intros r].
    apply hoare_ret. intros h1 HW. eapply W_mono; [exact HW|set_solver]. }
  destruct (Hm h c h' (conj Hwf (Forall_cons_2 _ _ _ Hd (Forall_cons_2 _ _ _ Hc (Forall_nil_2 _)))) Hrun)
    as [Hwf' Hvs].
  apply Forall_cons in Hvs as [Hc' Hvs]. apply Forall_cons in Hvs as [Hd' _]. done.
Qed.

(** [Config.update(options)] on a well-formed heap
    in which the defaults and the configuration object are allocated
    keeps the heap well formed and both allocated, whatever [options]
    is. *)
Lemma config_update_wf defaults fuel c options h u h' :
  heap_wf h -> val_ok h defaults -> val_ok h (_config c) ->
  config_update defaults fuel c options h = inr (u, h') ->
  heap_wf h' /\ val_ok h' (_config c) /\ val_ok h' defaults.
Proof.
  intros Hwf Hd Hc Hrun.
  destruct (config_update_W [_config c; defaults] defaults fuel c options ltac:(set_solver)
              h u h' (conj Hwf (Forall_cons_2 _ _ _ Hc (Forall_cons_2 _ _ _ Hd (Forall_nil_2 _)))) Hrun)
    as [Hwf' Hvs].
  apply Forall_cons in Hvs as [Hc' Hvs]. apply Forall_cons in Hvs as [Hd' _]. done.
Qed.
