(* ===== verification/Fixtures.v ===== *)
(** * The radar fixture of the test suite

    [src/test/fixtures/scale.radialLinear/anglelines-indexable.js]
    configures a radar chart whose single radial scale [r] sets
    indexable [angleLines] options (one colour and one line width per
    angle line) and turns grid lines on and point labels and ticks off.
    The fixture is the configuration object of that file, allocated
    after a default registry in the shape the spec describes (section
    6): [defaults.radar] with its per-type [scales.r], the scale-type
    defaults [defaults.scales.radialLinear] and the generic
    [defaults.scale].  The theorems run the [Config] constructor and
    [update] of [Config] on it. *)

From S2P Require Import Prelude JsObject JsLogic Axis Config.

(** The registry: locations 0 to 11. *)
Definition radar_defaults : list jsobj := [
  plain [("radar", VRef 1); ("scales", VRef 4); ("scale", VRef 7);
         ("color", VStr "#666")];                                    (* 0 defaults *)
  plain [("spanGaps", VBool false); ("scales", VRef 2)];             (* 1 defaults.radar *)
  plain [("r", VRef 3)];                                             (* 2 radar scales *)
  plain [("type", VStr "radialLinear")];                             (* 3 radar scales.r *)
  plain [("radialLinear", VRef 5)];                                  (* 4 defaults.scales *)
  plain [("display", VBool true); ("angleLines", VRef 6);
         ("pointLabels", VRef 10); ("gridLines", VRef 11)];          (* 5 radialLinear *)
  plain [("display", VBool true); ("color", VStr "rgba(0,0,0,0.1)");
         ("lineWidth", VNum 1)];                                     (* 6 its angleLines *)
  plain [("display", VBool true); ("gridLines", VRef 8); ("ticks", VRef 9)]; (* 7 defaults.scale *)
  plain [("display", VBool true); ("color", VStr "rgba(0,0,0,0.1)");
         ("lineWidth", VNum 1)];                                     (* 8 scale.gridLines *)
  plain [("display", VBool true); ("color", VStr "#666")];           (* 9 scale.ticks *)
  plain [("display", VBool true); ("fontSize", VNum 10)];            (* 10 its pointLabels *)
  plain [("circular", VBool false)]                                  (* 11 its gridLines *)
].

(** The [config] of the fixture file (lines 2-29): locations 12 to 23. *)
Definition anglelines_indexable : list jsobj := [
  plain [("type", VStr "radar"); ("data", VRef 13); ("options", VRef 15)]; (* 12 config *)
  plain [("labels", VRef 14)];                                       (* 13 data *)
  mkObj (OArray [VStr "A"; VStr "B"; VStr "C"; VStr "D"; VStr "E"]) [] None; (* 14 labels *)
  plain [("responsive", VBool false); ("legend", VBool false);
         ("title", VBool false); ("scales", VRef 16)];               (* 15 options *)
  plain [("r", VRef 17)];                                            (* 16 scales *)
  plain [("gridLines", VRef 18); ("angleLines", VRef 19);
         ("pointLabels", VRef 22); ("ticks", VRef 23)];              (* 17 scales.r *)
  plain [("display", VBool true)];                                   (* 18 gridLines *)
  plain [("color", VRef 20); ("lineWidth", VRef 21)];                (* 19 angleLines *)
  mkObj (OArray [VStr "red"; VStr "green"]) [] None;                 (* 20 *)
  mkObj (OArray [VNum 1; VNum 5]) [] None;                           (* 21 *)
  plain [("display", VBool false)];                                  (* 22 pointLabels *)
  plain [("display", VBool false)]                                   (* 23 ticks *)
].

Definition radar_heap : heap := heap_of (radar_defaults ++ anglelines_indexable).

(** The path of a key of the fixture's scale [r] from the configuration. *)
Definition radar_options_path (ks : list string) : list string := ["options"; "scales"; "r"] ++ ks.

(** The spec (4.2, step 4) threads
    the scale-type defaults as the ultimate fallback of a scale.  The
    code instead makes [defaults.scales[type]] the prototype of the
    scale itself when no placeholder parent was recorded, replacing the
    chart type's scale defaults that [includeDefaults] had installed.
    On the fixture, [includeDefaults] gives [scales.r] the type
    [radialLinear] of [defaults.radar.scales.r]; after the constructor
    the type is no longer found ([undefined]) while the [radialLinear]
    defaults ([display]) are; after [update] with the fixture's options
    the type is found again and the [radialLinear] default [display] is
    lost. *)
Example anglelines_indexable_type_flips :
  (exists r h1, includeDefaults (VRef 0) line_fuel (VRef 15) (VStr "radar") radar_heap = inr (r, h1) /\
     read_path h1 r ["scales"; "r"; "type"] = VStr "radialLinear") /\
  exists c h1 h2, config_new (VRef 0) line_fuel (VRef 12) radar_heap = inr (c, h1) /\
    read_path h1 (_config c) (radar_options_path ["type"]) = VUndef /\
    read_path h1 (_config c) (radar_options_path ["display"]) = VBool true /\
    config_update (VRef 0) line_fuel c (VRef 15) h1 = inr (tt, h2) /\
    read_path h2 (_config c) (radar_options_path ["type"]) = VStr "radialLinear" /\
    read_path h2 (_config c) (radar_options_path ["display"]) = VUndef.
Proof.
  split; [do 2 eexists|do 3 eexists]; repeat (split; [vm_compute; reflexivity|]);
    vm_compute; reflexivity.
Qed.

(** Constructing the [Config] of the
    fixture succeeds and resolves its radial scale as the test expects:
    the indexable [angleLines.color] and [angleLines.lineWidth] stay the
    fixture's own arrays, [angleLines.display] falls back to the
    [radialLinear] defaults, [gridLines.color] to the generic scale
    defaults through the radial [gridLines] defaults, the fixture's
    [ticks.display: false] overrides [ticks.display] while [ticks.color]
    is inherited; chart options fall back to [defaults.radar] and then
    to [defaults]; [data.labels] keeps its identity and
    [data.datasets] is a fresh empty array.  With no dataset the
    explicit scale [r] is given no [axis] key: only the dataset loop of
    [includeScaleDefaults] writes one. *)
Example anglelines_indexable_construct :
  exists c h', config_new (VRef 0) line_fuel (VRef 12) radar_heap = inr (c, h') /\
    _config c = VRef 12 /\
    read_path h' (VRef 12) (radar_options_path ["angleLines"; "color"]) = VRef 20 /\
    obj_at h' 20 = Some (mkObj (OArray [VStr "red"; VStr "green"]) [] None) /\
    read_path h' (VRef 12) (radar_options_path ["angleLines"; "lineWidth"]) = VRef 21 /\
    read_path h' (VRef 12) (radar_options_path ["angleLines"; "display"]) = VBool true /\
    read_path h' (VRef 12) (radar_options_path ["gridLines"; "display"]) = VBool true /\
    read_path h' (VRef 12) (radar_options_path ["gridLines"; "circular"]) = VBool false /\
    read_path h' (VRef 12) (radar_options_path ["gridLines"; "color"]) = VStr "rgba(0,0,0,0.1)" /\
    read_path h' (VRef 12) (radar_options_path ["ticks"; "display"]) = VBool false /\
    read_path h' (VRef 12) (radar_options_path ["ticks"; "color"]) = VStr "#666" /\
    read_path h' (VRef 12) (radar_options_path ["pointLabels"; "fontSize"]) = VNum 10 /\
    read_path h' (VRef 12) (radar_options_path ["axis"]) = VUndef /\
    read_path h' (VRef 12) ["options"; "responsive"] = VBool false /\
    read_path h' (VRef 12) ["options"; "spanGaps"] = VBool false /\
    read_path h' (VRef 12) ["options"; "color"] = VStr "#666" /\
    read_path h' (VRef 12) ["data"; "labels"] = VRef 14 /\
    (exists l, read_path h' (VRef 12) ["data"; "datasets"] = VRef l /\
               obj_at h' l = Some (mkObj (OArray []) [] None)).
Proof.
  do 2 eexists. repeat (split; [vm_compute; reflexivity|]).
  eexists. split; vm_compute; reflexivity.
Qed.
