(* ===== verification/ConfigRun.v ===== *)
(** * Runs of the Config facade that return

    The theorems of [Config] read runs backwards: given that a routine
    returned, what its result is.  This file proves runs forwards, on an
    arbitrary well-formed registry: that the routine returns, and with
    what.  Its subject is the boundary input of the constructor,
    [new Config()] with no configuration (spec 4.3, "given a raw config
    (or none)").

    [keeps h h'] says that [h'] leaves every object of [h] as it was and
    allocates above it; the code run here only allocates and writes the
    objects it allocated, so every heap of the run keeps the initial
    one, and reads of the registry give what they gave before. *)

From S2P Require Import Prelude JsObject JsLogic Axis Config.

Local Open Scope se_scope.

(** The heap after allocating [o]. *)
Definition halloc (h : heap) (o : jsobj) : heap :=
  mkHeap (<[h_next h := o]> (h_cells h)) (S (h_next h)).

Definition keeps (h h' : heap) : Prop :=
  (forall m, m < h_next h -> obj_at h' m = obj_at h m) /\ h_next h <= h_next h'.

(** ** The frame relation *)

Lemma keeps_refl h : keeps h h.
Proof. split; [done|lia]. Qed.

Lemma keeps_trans h1 h2 h3 : keeps h1 h2 -> keeps h2 h3 -> keeps h1 h3.
Proof.
  intros [H12 N12] [H23 N23]. split; [|lia].
  intros m Hm. rewrite H23 by lia. auto.
Qed.

Lemma obj_at_halloc h o m :
  obj_at (halloc h o) m = if decide (m = h_next h) then Some o else obj_at h m.
Proof. apply obj_at_alloc. Qed.

Lemma keeps_alloc h h1 o : keeps h h1 -> keeps h (halloc h1 o).
Proof.
  intros Hk. eapply keeps_trans; [exact Hk|]. split; [|simpl; lia].
  intros m Hm. rewrite obj_at_halloc, decide_False by lia. done.
Qed.

Lemma keeps_upd h h1 l o : keeps h h1 -> h_next h <= l -> keeps h (heap_upd h1 l o).
Proof.
  intros [Hk Hn] Hl. split; [|done].
  intros m Hm. rewrite obj_at_upd, decide_False by lia. auto.
Qed.

#[local] Hint Resolve keeps_refl keeps_alloc keeps_upd : chartjs.

(** ** Reads *)

(** A read on an object of the kept heap gives what it gave there. *)
Lemma js_get_loc_keeps h h' l k :
  heap_wf h -> keeps h h' -> is_Some (obj_at h l) -> js_get_loc h' l k = js_get_loc h l k.
Proof.
  intros Hwf [Hk Hn] Hl. destruct (wf_chain h Hwf l Hl) as [ls Hc].
  assert (Hs : forall m, m ∈ ls -> obj_at h' m = obj_at h m).
  { intros m Hm. apply Hk, (wf_bound h Hwf). by eapply proto_chain_alloc. }
  pose proof (proto_chain_length _ _ _ Hwf Hc).
  apply (lookup_rel_det h' l k).
  - apply (get_fuel_spec h' l ls); [by apply (proto_chain_frame h)|lia].
  - apply (lookup_rel_frame h h' l ls); [done|done|]. by eapply js_get_loc_chain.
Qed.

(** A read on an object with no own key and a prototype of the kept
    heap is the read on the prototype. *)
Lemma js_get_loc_inherit h h' l ld k :
  heap_wf h -> keeps h h' -> is_Some (obj_at h ld) ->
  obj_at h' l = Some (mkObj OPlain [] (Some ld)) -> js_get_loc h' l k = js_get_loc h ld k.
Proof.
  intros Hwf Hkp Hd Hl. rewrite <- (js_get_loc_keeps h h' ld k) by done.
  destruct Hkp as [Hk Hn]. destruct (wf_chain h Hwf ld Hd) as [ls Hc].
  assert (Hc' : proto_chain h' ld ls).
  { apply (proto_chain_frame h); [done|]. intros m Hm.
    apply Hk, (wf_bound h Hwf). by eapply proto_chain_alloc. }
  pose proof (proto_chain_length _ _ _ Hwf Hc).
  assert (Hown : own_get (mkObj OPlain [] (Some ld)) k = None) by reflexivity.
  unfold js_get_loc at 1. cbn [get_fuel]. rewrite Hl, Hown. cbn [o_proto].
  apply (lookup_rel_det h' ld k); [apply (get_fuel_spec h' ld ls); [done|lia]|].
  unfold js_get_loc. apply (get_fuel_spec h' ld ls); [done|lia].
Qed.

(** A read of a key an object without prototype does not have. *)
Lemma js_get_loc_absent h l ps k :
  obj_at h l = Some (mkObj OPlain ps None) -> alist_get k ps = None -> js_get_loc h l k = VUndef.
Proof. intros Hl Hk. unfold js_get_loc. cbn [get_fuel]. rewrite Hl. unfold own_get. cbn. by rewrite Hk. Qed.

(** ** Steps on fresh objects *)

(** [Object.setPrototypeOf] of an object allocated after [h] onto an
    object of [h]: the chain of the prototype lies in [h], so the cycle
    check passes. *)
Lemma js_setPrototypeOf_fresh h h' l o ld :
  heap_wf h -> keeps h h' -> is_Some (obj_at h ld) -> h_next h <= l ->
  obj_at h' l = Some o -> o_proto o = None ->
  js_setPrototypeOf (VRef l) (VRef ld) h' = inr (tt, heap_upd h' l (set_proto o (Some ld))).
Proof.
  intros Hwf [Hk Hn] Hd Hl Ho Hpr. destruct (wf_chain h Hwf ld Hd) as [ls Hc].
  assert (Hin : forall m, m ∈ ls -> m < h_next h).
  { intros m Hm. apply (wf_bound h Hwf). by eapply proto_chain_alloc. }
  assert (Hc' : proto_chain h' ld ls).
  { apply (proto_chain_frame h); [done|]. intros m Hm. by apply Hk, Hin. }
  pose proof (proto_chain_length _ _ _ Hwf Hc).
  unfold js_setPrototypeOf, se_bind, js_load. rewrite Ho, Hpr.
  rewrite decide_False by done.
  rewrite (chain_from_spec h' ld ls) by (done || lia).
  rewrite decide_False; [done|]. intros Hm. specialize (Hin l Hm). lia.
Qed.

(** [recursiveSetPrototype] of a fresh empty object onto an object of
    [h]: one prototype set, no key to recurse on. *)
Lemma recursiveSetPrototype_fresh h h' fuel l ld :
  heap_wf h -> keeps h h' -> is_Some (obj_at h ld) -> h_next h <= l ->
  obj_at h' l = Some (mkObj OPlain [] None) -> 0 < fuel ->
  recursiveSetPrototype fuel (VRef l) (VRef ld) h' =
    inr (tt, heap_upd h' l (mkObj OPlain [] (Some ld))).
Proof.
  intros Hwf Hk Hd Hl Ho Hf. destruct fuel as [|fuel]; [lia|].
  assert (Hne : js_strict_eq (VRef l) (VRef ld) = false).
  { apply bool_decide_eq_false. intros [=->]. pose proof (wf_bound h Hwf ld Hd). lia. }
  cbn [recursiveSetPrototype js_truthy negb orb]. rewrite Hne.
  rewrite (se_bind_inr _ _ _ _ _ (js_setPrototypeOf_fresh h h' l _ ld Hwf Hk Hd Hl Ho eq_refl)).
  rewrite (se_bind_inr _ _ _ _ _ (js_keys_ref _ l _ ltac:(by rewrite obj_at_upd, decide_True))).
  reflexivity.
Qed.

(** [includeDefaults(undefined, undefined)] on a registry without an
    entry named ["undefined"]: a fresh options object with no own key
    whose prototype is the registry. *)
Lemma includeDefaults_undef_run h h' fuel ld :
  heap_wf h -> keeps h h' -> is_Some (obj_at h ld) ->
  js_get_loc h ld "undefined" = VUndef -> 0 < fuel ->
  includeDefaults (VRef ld) fuel VUndef VUndef h' =
    inr (VRef (h_next h'),
         heap_upd (halloc h' (mkObj OPlain [] None)) (h_next h') (mkObj OPlain [] (Some ld))).
Proof.
  intros Hwf Hk Hd Hu Hf. unfold includeDefaults.
  rewrite (se_bind_inr _ _ _ _ _ (js_get_ref h' ld _)).
  cbn [to_key]. rewrite (js_get_loc_keeps h h' ld) by done. rewrite Hu.
  cbn [js_truthy]. rewrite se_bind_ret_l.
  rewrite (se_bind_inr _ _ _ _ _ (eq_refl : js_create_null h' =
    inr (VRef (h_next h'), halloc h' (mkObj OPlain [] None)))).
  rewrite (se_bind_inr _ _ _ _ _ (eq_refl : js_assign (VRef (h_next h')) [VUndef]
    (halloc h' (mkObj OPlain [] None)) = inr (VRef (h_next h'), halloc h' (mkObj OPlain [] None)))).
  rewrite (se_bind_inr _ _ _ _ _ (recursiveSetPrototype_fresh h _ fuel (h_next h') ld Hwf
    ltac:(by apply keeps_alloc) Hd ltac:(by destruct Hk) ltac:(by rewrite obj_at_halloc, decide_True) Hf)).
  reflexivity.
Qed.

(** [v || {}] returns a truthy value and only allocates. *)
Lemma js_or_empty_total v h :
  exists r h', js_or_empty v h = inr (r, h') /\ js_truthy r = true /\ keeps h h'.
Proof.
  unfold js_or_empty, js_lor. destruct (js_truthy v) eqn:Hv; [eauto using keeps_refl|].
  do 2 eexists. split; [reflexivity|]. split; [done|]. apply keeps_alloc, keeps_refl.
Qed.

(** [getIndexAxis] with a registry and options that are truthy returns,
    and only allocates the empty objects of its [|| {}] fallbacks. *)
Lemma getIndexAxis_total d ty o h :
  js_truthy d = true -> js_truthy o = true ->
  exists r h', getIndexAxis d ty o h = inr (r, h') /\ keeps h h'.
Proof.
  intros Hd Ho. unfold getIndexAxis. rewrite (se_bind_inr _ _ _ _ _ (js_get_truthy _ _ h Hd)).
  destruct (js_or_empty_total (path_get h d (to_key ty)) h) as (td & h1 & E1 & T1 & K1).
  rewrite (se_bind_inr _ _ _ _ _ E1), (se_bind_inr _ _ _ _ _ (js_get_truthy _ _ h1 T1)).
  destruct (js_or_empty_total (path_get h1 td "datasets") h1) as (dd & h2 & E2 & T2 & K2).
  rewrite (se_bind_inr _ _ _ _ _ E2), (se_bind_inr _ _ _ _ _ (js_get_truthy _ _ h2 Ho)).
  destruct (js_or_empty_total (path_get h2 o (to_key ty)) h2) as (to & h3 & E3 & T3 & K3).
  rewrite (se_bind_inr _ _ _ _ _ E3), (se_bind_inr _ _ _ _ _ (js_get_truthy _ _ h3 T3)).
  destruct (js_or_empty_total (path_get h3 to "datasets") h3) as (dso & h4 & E4 & T4 & K4).
  rewrite (se_bind_inr _ _ _ _ _ E4), (se_bind_inr _ _ _ _ _ (js_get_truthy _ _ h4 T4)).
  assert (K : keeps h h4) by eauto using keeps_trans.
  unfold js_lor. destruct (js_truthy (path_get h4 dso "indexAxis")); [eauto|].
  rewrite (se_bind_inr _ _ _ _ _ (js_get_truthy _ _ h4 Ho)).
  destruct (js_truthy (path_get h4 o "indexAxis")); [eauto|].
  rewrite (se_bind_inr _ _ _ _ _ (js_get_truthy _ _ h4 T2)).
  destruct (js_truthy (path_get h4 dd "indexAxis")); eauto.
Qed.

Lemma keeps_obj h h' m o : keeps h h' -> obj_at h m = Some o -> m < h_next h -> obj_at h' m = Some o.
Proof. intros [Hk _] Ho Hm. by rewrite Hk. Qed.

Lemma js_get_own_run h l o k v :
  obj_at h l = Some o -> own_get o k = Some v -> js_get (VRef l) k h = inr (v, h).
Proof. intros Ho Hk. rewrite js_get_ref. by rewrite (js_get_loc_own h l k o v). Qed.

Lemma js_keys_empty_run h l : obj_at h l = Some (mkObj OPlain [] None) -> js_keys (VRef l) h = inr ([], h).
Proof. intros Ho. by rewrite (js_keys_ref h l _ Ho). Qed.

Lemma js_hasOwn_ref h l o k :
  obj_at h l = Some o -> js_hasOwn (VRef l) k h = inr (bool_decide (is_Some (own_get o k)), h).
Proof. intros Ho. unfold js_hasOwn, se_bind, js_load. by rewrite Ho. Qed.

Lemma js_array_items_ref h l items :
  obj_at h l = Some (mkObj (OArray items) [] None) -> js_array_items (VRef l) h = inr (items, h).
Proof. intros Ho. unfold js_array_items, se_bind, js_load. by rewrite Ho. Qed.

Lemma set_props_same o : set_props o (o_props o) = o.
Proof. by destruct o. Qed.

Lemma own_get_plain o k : o_class o = OPlain -> own_get o k = alist_get k (o_props o).
Proof. unfold own_get. by intros ->. Qed.

(** Re-assigning an own key of a plain object with the value it holds
    leaves the heap as it is. *)
Lemma js_set_same_run g l o k x :
  obj_at g l = Some o -> alist_get k (o_props o) = Some x -> js_set (VRef l) k x g = inr (tt, g).
Proof.
  intros Ho Hk. rewrite (js_set_ref _ _ _ _ _ Ho), (alist_put_same _ _ _ Hk), set_props_same.
  by rewrite (heap_upd_same _ _ _ Ho).
Qed.

(** [includeScaleDefaults] on a configuration whose options have no own
    key and no [scales], and whose [data.datasets] is an empty array:
    no scale to resolve, no dataset to merge; it returns and only
    allocates. *)
Lemma includeScaleDefaults_empty h1 fuel ld c oc o dt odt ds :
  obj_at h1 c = Some oc -> own_get oc "options" = Some (VRef o) ->
  own_get oc "data" = Some (VRef dt) ->
  obj_at h1 o = Some (mkObj OPlain [] (Some ld)) ->
  obj_at h1 dt = Some odt -> own_get odt "datasets" = Some (VRef ds) ->
  obj_at h1 ds = Some (mkObj (OArray []) [] None) ->
  c < h_next h1 -> o < h_next h1 -> dt < h_next h1 -> ds < h_next h1 ->
  exists r h2, includeScaleDefaults (VRef ld) fuel (VRef c) h1 = inr (r, h2) /\ keeps h1 h2.
Proof.
  intros Hc Hco Hcd Ho Hdt Hdd Hds Hcl Hol Hdtl Hdsl. unfold includeScaleDefaults.
  rewrite (se_bind_inr _ _ _ _ _ (js_get_own_run _ _ _ _ _ Hc Hco)).
  set (h1a := halloc h1 (mkObj OPlain [] None)).
  assert (Ka : keeps h1 h1a) by apply keeps_alloc, keeps_refl.
  rewrite (se_bind_inr _ _ _ _ _ (eq_refl : js_object [] h1 = inr (VRef (h_next h1), h1a))).
  assert (Hdp : directPropertyOrDefault (VRef o) "scales" (VRef (h_next h1)) h1a =
                inr (VRef (h_next h1), h1a)).
  { unfold directPropertyOrDefault.
    rewrite (se_bind_inr _ _ _ _ _ (js_hasOwn_ref _ _ _ "scales" (keeps_obj h1 h1a o _ Ka Ho Hol))).
    by rewrite bool_decide_false by (intros [? ?]; done). }
  rewrite (se_bind_inr _ _ _ _ _ Hdp).
  rewrite (se_bind_inr _ _ _ _ _ (js_get_ref h1a c "type")).
  destruct (getIndexAxis_total (VRef ld) (js_get_loc h1a c "type") (VRef o) h1a eq_refl eq_refl)
    as (ia & h1b & Eb & Kb).
  rewrite (se_bind_inr _ _ _ _ _ Eb).
  set (h1c := halloc h1b (mkObj OPlain [] None)).
  set (h1d := halloc h1c (mkObj OPlain [] None)).
  rewrite (se_bind_inr _ _ _ _ _ (eq_refl : js_create_null h1b = inr (VRef (h_next h1b), h1c))).
  rewrite (se_bind_inr _ _ _ _ _ (eq_refl : js_create_null h1c = inr (VRef (h_next h1c), h1d))).
  assert (K : keeps h1 h1d) by (eapply keeps_trans; [exact Ka|];
    eapply keeps_trans; [exact Kb|]; apply keeps_alloc, keeps_alloc, keeps_refl).
  assert (He : obj_at h1d (h_next h1) = Some (mkObj OPlain [] None)).
  { apply (keeps_obj h1a); [by eapply keeps_trans; [exact Kb|]; apply keeps_alloc, keeps_alloc,
      keeps_refl|unfold h1a; by rewrite obj_at_halloc, decide_True|unfold h1a; simpl; lia]. }
  rewrite (se_bind_inr _ _ _ _ _ (js_keys_empty_run _ _ He)). cbn [se_iter].
  rewrite se_bind_ret_l.
  rewrite (se_bind_inr _ _ _ _ _ (js_get_own_run _ _ _ _ _ (keeps_obj h1 h1d c oc K Hc Hcl) Hcd)).
  rewrite (se_bind_inr _ _ _ _ _ (js_get_own_run _ _ _ _ _ (keeps_obj h1 h1d dt odt K Hdt Hdtl) Hdd)).
  rewrite (se_bind_inr _ _ _ _ _ (js_array_items_ref _ _ _ (keeps_obj h1 h1d ds _ K Hds Hdsl))).
  cbn [se_iter].
  rewrite se_bind_ret_l.
  rewrite (se_bind_inr _ _ _ _ _ (js_keys_empty_run h1d (h_next h1c)
    ltac:(unfold h1d; by rewrite obj_at_halloc, decide_True))).
  eauto.
Qed.

(** ** The data phase of [initConfig] on an absent configuration *)

(** The heap after [config = {}], [config.data = {datasets: [], labels: []}]
    and the two reassignments of [data.datasets] and [data.labels]. *)
Definition data_object (n : loc) : jsobj :=
  mkObj OPlain [("datasets", VRef (S n)); ("labels", VRef (S (S n)))] None.

Definition data_heap (h : heap) : heap :=
  let n := h_next h in
  let hD := halloc (halloc (halloc (halloc h (mkObj OPlain [] None)) (mkObj (OArray []) [] None))
                      (mkObj (OArray []) [] None)) (data_object n) in
  heap_upd (heap_upd (heap_upd hD n (mkObj OPlain [("data", VRef (S (S (S n))))] None))
                     (S (S (S n))) (data_object n))
           (S (S (S n))) (data_object n).

Lemma data_heap_keeps h : keeps h (data_heap h).
Proof.
  unfold data_heap. apply keeps_upd; [|simpl; lia]. apply keeps_upd; [|simpl; lia].
  apply keeps_upd; [|lia]. repeat apply keeps_alloc. apply keeps_refl.
Qed.

Lemma data_heap_next h : h_next (data_heap h) = S (S (S (S (h_next h)))).
Proof. reflexivity. Qed.

Lemma obj_at_data_heap h m :
  obj_at (data_heap h) m =
    if decide (m = h_next h) then Some (mkObj OPlain [("data", VRef (S (S (S (h_next h)))))] None)
    else if decide (m = S (h_next h)) then Some (mkObj (OArray []) [] None)
    else if decide (m = S (S (h_next h))) then Some (mkObj (OArray []) [] None)
    else if decide (m = S (S (S (h_next h)))) then Some (data_object (h_next h))
    else obj_at h m.
Proof.
  unfold data_heap. rewrite !obj_at_upd, !obj_at_halloc. cbn [h_next halloc].
  repeat case_decide; subst; try lia; done.
Qed.

Lemma initConfig_data_phase (k : value -> JS value) h :
  (let* config := js_lor VUndef (js_object []) in
   let* d := js_get config "data" in
   let* data := js_lor d (let* ds := js_array [] in
                          let* ls := js_array [] in
                          js_object [("datasets", ds); ("labels", ls)]) in
   js_set config "data" data ;;;
   let* dd := js_get data "datasets" in
   let* ds := js_lor dd (js_array []) in
   js_set data "datasets" ds ;;;
   let* dl := js_get data "labels" in
   let* ls := js_lor dl (js_array []) in
   js_set data "labels" ls ;;;
   k config) h = k (VRef (h_next h)) (data_heap h).
Proof.
  set (n := h_next h).
  set (hA := halloc h (mkObj OPlain [] None)).
  rewrite (se_bind_inr _ _ _ _ _ (eq_refl : js_lor VUndef (js_object []) h = inr (VRef n, hA))).
  assert (HA : obj_at hA n = Some (mkObj OPlain [] None))
    by (unfold hA; by rewrite obj_at_halloc, decide_True).
  rewrite (se_bind_inr _ _ _ _ _ (js_get_ref hA n "data")), (js_get_loc_absent hA n [] "data" HA eq_refl).
  set (hD := halloc (halloc (halloc hA (mkObj (OArray []) [] None)) (mkObj (OArray []) [] None))
                    (data_object n)).
  assert (Hd : (let* ds := js_array [] in let* ls := js_array [] in
                js_object [("datasets", ds); ("labels", ls)]) hA = inr (VRef (S (S (S n))), hD))
    by reflexivity.
  rewrite (se_bind_inr _ _ _ _ _ Hd).
  assert (HDn : obj_at hD n = Some (mkObj OPlain [] None)).
  { unfold hD. rewrite !obj_at_halloc. cbn [h_next hA halloc]. by rewrite !decide_False by lia. }
  rewrite (se_bind_inr _ _ _ _ _ (js_set_ref _ _ _ _ _ HDn)).
  cbn [set_props o_class o_props o_proto alist_put].
  set (hE := heap_upd hD n _).
  assert (HEd : obj_at hE (S (S (S n))) = Some (data_object n)).
  { unfold hE, hD. rewrite obj_at_upd, decide_False by lia. by rewrite obj_at_halloc, decide_True. }
  rewrite (se_bind_inr _ _ _ _ _ (js_get_own_run _ _ _ "datasets" _ HEd eq_refl)). cbn [js_lor js_truthy].
  rewrite se_bind_ret_l, (se_bind_inr _ _ _ _ _ (js_set_ref _ _ _ _ _ HEd)).
  cbn [set_props data_object o_class o_props o_proto alist_put]. rewrite decide_True by done.
  fold (data_object n).
  set (hF := heap_upd hE (S (S (S n))) (data_object n)).
  assert (HFd : obj_at hF (S (S (S n))) = Some (data_object n))
    by (unfold hF; by rewrite obj_at_upd, decide_True).
  rewrite (se_bind_inr _ _ _ _ _ (js_get_own_run _ _ _ "labels" _ HFd eq_refl)). cbn [js_lor js_truthy].
  rewrite se_bind_ret_l, (se_bind_inr _ _ _ _ _ (js_set_ref _ _ _ _ _ HFd)).
  cbn [set_props data_object o_class o_props o_proto alist_put].
  rewrite decide_False by done. rewrite decide_True by done. fold (data_object n).
  reflexivity.
Qed.

(** ** [new Config()] *)

(** The statements of [initConfig] after the data phase (lines
    184-187), as [initConfig] writes them: [initConfig] is the data
    phase followed by this tail, by conversion. *)
Definition initConfig_tail (defaults : value) (fuel : nat) (config : value) : JS value :=
  let* o := js_get config "options" in
  let* t := js_get config "type" in
  let* newOpts := includeDefaults defaults fuel o t in
  js_set config "options" newOpts ;;;
  let* _ := includeScaleDefaults defaults fuel config in
  se_ret config.

(** The objects the tail leaves after the data phase of
    [initConfig(undefined)]: the configuration [n] with its [data] and
    [options], the data object with its two empty arrays, and the
    options [o], empty, whose prototype is the registry. *)
Lemma initConfig_tail_run fuel h ld :
  heap_wf h -> is_Some (obj_at h ld) -> js_get_loc h ld "undefined" = VUndef -> 0 < fuel ->
  let n := h_next h in
  let o := S (S (S (S n))) in
  exists h', initConfig_tail (VRef ld) fuel (VRef n) (data_heap h) = inr (VRef n, h') /\ keeps h h' /\
    obj_at h' n = Some (mkObj OPlain [("data", VRef (S (S (S n)))); ("options", VRef o)] None) /\
    obj_at h' (S (S (S n))) = Some (data_object n) /\
    obj_at h' (S n) = Some (mkObj (OArray []) [] None) /\
    obj_at h' (S (S n)) = Some (mkObj (OArray []) [] None) /\
    obj_at h' o = Some (mkObj OPlain [] (Some ld)).
Proof.
  intros Hwf Hd Hu Hf n o. unfold initConfig_tail.
  pose proof (data_heap_keeps h) as K0.
  assert (H0 : obj_at (data_heap h) n = Some (mkObj OPlain [("data", VRef (S (S (S n))))] None))
    by (by rewrite obj_at_data_heap, decide_True).
  rewrite (se_bind_inr _ _ _ _ _ (js_get_ref _ n "options")), (js_get_loc_absent _ _ _ "options" H0 eq_refl).
  rewrite (se_bind_inr _ _ _ _ _ (js_get_ref _ n "type")), (js_get_loc_absent _ _ _ "type" H0 eq_refl).
  rewrite (se_bind_inr _ _ _ _ _ (includeDefaults_undef_run h _ fuel ld Hwf K0 Hd Hu Hf)).
  rewrite data_heap_next. fold o.
  set (hH := heap_upd (halloc (data_heap h) (mkObj OPlain [] None)) o (mkObj OPlain [] (Some ld))).
  assert (KH : keeps h hH) by (apply keeps_upd; [by apply keeps_alloc|unfold o, n; lia]).
  assert (HHn : obj_at hH n = obj_at (data_heap h) n).
  { unfold hH. rewrite obj_at_upd, obj_at_halloc, data_heap_next, !decide_False by (unfold o, n; lia).
    done. }
  rewrite H0 in HHn. rewrite (se_bind_inr _ _ _ _ _ (js_set_ref _ _ _ _ _ HHn)).
  cbn [set_props o_class o_props o_proto alist_put]. rewrite decide_False by done.
  set (cfg := mkObj OPlain [("data", VRef (S (S (S n)))); ("options", VRef o)] None).
  set (hI := heap_upd hH n cfg).
  assert (Hrest : forall m, m <> n -> m < h_next h + 4 -> obj_at hI m = obj_at (data_heap h) m).
  { intros m Hm Hl. unfold hI, hH. rewrite !obj_at_upd, obj_at_halloc, data_heap_next.
    rewrite !decide_False by (unfold o, n in *; lia). done. }
  assert (HIo : obj_at hI o = Some (mkObj OPlain [] (Some ld))).
  { unfold hI, hH. rewrite !obj_at_upd, decide_False, decide_True by (unfold o, n; lia). done. }
  assert (HId : obj_at hI (S (S (S n))) = Some (data_object n))
    by (rewrite Hrest by (unfold n; lia); rewrite obj_at_data_heap; repeat case_decide; try lia; done).
  assert (HIa : forall i, i = S n \/ i = S (S n) -> obj_at hI i = Some (mkObj (OArray []) [] None))
    by (intros i Hi; rewrite Hrest by (unfold n; lia); rewrite obj_at_data_heap;
        repeat case_decide; try lia; done).
  assert (HIn : obj_at hI n = Some cfg) by (unfold hI; by rewrite obj_at_upd, decide_True).
  assert (Hnext : h_next hI = S o) by reflexivity.
  destruct (includeScaleDefaults_empty hI fuel ld n cfg o (S (S (S n))) (data_object n) (S n)
              HIn eq_refl eq_refl HIo HId eq_refl (HIa _ (or_introl eq_refl)))
    as (r & hJ & E & KJ); try (rewrite Hnext; unfold o; lia).
  rewrite (se_bind_inr _ _ _ _ _ E). exists hJ. split; [done|].
  assert (KIJ : forall m x, obj_at hI m = Some x -> m <= o -> obj_at hJ m = Some x)
    by (intros m x Hm Hmo; apply (keeps_obj hI hJ m x KJ Hm); lia).
  split_and!; [apply (keeps_trans h hI hJ); [apply keeps_upd; [exact KH|unfold n; lia]|exact KJ]|..];
    apply KIJ; eauto; unfold o; lia.
Qed.

(** ** [new Config(config)] with data already present *)

Lemma js_lor_truthy a m : js_truthy a = true -> js_lor a m = se_ret a.
Proof. unfold js_lor. by intros ->. Qed.

(** C3: the data phase of the constructor (lines
    176-182) keeps the identity of the containers the configuration
    already has: when [config.data] is an own object of the
    configuration whose [datasets] and [labels] are own truthy values,
    [config = config || {}], [config.data = config.data || ...],
    [data.datasets = data.datasets || []] and
    [data.labels = data.labels || []] change no object, so the
    constructor goes on, with [includeDefaults] and
    [includeScaleDefaults], from the heap it was given, with
    [config.data], [data.datasets] and [data.labels] as they were
    (spec section 3: the containers are never replaced). *)
Theorem initConfig_keeps_data defaults fuel h c oc d od ds lb :
  obj_at h c = Some oc -> o_class oc = OPlain -> alist_get "data" (o_props oc) = Some (VRef d) ->
  obj_at h d = Some od -> o_class od = OPlain ->
  alist_get "datasets" (o_props od) = Some ds -> js_truthy ds = true ->
  alist_get "labels" (o_props od) = Some lb -> js_truthy lb = true ->
  initConfig defaults fuel (VRef c) h = initConfig_tail defaults fuel (VRef c) h.
Proof.
  intros Hc Hcc Hcd Hd Hdc Hds Tds Hlb Tlb. unfold initConfig.
  cbn [js_lor js_truthy]. rewrite se_bind_ret_l.
  rewrite (se_bind_inr _ _ _ _ _ (js_get_own_run h c oc "data" _ Hc ltac:(by rewrite own_get_plain))).
  cbn [js_lor js_truthy]. rewrite se_bind_ret_l, (se_bind_inr _ _ _ _ _ (js_set_same_run h c oc _ _ Hc Hcd)).
  rewrite (se_bind_inr _ _ _ _ _ (js_get_own_run h d od "datasets" _ Hd ltac:(by rewrite own_get_plain))).
  rewrite (js_lor_truthy _ _ Tds), se_bind_ret_l, (se_bind_inr _ _ _ _ _ (js_set_same_run h d od _ _ Hd Hds)).
  rewrite (se_bind_inr _ _ _ _ _ (js_get_own_run h d od "labels" _ Hd ltac:(by rewrite own_get_plain))).
  rewrite (js_lor_truthy _ _ Tlb), se_bind_ret_l, (se_bind_inr _ _ _ _ _ (js_set_same_run h d od _ _ Hd Hlb)).
  reflexivity.
Qed.

(** C11: [new Config()] with no configuration, on
    any well-formed registry with no entry named ["undefined"] and a
    call depth of at least one, returns: the configuration is a fresh
    object with no [type], whose [data] holds fresh empty [datasets] and
    [labels] arrays, and whose [options] is a fresh object that has no
    own key and reads every key from the registry as it was.  Every
    object of the heap before the call, the registry included, is left
    as it was. *)
Theorem config_new_no_config defaults fuel h ld :
  heap_wf h -> defaults = VRef ld -> is_Some (obj_at h ld) ->
  js_get_loc h ld "undefined" = VUndef -> 0 < fuel ->
  exists c h', config_new defaults fuel VUndef h = inr (c, h') /\ keeps h h' /\
    _config c = VRef (h_next h) /\
    read_path h' (_config c) ["type"] = VUndef /\
    (exists l, read_path h' (_config c) ["data"; "datasets"] = VRef l /\
               obj_at h' l = Some (mkObj (OArray []) [] None)) /\
    (exists l, read_path h' (_config c) ["data"; "labels"] = VRef l /\
               obj_at h' l = Some (mkObj (OArray []) [] None)) /\
    forall k, read_path h' (_config c) ["options"; k] = js_get_loc h ld k.
Proof.
  intros Hwf -> Hd Hu Hf.
  destruct (initConfig_tail_run fuel h ld Hwf Hd Hu Hf)
    as (h' & Et & K & Hn & Hdt & Hds & Hls & Ho).
  assert (E : initConfig (VRef ld) fuel VUndef h = inr (VRef (h_next h), h'))
    by exact (eq_trans (initConfig_data_phase (initConfig_tail (VRef ld) fuel) h) Et).
  exists (mkConfig (VRef (h_next h))), h'. unfold config_new.
  rewrite (se_bind_inr _ _ _ _ _ E). cbn [_config read_path path_get].
  rewrite (js_get_loc_own h' _ "data" _ _ Hn eq_refl), (js_get_loc_own h' _ "options" _ _ Hn eq_refl).
  split_and!; [done|done|done|by apply (js_get_loc_absent _ _ _ _ Hn)|..].
  - exists (S (h_next h)). split; [|done]. exact (js_get_loc_own h' _ "datasets" _ _ Hdt eq_refl).
  - exists (S (S (h_next h))). split; [|done]. exact (js_get_loc_own h' _ "labels" _ _ Hdt eq_refl).
  - intros k. by apply (js_get_loc_inherit h h').
Qed.

Lemma config_new_no_config_witness :
  exists c h', config_new (VRef 0) line_fuel VUndef line_heap = inr (c, h') /\ keeps line_heap h' /\
    _config c = VRef (h_next line_heap) /\
    read_path h' (_config c) ["type"] = VUndef /\
    (exists l, read_path h' (_config c) ["data"; "datasets"] = VRef l /\
               obj_at h' l = Some (mkObj (OArray []) [] None)) /\
    (exists l, read_path h' (_config c) ["data"; "labels"] = VRef l /\
               obj_at h' l = Some (mkObj (OArray []) [] None)) /\
    forall k, read_path h' (_config c) ["options"; k] = js_get_loc line_heap 0 k.
Proof.
  apply (config_new_no_config (VRef 0) line_fuel line_heap 0);
    [exact line_heap_wf|reflexivity|vm_compute; eauto|vm_compute; reflexivity|unfold line_fuel; lia].
Defined.

(** A configuration [{data: {datasets: [], labels: ['A']}}]. *)
Definition data_cfg_heap : heap := heap_of [
  plain [("data", VRef 1)];
  plain [("datasets", VRef 2); ("labels", VRef 3)];
  mkObj (OArray []) [] None;
  mkObj (OArray [VStr "A"]) [] None].

Lemma initConfig_keeps_data_witness :
  initConfig (VRef 0) 1 (VRef 0) data_cfg_heap = initConfig_tail (VRef 0) 1 (VRef 0) data_cfg_heap.
Proof.
  apply (initConfig_keeps_data (VRef 0) 1 data_cfg_heap 0 (plain [("data", VRef 1)]) 1
           (plain [("datasets", VRef 2); ("labels", VRef 3)]) (VRef 2) (VRef 3)); reflexivity.
Defined.
