(* ===== verification/ScaleRun.v ===== *)
(** * The dataset-defaults step of [includeScaleDefaults], run forwards

    The inner loop of the second loop of [includeScaleDefaults]
    (src/src/core/core.config.js, lines 79-88, [default_scale_step] of
    [Config]) merges one placeholder of a dataset type's default scales
    ([_index_] or [_value_]) into the scale of its axis.  This file runs
    that step forwards.  For the first dataset that needs the axis (the
    dataset names no [<axis>AxisID], no explicit scale of the axis was
    seen by the first loop, the scales object has no entry for it yet
    and the options have no scale of that id) the step returns, and
    - the scales object gains exactly the key of the axis, pointing to a
      fresh object;
    - the fresh object has the own properties [axis] (the axis the
      placeholder stands for) and [_parent] (the placeholder's default
      options), and those default options as prototype;
    - no other object that existed before the step is changed.
    For a later dataset that needs the same axis, the step finds that
    scale marked with the same default options and changes nothing: its
    only effect is the allocation of the literal [{axis}].  The fixture
    [first_dataset_heap] runs both steps on the line chart's [_index_]
    placeholder.

    The frame is stated against two heaps: [h0], where the registry and
    the option objects live, and [h], the heap of the loop, which keeps
    [h0] and in which the scales object has been allocated above it, as
    [includeScaleDefaults] allocates it with [Object.create(null)]. *)

From S2P Require Import Prelude JsObject JsLogic Axis Config ConfigRun.

Local Open Scope se_scope.

(** Sequencing is associative: a nested [let*] runs as the flat one. *)
Lemma se_bind_assoc {A B C} (m : JS A) (k : A -> JS B) (k2 : B -> JS C) g :
  se_bind (se_bind m k) k2 g = se_bind m (fun a => se_bind (k a) k2) g.
Proof. unfold se_bind. by destruct (m g) as [|[]]. Qed.

(** ** Reads and tests through a kept heap *)

Lemma path_get_keeps h h' v k :
  heap_wf h -> keeps h h' -> val_ok h v -> path_get h' v k = path_get h v k.
Proof. intros Hwf Hk Hv. destruct v; simpl; try done. by apply js_get_loc_keeps. Qed.

Lemma isObject_keeps h h' v :
  heap_wf h -> keeps h h' -> isObject h v = true -> isObject h' v = true.
Proof.
  intros Hwf [Hk _] Hv. destruct v as [| | | | |l]; try done. unfold isObject in *.
  destruct (obj_at h l) as [o|] eqn:Ho; [|done].
  rewrite Hk; [by rewrite Ho|]. apply (wf_bound h Hwf). by rewrite Ho.
Qed.

Lemma js_lor_falsy a m : js_truthy a = false -> js_lor a m = m.
Proof. unfold js_lor. by intros ->. Qed.

(** ** [Object.assign] onto a fresh target *)

(** [Object.assign] skips a falsy source: [undefined], [null], [false],
    [0], and the empty string, which has no index to copy. *)
Lemma assign_one_falsy t v : js_truthy v = false -> assign_one t v = se_ret tt.
Proof.
  destruct v as [| |b|z|s|l]; try done. intros Hs.
  destruct s; [reflexivity|]. apply bool_decide_eq_false in Hs. by destruct Hs.
Qed.

(** [Object.assign(target, {axis}, src)] with a falsy [src]: the
    target gets (or keeps) the one key of the literal. *)
Lemma js_assign_axis_any g t o a x w :
  obj_at g t = Some o -> obj_at g a = Some (plain [("axis", x)]) -> js_truthy w = false ->
  js_assign (VRef t) [VRef a; w] g =
    inr (VRef t, heap_upd g t (set_props o (alist_put "axis" x (o_props o)))).
Proof.
  intros Ht Ha Hw.
  set (g' := heap_upd g t (set_props o (alist_put "axis" x (o_props o)))).
  assert (E1 : assign_one (VRef t) (VRef a) g = inr (tt, g')).
  { unfold assign_one, se_iter, se_bind at 1. rewrite (js_keys_ref _ _ _ Ha).
    cbn [own_keys o_class o_props plain map fst]. rewrite se_bind_assoc.
    rewrite (se_bind_inr _ _ _ _ _ (js_get_own_run _ _ _ "axis" x Ha eq_refl)).
    rewrite (se_bind_inr _ _ _ _ _ (js_set_ref _ _ _ _ _ Ht)). reflexivity. }
  assert (E : se_iter (assign_one (VRef t)) [VRef a; w] g = inr (tt, g')).
  { cbn [se_iter]. rewrite (se_bind_inr _ _ _ _ _ E1), (assign_one_falsy _ w Hw). reflexivity. }
  unfold js_assign. by rewrite (se_bind_inr _ _ _ _ _ E).
Qed.

(** On an empty target, the target becomes the literal. *)
Lemma js_assign_axis g t a x w :
  obj_at g t = Some (mkObj OPlain [] None) -> obj_at g a = Some (plain [("axis", x)]) ->
  js_truthy w = false ->
  js_assign (VRef t) [VRef a; w] g = inr (VRef t, heap_upd g t (plain [("axis", x)])).
Proof. intros Ht Ha Hw. exact (js_assign_axis_any g t _ a x w Ht Ha Hw). Qed.

(** ** [recursiveSetPrototype] onto a fresh object with primitive values *)

(** [recursiveSetPrototype] of a fresh object whose properties are all
    primitives onto an object of [h]: one prototype set, and no key
    holds an object to recurse on. *)
Lemma recursiveSetPrototype_fresh_flat h h' fuel l ld ps :
  heap_wf h -> keeps h h' -> is_Some (obj_at h ld) -> h_next h <= l ->
  obj_at h' l = Some (mkObj OPlain ps None) ->
  (forall k v m, alist_get k ps = Some v -> v <> VRef m) -> 0 < fuel ->
  recursiveSetPrototype fuel (VRef l) (VRef ld) h' =
    inr (tt, heap_upd h' l (mkObj OPlain ps (Some ld))).
Proof.
  intros Hwf Hk Hd Hl Ho Hps Hf. destruct fuel as [|fuel]; [lia|].
  assert (Hne : js_strict_eq (VRef l) (VRef ld) = false).
  { apply bool_decide_eq_false. intros [=->]. pose proof (wf_bound h Hwf ld Hd). lia. }
  cbn [recursiveSetPrototype js_truthy negb orb]. rewrite Hne.
  rewrite (se_bind_inr _ _ _ _ _ (js_setPrototypeOf_fresh h h' l _ ld Hwf Hk Hd Hl Ho eq_refl)).
  cbn [set_proto o_class o_props].
  assert (Ho' : obj_at (heap_upd h' l (mkObj OPlain ps (Some ld))) l = Some (mkObj OPlain ps (Some ld)))
    by by rewrite obj_at_upd, decide_True.
  rewrite (se_bind_inr _ _ _ _ _ (js_keys_ref _ l _ Ho')).
  apply se_iter_noop. intros k Hk'. unfold setPrototypeKey.
  destruct (starts_with_underscore k); [done|].
  destruct (own_keys_get _ k Hk') as [v Hv].
  rewrite (se_bind_inr _ _ _ _ _ (js_get_own_run _ _ _ _ _ Ho' Hv)).
  destruct v as [| | | | |m]; [reflexivity..|by destruct (Hps k _ m Hv)].
Qed.

(** ** A later dataset that needs the same axis *)

Section RepeatDataset.
Context (fuel : nat) (h : heap) (dataset ia dso cs fi : value) (s l : loc) (os ol : jsobj)
        (did : string) (ldo : loc).

Local Abbreviation axis := (getAxisFromDefaultScaleID did ia).

Hypothesis Hwf : heap_wf h.
Hypothesis Hdt : js_truthy dataset = true.
Hypothesis Hda : js_truthy (path_get h dataset (to_key axis +:+ "AxisID")) = false.
Hypothesis Hfi : js_truthy fi = true.
Hypothesis Hff : js_truthy (path_get h fi (to_key axis)) = false.
Hypothesis Hs : obj_at h s = Some os.
Hypothesis Hsc : o_class os = OPlain.
Hypothesis Hsl : alist_get (to_key axis) (o_props os) = Some (VRef l).
Hypothesis Hl : obj_at h l = Some ol.
Hypothesis Hla : alist_get "axis" (o_props ol) = Some axis.
Hypothesis Hlp : alist_get "_parent" (o_props ol) = Some (VRef ldo).
Hypothesis Hlc : o_class ol = OPlain.
Hypothesis Hcs : js_truthy cs = true.
Hypothesis Hcsv : val_ok h cs.
Hypothesis Hcsf : js_truthy (path_get h cs (to_key axis)) = false.
Hypothesis Hdso : js_truthy dso = true.
Hypothesis Hdsv : val_ok h dso.
Hypothesis Hdo : path_get h dso did = VRef ldo.

(** The heap after the literal [{axis}], the one allocation of the step. *)
Let h1 := halloc h (plain [("axis", axis)]).

Lemma repeat_dataset_keeps : keeps h h1.
Proof. apply keeps_alloc, keeps_refl. Qed.

Lemma repeat_dataset_obj m o : obj_at h m = Some o -> obj_at h1 m = Some o.
Proof.
  intros Ho. apply (keeps_obj h h1 m o repeat_dataset_keeps Ho). apply (wf_bound h Hwf). by rewrite Ho.
Qed.

(** C13: merging a default scale placeholder for
    a later dataset whose axis already has a scale marked with that
    placeholder's default options changes no object: the scale keeps its
    [axis], its [_parent] and its prototype, the scales object is as it
    was, and the only effect of the step is the allocation of the
    literal [{axis}]. *)
Theorem default_scale_step_repeat :
  default_scale_step fuel dataset ia dso cs fi (VRef s) did h =
    inr (tt, halloc h (plain [("axis", axis)])).
Proof.
  fold h1. unfold default_scale_step.
  rewrite (se_bind_inr _ _ _ _ _ (js_get_truthy _ _ h Hdt)), (js_lor_falsy _ _ Hda), se_bind_assoc.
  rewrite (se_bind_inr _ _ _ _ _ (js_get_truthy _ _ h Hfi)), (js_lor_falsy _ _ Hff), se_bind_ret_l.
  rewrite (se_bind_inr _ _ _ _ _ (js_get_ref h s _)).
  rewrite (js_get_loc_own h s _ os (VRef l) Hs ltac:(by rewrite own_get_plain)).
  cbn [js_lor js_truthy]. rewrite se_bind_ret_l.
  rewrite (se_bind_inr _ _ _ _ _ (eq_refl : js_object [("axis", axis)] h = inr (VRef (h_next h), h1))).
  rewrite (se_bind_inr _ _ _ _ _ (js_get_truthy _ _ h1 Hcs)).
  rewrite (se_bind_inr _ _ _ _ _ (js_assign_axis_any h1 l ol (h_next h) axis
    (path_get h1 cs (to_key axis)) (repeat_dataset_obj l ol Hl)
    ltac:(unfold h1; by rewrite obj_at_halloc, decide_True)
    ltac:(rewrite (path_get_keeps h h1 cs (to_key axis) Hwf repeat_dataset_keeps Hcsv); exact Hcsf))).
  rewrite (alist_put_same _ _ _ Hla), set_props_same, (heap_upd_same _ _ _ (repeat_dataset_obj l ol Hl)).
  rewrite (se_bind_inr _ _ _ _ _ (js_set_same_run h1 s os _ _ (repeat_dataset_obj s os Hs) Hsl)).
  rewrite (se_bind_inr _ _ _ _ _ (js_get_truthy _ _ h1 Hdso)),
    (path_get_keeps h h1 _ _ Hwf repeat_dataset_keeps Hdsv), Hdo.
  rewrite (se_bind_inr _ _ _ _ _ (eq_refl : js_isObject (VRef ldo) h1 = inr (isObject h1 (VRef ldo), h1))).
  destruct (isObject h1 (VRef ldo)); [cbv beta iota|reflexivity].
  rewrite (se_bind_inr _ _ _ _ _ (js_get_ref h1 l _)).
  rewrite (js_get_loc_own h1 l _ ol (VRef ldo) (repeat_dataset_obj l ol Hl) ltac:(by rewrite own_get_plain)).
  unfold js_strict_eq. by rewrite (bool_decide_eq_true_2 (VRef ldo = VRef ldo) eq_refl).
Qed.

End RepeatDataset.

(** ** The first dataset that needs an axis *)

Section FirstDataset.
Context (fuel : nat) (h0 h : heap) (dataset ia dso cs fi : value) (s : loc) (os : jsobj)
        (did : string) (ldo : loc).

Local Abbreviation axis := (getAxisFromDefaultScaleID did ia).

Hypothesis Hwf0 : heap_wf h0.
Hypothesis Hwf : heap_wf h.
Hypothesis Hk0 : keeps h0 h.
Hypothesis Hdt : js_truthy dataset = true.
Hypothesis Hda : js_truthy (path_get h dataset (to_key axis +:+ "AxisID")) = false.
Hypothesis Hfi : js_truthy fi = true.
Hypothesis Hff : js_truthy (path_get h fi (to_key axis)) = false.
Hypothesis Hs0 : h_next h0 <= s.
Hypothesis Hs : obj_at h s = Some os.
Hypothesis Hcur : js_truthy (js_get_loc h s (to_key axis)) = false.
Hypothesis Hcs : js_truthy cs = true.
Hypothesis Hcsv : val_ok h cs.
Hypothesis Hcsf : js_truthy (path_get h cs (to_key axis)) = false.
Hypothesis Hdso : js_truthy dso = true.
Hypothesis Hdsv : val_ok h0 dso.
Hypothesis Hdo : path_get h0 dso did = VRef ldo.
Hypothesis Hio : isObject h0 (VRef ldo) = true.
Hypothesis Hax : forall m, axis <> VRef m.

(** The heaps of the run: [h2] after [Object.create(null)] and the
    literal [{axis}], [h4] after the assignment and [scales[id] = scale]. *)
Let n := h_next h.
Let h2 := halloc (halloc h (mkObj OPlain [] None)) (plain [("axis", axis)]).
Let os' := set_props os (alist_put (to_key axis) (VRef n) (o_props os)).
Let h4 := heap_upd (heap_upd h2 n (plain [("axis", axis)])) s os'.

Lemma first_dataset_s_lt : s < n.
Proof. apply (wf_bound h Hwf). by rewrite Hs. Qed.

Lemma first_dataset_keeps2 : keeps h h2.
Proof. apply keeps_alloc, keeps_alloc, keeps_refl. Qed.

Lemma first_dataset_h2 m :
  obj_at h2 m = if decide (m = S n) then Some (plain [("axis", axis)])
                else if decide (m = n) then Some (mkObj OPlain [] None) else obj_at h m.
Proof. unfold h2. rewrite !obj_at_halloc. reflexivity. Qed.

Lemma first_dataset_h4 m :
  obj_at h4 m = if decide (m = s) then Some os'
                else if decide (m = n) then Some (plain [("axis", axis)]) else obj_at h2 m.
Proof. unfold h4. by rewrite !obj_at_upd. Qed.

Lemma first_dataset_keeps4 : keeps h0 h4.
Proof.
  unfold h4. apply keeps_upd; [apply keeps_upd|done].
  - eapply keeps_trans; [exact Hk0|apply first_dataset_keeps2].
  - unfold n. destruct Hk0. lia.
Qed.

Lemma first_dataset_ldo : is_Some (obj_at h0 ldo).
Proof. unfold isObject in Hio. destruct (obj_at h0 ldo); [done|discriminate]. Qed.

Lemma first_dataset_flat k v m : alist_get k [("axis", axis)] = Some v -> v <> VRef m.
Proof. cbn. case_decide; [intros [=<-]; apply Hax|discriminate]. Qed.

(** C12: the merge of a default scale placeholder
    for the first dataset that needs its axis (no [<axis>AxisID], no
    explicit scale of the axis, no scale of that id yet, no scale options
    of that id) returns; it stores under the axis, in the scales object,
    a fresh object whose own properties are [axis] and [_parent], the
    placeholder's default options, which are also its prototype; no other
    object of the heap before the step is changed. *)
Theorem default_scale_step_first : 0 < fuel ->
  exists h', default_scale_step fuel dataset ia dso cs fi (VRef s) did h = inr (tt, h') /\
    obj_at h' s = Some (set_props os (alist_put (to_key axis) (VRef (h_next h)) (o_props os))) /\
    obj_at h' (h_next h) =
      Some (mkObj OPlain [("axis", axis); ("_parent", VRef ldo)] (Some ldo)) /\
    (forall m, m < h_next h -> m <> s -> obj_at h' m = obj_at h m).
Proof.
  intros Hf. pose proof first_dataset_s_lt as Hsn. pose proof first_dataset_keeps4 as K4.
  fold n. unfold default_scale_step.
  rewrite (se_bind_inr _ _ _ _ _ (js_get_truthy _ _ h Hdt)), (js_lor_falsy _ _ Hda), se_bind_assoc.
  rewrite (se_bind_inr _ _ _ _ _ (js_get_truthy _ _ h Hfi)), (js_lor_falsy _ _ Hff), se_bind_ret_l.
  rewrite (se_bind_inr _ _ _ _ _ (js_get_ref h s _)), (js_lor_falsy _ _ Hcur).
  rewrite (se_bind_inr _ _ _ _ _ (eq_refl : js_create_null h =
    inr (VRef n, halloc h (mkObj OPlain [] None)))).
  rewrite (se_bind_inr _ _ _ _ _ (eq_refl : js_object [("axis", axis)] (halloc h (mkObj OPlain [] None)) =
    inr (VRef (S n), h2))).
  rewrite (se_bind_inr _ _ _ _ _ (js_get_truthy _ _ h2 Hcs)).
  rewrite (se_bind_inr _ _ _ _ _ (js_assign_axis h2 n (S n) axis (path_get h2 cs (to_key axis))
    ltac:(by rewrite first_dataset_h2, decide_False, decide_True by lia)
    ltac:(by rewrite first_dataset_h2, decide_True)
    ltac:(rewrite (path_get_keeps h h2 cs (to_key axis) Hwf first_dataset_keeps2 Hcsv); exact Hcsf))).
  rewrite (se_bind_inr _ _ _ _ _ (js_set_ref (heap_upd h2 n (plain [("axis", axis)])) s _ _ os
    ltac:(by rewrite obj_at_upd, decide_False, first_dataset_h2, !decide_False by lia))).
  fold os' h4.
  rewrite (se_bind_inr _ _ _ _ _ (js_get_truthy _ _ h4 Hdso)), (path_get_keeps h0 h4 _ _ Hwf0 K4 Hdsv), Hdo.
  rewrite (se_bind_inr _ _ _ _ _ (eq_refl : js_isObject (VRef ldo) h4 = inr (isObject h4 (VRef ldo), h4))).
  rewrite (isObject_keeps h0 h4 _ Hwf0 K4 Hio). cbv beta iota.
  assert (H4n : obj_at h4 n = Some (plain [("axis", axis)]))
    by (rewrite first_dataset_h4, decide_False, decide_True by lia; done).
  rewrite (se_bind_inr _ _ _ _ _ (js_get_ref h4 n _)), (js_get_loc_absent _ _ _ "_parent" H4n eq_refl).
  rewrite (eq_refl : js_strict_eq (VRef ldo) VUndef = false). cbv beta iota.
  rewrite (se_bind_inr _ _ _ _ _ (js_get_ref h4 n _)), (js_get_loc_absent _ _ _ "_parent" H4n eq_refl).
  cbn [js_lor js_truthy]. rewrite se_bind_ret_l.
  rewrite (se_bind_inr _ _ _ _ _ (recursiveSetPrototype_fresh_flat h0 h4 fuel n ldo _ Hwf0 K4
    first_dataset_ldo ltac:(unfold n; destruct Hk0; lia) H4n first_dataset_flat Hf)).
  rewrite (js_set_ref (heap_upd h4 n (mkObj OPlain [("axis", axis)] (Some ldo))) n _ _
    (mkObj OPlain [("axis", axis)] (Some ldo)) ltac:(by rewrite obj_at_upd, decide_True)).
  eexists. split; [reflexivity|]. rewrite !obj_at_upd.
  assert (Hne : s <> n) by lia.
  split; [rewrite !(decide_False _ _ Hne), first_dataset_h4, decide_True; done|].
  split; [by rewrite decide_True|].
  intros m Hm Hms. assert (Hmn : m <> n) by lia. assert (Hmn' : m <> S n) by lia.
  rewrite !obj_at_upd, !(decide_False _ _ Hmn), first_dataset_h4, (decide_False _ _ Hms),
    (decide_False _ _ Hmn), first_dataset_h2, (decide_False _ _ Hmn'), (decide_False _ _ Hmn).
  done.
Qed.

End FirstDataset.


(** ** The line chart's [_index_] placeholder

    A registry whose dataset defaults hold the placeholder
    [scales: {_index_: {type: 'category'}}] (locations 0 and 1), an
    empty dataset (2), the [firstIDs] and [scales] objects created with
    [Object.create(null)] (3 and 4) and empty scale options (5), with
    the index axis ['x']. *)
Definition first_dataset_h0 : heap :=
  heap_of [plain [("_index_", VRef 1)]; plain [("type", VStr "category")]].

Definition first_dataset_heap : heap :=
  heap_of [plain [("_index_", VRef 1)]; plain [("type", VStr "category")];
           plain []; plain []; plain []; plain []].

Lemma default_scale_step_first_witness :
  exists h', default_scale_step 1 (VRef 2) (VStr "x") (VRef 0) (VRef 5) (VRef 3) (VRef 4) "_index_"
               first_dataset_heap = inr (tt, h') /\
    obj_at h' 4 = Some (plain [("x", VRef 6)]) /\
    obj_at h' 6 = Some (mkObj OPlain [("axis", VStr "x"); ("_parent", VRef 1)] (Some 1)) /\
    (forall m, m < 6 -> m <> 4 -> obj_at h' m = obj_at first_dataset_heap m).
Proof.
  apply (default_scale_step_first 1 first_dataset_h0 first_dataset_heap (VRef 2) (VStr "x") (VRef 0)
           (VRef 5) (VRef 3) 4 (plain []) "_index_" 1);
    try (vm_compute; reflexivity); try (apply heap_wf_b_sound; vm_compute; reflexivity).
  - split; [|cbn; lia]. intros m Hm. cbn in Hm. destruct m as [|[|m]]; [reflexivity..|lia].
  - cbn; lia.
  - by eexists.
  - by eexists.
  - intros m Hm. discriminate Hm.
Defined.

(** The heap the first step leaves on [first_dataset_heap]: the scale
    (6) stored under ["x"] in the scales object (4), and the literal
    [{axis: 'x'}] (7) that [Object.assign] copied from. *)
Definition second_dataset_heap : heap :=
  heap_of [plain [("_index_", VRef 1)]; plain [("type", VStr "category")];
           plain []; plain []; plain [("x", VRef 6)]; plain [];
           mkObj OPlain [("axis", VStr "x"); ("_parent", VRef 1)] (Some 1);
           plain [("axis", VStr "x")]].

Lemma first_dataset_run :
  default_scale_step 1 (VRef 2) (VStr "x") (VRef 0) (VRef 5) (VRef 3) (VRef 4) "_index_"
    first_dataset_heap = inr (tt, second_dataset_heap).
Proof. vm_compute. reflexivity. Qed.

Lemma default_scale_step_repeat_witness :
  default_scale_step 1 (VRef 2) (VStr "x") (VRef 0) (VRef 5) (VRef 3) (VRef 4) "_index_"
    second_dataset_heap = inr (tt, halloc second_dataset_heap (plain [("axis", VStr "x")])).
Proof.
  apply (default_scale_step_repeat 1 second_dataset_heap (VRef 2) (VStr "x") (VRef 0) (VRef 5)
           (VRef 3) 4 6 (plain [("x", VRef 6)])
           (mkObj OPlain [("axis", VStr "x"); ("_parent", VRef 1)] (Some 1)) "_index_" 1);
    try (vm_compute; reflexivity); try (by eexists).
  apply heap_wf_b_sound. vm_compute. reflexivity.
Defined.
