(* ===== verification/Canvas.v ===== *)
(** * The drawing surface the label code draws on

    The canvas is an external collaborator (spec section 6).  What the
    label code needs of it is stated as the class [DrawingSurface]: a
    text measurement, non-negative, that depends on the font string and
    the text.  Everything the code does to the context is recorded as a
    list of [ctx_call]s, so that a theorem about a draw routine is a
    theorem about the calls it makes, in order; [FillTextNaN] is a
    [fillText] whose [x] coordinate is [NaN].

    Also here: the font descriptor, the normalisation of a text given as
    a string or an array of strings ([isArray(text) ? text : [text]]),
    the JavaScript remainder [%] on reals, and the width cache shared by
    both label implementations (a map from font string to a map from
    line to measured width) with its consistency invariant. *)

From S2P Require Import Prelude.
From Stdlib Require Import Reals Lra.

Local Open Scope R_scope.

Class DrawingSurface := {
  measureText : string -> string -> R;
  measureText_nonneg : forall font text, 0 <= measureText font text
}.

Record font := mkFont {
  font_string : string;
  font_lineHeight : R
}.

(** The calls a draw routine makes on [CanvasRenderingContext2D]. *)
Inductive ctx_call :=
| Save
| Restore
| Translate (x y : R)
| Rotate (rad : R)
| SetFont (f : string)
| SetFillStyle (c : string)
| SetTextBaseline (b : string)
| SetTextAlign (a : string)
| SetShadowBlur (v : R)
| SetShadowColor (c : string)
| FillText (t : string) (x y : R)
| FillTextNaN (t : string) (y : R).   (* [fillText(t, NaN, y)] *)

Definition is_save (c : ctx_call) : bool := match c with Save => true | _ => false end.
Definition is_restore (c : ctx_call) : bool := match c with Restore => true | _ => false end.

Definition fill_texts (calls : list ctx_call) : list (string * R * R) :=
  omap (fun c => match c with FillText t x y => Some (t, x, y) | _ => None end) calls.

(** A text option: one string or an array of lines. *)
Inductive text_value :=
| TextLine (s : string)
| TextLines (ls : list string).

Definition text_lines (t : text_value) : list string :=
  match t with TextLine s => [s] | TextLines ls => ls end.

(** [x % y] on numbers: the remainder of the truncated quotient. *)
Definition Rtrunc (r : R) : Z :=
  if Rle_dec 0 r then Int_part r else (- Int_part (- r))%Z.

Definition js_rem (x y : R) : R := x - y * IZR (Rtrunc (x / y)).

(** Within one period of the divisor the remainder is the dividend. *)
Lemma js_rem_small x y : 0 < y -> - y < x < y -> js_rem x y = x.
Proof.
  intros Hy Hx. unfold js_rem, Rtrunc.
  assert (Hq : - 1 < x / y < 1).
  { split; apply (Rmult_lt_reg_r y); try lra; unfold Rdiv;
      rewrite ?Rmult_assoc, ?Rinv_l by lra; lra. }
  destruct (Rle_dec 0 (x / y)).
  - rewrite <- (Int_part_spec (x / y) 0) by (simpl; lra). simpl. ring.
  - rewrite <- (Int_part_spec (- (x / y)) 0) by (simpl; lra). rewrite Z.opp_0. ring.
Qed.

(** [Math.max] folded over the widths of the lines, from 0. *)
Definition max_width (ws : list R) : R := fold_left Rmax ws 0.

Lemma fold_left_Rmax_ge (ws : list R) (m : R) : m <= fold_left Rmax ws m.
Proof.
  revert m. induction ws as [|w ws IH]; intros m; simpl; [lra|].
  eapply Rle_trans; [apply Rmax_l|apply IH].
Qed.

Lemma max_width_nonneg ws : 0 <= max_width ws.
Proof. apply fold_left_Rmax_ge. Qed.

(** The width cache per font string, then per line. *)
Abbreviation width_cache := (gmap string (gmap string R)).

Section Cache.
Context `{DrawingSurface}.

(** Every cached width is the measurement of its line in its font. *)
Definition cache_ok (c : width_cache) : Prop :=
  forall f fc t w, c !! f = Some fc -> fc !! t = Some w -> w = measureText f t.

Definition font_cache_ok (f : string) (fc : gmap string R) : Prop :=
  forall t w, fc !! t = Some w -> w = measureText f t.

(** The empty cache the module starts with. *)
Lemma cache_ok_empty : cache_ok ∅.
Proof. intros f fc t w. by rewrite lookup_empty. Qed.

Lemma cache_ok_font c f :
  cache_ok c -> font_cache_ok f (default ∅ (c !! f)).
Proof.
  intros Hc t w. destruct (c !! f) as [fc|] eqn:Hf; simpl.
  - by apply Hc.
  - by rewrite lookup_empty.
Qed.

Lemma cache_ok_insert c f fc :
  cache_ok c -> font_cache_ok f fc -> cache_ok (<[f := fc]> c).
Proof.
  intros Hc Hfc f' fc' t w. rewrite lookup_insert. case_decide as Heq.
  - intros [=<-]. subst. apply Hfc.
  - apply Hc.
Qed.

Lemma font_cache_ok_insert f fc t :
  font_cache_ok f fc -> font_cache_ok f (<[t := measureText f t]> fc).
Proof.
  intros Hfc t' w. rewrite lookup_insert. case_decide; [intros [=<-]; by subst|].
  apply Hfc.
Qed.
End Cache.

#[export] Hint Resolve cache_ok_empty cache_ok_font cache_ok_insert font_cache_ok_insert : chartjs.
