(* ===== verification/TickLabel.v ===== *)
(** * Rotated tick labels: src/src/core/core.tickLabel.js

    A [TickLabel] holds its font, colour, lines of text and the
    unrotated size [w], [h] with the diagonal [d] and half-diagonal [r]
    computed at construction ([tickLabel_new], the constructor with
    [initialize]).  [size], [_getCenter], [padding] and [draw] are the
    methods of the same name; [draw] returns the calls it makes on the
    context.  [measureWidth] is the module-level width cache of the file,
    whose per-font cache is filled by [helpers.longestText]
    ([longestText], modelled from the spec: the maximum over the lines
    of the cached measurement, the cache keyed by exact line content).

    The theorems: the padding splits the rotated bounding box exactly,
    the rotated box at quarter turns and its period [PI], the bound of
    each side of the rotated box by the diagonal, the centre for
    an anchor with no direction, that [draw] restores the context it
    saved whatever the text, the order and spacing of the drawn lines,
    that the width cache is transparent, and the unit test
    [Should calculate size at initialization] (its table is
    [tickLabel_test_sizes]). *)

From S2P Require Import Prelude Canvas.
From Stdlib Require Import Reals Lra Ascii.

Local Open Scope R_scope.

Definition halfPI : R := PI / 2.
Definition quarterPI : R := halfPI / 2.

(** [contains(a, b)]: [a.indexOf(b) > -1] for a one-character [b]. *)
Fixpoint contains (a : string) (c : ascii) : bool :=
  match a with
  | EmptyString => false
  | String x a' => bool_decide (x = c) || contains a' c
  end.

Record TickLabel := mkTickLabel {
  tl_font : font;
  tl_color : string;
  tl_text : list string;
  tl_w : R;
  tl_h : R;
  tl_d : R;
  tl_r : R
}.

(** The rotated bounding box [{d, r, h, w}] returned by [size]. *)
Record box := mkBox { box_d : R; box_r : R; box_h : R; box_w : R }.

Record pad := mkPad { pad_left : R; pad_right : R; pad_top : R; pad_bottom : R }.

Section TickLabel.
Context `{DrawingSurface}.

Fixpoint longestText_loop (f : string) (fc : gmap string R) (longest : R)
    (lines : list string) : R * gmap string R :=
  match lines with
  | [] => (longest, fc)
  | t :: ts =>
      let w := match fc !! t with Some w => w | None => measureText f t end in
      longestText_loop f (<[t := w]> fc) (Rmax longest w) ts
  end.

Definition longestText (f : string) (fc : gmap string R) (lines : list string)
  : R * gmap string R := longestText_loop f fc 0 lines.

Definition measureWidth (cache : width_cache) (fnt : font) (text : list string)
  : R * width_cache :=
  let fs := font_string fnt in
  let fc := default ∅ (cache !! fs) in
  let '(w, fc') := longestText fs fc text in
  (w, <[fs := fc']> cache).

(** [new TickLabel(ctx, font, color, text)] with [initialize]. *)
Definition tickLabel_new (cache : width_cache) (fnt : font) (color : string)
    (text : text_value) : TickLabel * width_cache :=
  let lines := text_lines text in
  let '(w, cache') := measureWidth cache fnt lines in
  let h := INR (length lines) * font_lineHeight fnt in
  let d := sqrt (w * w + h * h) in
  (mkTickLabel fnt color lines w h d (d / 2), cache').

Definition size (tl : TickLabel) (rad : R) : box :=
  let c := Rabs (cos rad) in
  let s := Rabs (sin rad) in
  let w := tl_w tl in
  let h := tl_h tl in
  let d := sqrt (w * w + h * h) in
  mkBox d (d / 2) (h * c + w * s) (h * s + w * c).

(** [_getCenter(rad, anchor, size)]; [rad] is reassigned in the ['t']
    branch and the new value is the one the ['b'] branch reads. *)
Definition _getCenter (tl : TickLabel) (rad : R) (anchor : string) (sz : option box) : R * R :=
  let sz := match sz with Some s => s | None => size tl rad end in
  let halfWidth := box_w sz / 2 in
  let halfHeight := box_h sz / 2 in
  let cx0 := if contains anchor "l" then halfWidth else 0 in
  let cx1 := if contains anchor "r" then - halfWidth else cx0 in
  let '(cx2, cy2, rad2) :=
    if contains anchor "t" then
      if contains anchor "R" then
        let rad' := js_rem rad halfPI in
        (sin (if Rlt_dec (- quarterPI) rad' then rad' else rad' - halfPI) * halfHeight,
         halfHeight, rad')
      else (cx1, halfHeight, rad)
    else (cx1, 0, rad) in
  if contains anchor "b" then
    ((if contains anchor "R" then
        sin (if Rlt_dec (- quarterPI) rad2 then - rad2 else rad2 + halfPI) * halfHeight
      else cx2), - halfHeight)
  else (cx2, cy2).

Definition padding (tl : TickLabel) (rad : R) (anchor : string) : pad :=
  let sz := size tl rad in
  let '(cx, cy) := _getCenter tl rad anchor (Some sz) in
  mkPad (box_w sz / 2 - cx) (cx + box_w sz / 2) (box_h sz / 2 - cy) (cy + box_h sz / 2).

(** The [for (; i >= 0; --i)] loop of [draw]: the lines from the last
    to the first, each [lineHeight] above the previous one. *)
Fixpoint draw_lines (rev_lines : list string) (x y lineHeight : R) : list ctx_call :=
  match rev_lines with
  | [] => []
  | t :: ts => FillText t x y :: draw_lines ts x (y - lineHeight) lineHeight
  end.

(** The table of the test [Should calculate size at initialization]
    (core.tickLabel.tests.js lines 24-29): rotations with the expected
    width and height of the rotated box. *)
Definition tickLabel_test_sizes (tl : TickLabel) : list (R * R * R) :=
  [(0, tl_w tl, tl_h tl); (0.5 * PI, tl_h tl, tl_w tl);
   (-0.5 * PI, tl_h tl, tl_w tl); (PI, tl_w tl, tl_h tl)].

(** The horizontal offset of the lines for an alignment. *)
Definition align_x (w : R) (align : string) : R :=
  if decide (align = "left") then w / -2
  else if decide (align = "right") then w / 2 else 0.

(** [draw(anchorX, anchorY, rad, align, anchor)]; an absent anchor is
    passed as [""], which is what [anchor || ''] gives. *)
Definition draw (tl : TickLabel) (anchorX anchorY rad : R) (align anchor : string)
  : list ctx_call :=
  let fnt := tl_font tl in
  let lineHeight := font_lineHeight fnt in
  let x := align_x (tl_w tl) align in
  let '(cx, cy) := _getCenter tl rad anchor None in
  [Save; Translate (anchorX + cx) (anchorY + cy); Rotate rad;
   SetFont (font_string fnt); SetFillStyle (tl_color tl);
   SetTextBaseline "middle"; SetTextAlign align]
  ++ draw_lines (rev (tl_text tl)) x (tl_h tl / 2 - lineHeight / 2) lineHeight
  ++ [Restore].

(** ** The width cache *)

Lemma longestText_loop_spec f fc m ls :
  font_cache_ok f fc ->
  exists fc', longestText_loop f fc m ls = (fold_left Rmax (map (measureText f) ls) m, fc') /\
              font_cache_ok f fc'.
Proof.
  revert fc m. induction ls as [|t ts IH]; intros fc m Hfc; simpl; [eauto|].
  assert (Hw : match fc !! t with Some w => w | None => measureText f t end = measureText f t).
  { destruct (fc !! t) eqn:Ht; [by apply Hfc|done]. }
  rewrite Hw. apply IH. by apply font_cache_ok_insert.
Qed.

Lemma measureWidth_spec c fnt ls :
  cache_ok c ->
  exists c', measureWidth c fnt ls = (max_width (map (measureText (font_string fnt)) ls), c') /\
             cache_ok c'.
Proof.
  intros Hc. unfold measureWidth, longestText.
  destruct (longestText_loop_spec (font_string fnt) (default ∅ (c !! font_string fnt)) 0 ls)
    as (fc' & -> & Hfc'); [eauto with chartjs|].
  eexists; split; [reflexivity|]. by apply cache_ok_insert.
Qed.

(** C21: a new label's width is the largest
    measured width of its lines, its height the number of lines times the
    line height, its lines the text as an array; on a consistent cache the
    cache is transparent and stays consistent. *)
Theorem tickLabel_new_measure c fnt color text :
  cache_ok c ->
  let '(tl, c') := tickLabel_new c fnt color text in
  tl_text tl = text_lines text /\
  tl_w tl = max_width (map (measureText (font_string fnt)) (text_lines text)) /\
  tl_h tl = INR (length (text_lines text)) * font_lineHeight fnt /\
  tl_r tl = tl_d tl / 2 /\ cache_ok c'.
Proof.
  intros Hc. unfold tickLabel_new.
  destruct (measureWidth_spec c fnt (text_lines text) Hc) as (c' & -> & Hc').
  simpl. by split_and!.
Qed.

(** ** Geometry *)

(** C19: for an anchor code without the rotated modifier [R], the anchor
    point lies on the edges of the rotated box that the code names: [r]
    puts it on the right edge (no right padding, the whole width on the
    left), else [l] on the left edge, else it is centred horizontally;
    [b] puts it on the bottom edge, else [t] on the top edge, else it is
    centred vertically.  Each pair of paddings adds up to the side of
    the rotated box. *)
Theorem padding_anchor_edges tl rad anchor :
  contains anchor "R" = false ->
  let p := padding tl rad anchor in
  let w := box_w (size tl rad) in
  let h := box_h (size tl rad) in
  (pad_left p, pad_right p) =
    (if contains anchor "r" then (w, 0) else if contains anchor "l" then (0, w) else (w / 2, w / 2)) /\
  (pad_top p, pad_bottom p) =
    (if contains anchor "b" then (h, 0) else if contains anchor "t" then (0, h) else (h / 2, h / 2)).
Proof.
  intros HR. unfold padding, _getCenter. rewrite HR.
  set (sw := box_w (size tl rad)). set (sh := box_h (size tl rad)).
  destruct (contains anchor "l"), (contains anchor "r"), (contains anchor "t"),
    (contains anchor "b"); simpl; split; f_equal; lra.
Qed.

(** The rotated box of the spec's test: unchanged
    at [0] and [PI], width and height swapped at [PI/2] and [-PI/2];
    the diagonal never changes. *)
Lemma size_quarter_turns tl :
  let w := tl_w tl in let h := tl_h tl in
  (box_w (size tl 0) = w /\ box_h (size tl 0) = h) /\
  (box_w (size tl PI) = w /\ box_h (size tl PI) = h) /\
  (box_w (size tl (PI / 2)) = h /\ box_h (size tl (PI / 2)) = w) /\
  (box_w (size tl (- (PI / 2))) = h /\ box_h (size tl (- (PI / 2))) = w) /\
  forall rad, box_d (size tl rad) = sqrt (w * w + h * h).
Proof.
  simpl. rewrite cos_0, sin_0, cos_PI, sin_PI, cos_PI2, sin_PI2, sin_neg, cos_neg,
    cos_PI2, sin_PI2, Rabs_Ropp, Rabs_R1, Rabs_R0.
  split_and!; try ring; try (rewrite Rabs_left by lra; ring). by intros.
Qed.

(** Turning a label by half a turn does not change its
    rotated box. *)
Lemma size_period_pi tl rad : size tl (rad + PI) = size tl rad.
Proof. unfold size. by rewrite neg_sin, neg_cos, !Rabs_Ropp. Qed.

(** An anchor code with none of the characters
    [l], [r], [t], [b] leaves the centre at the anchor point. *)
Lemma getCenter_no_direction tl rad anchor sz :
  contains anchor "l" = false -> contains anchor "r" = false ->
  contains anchor "t" = false -> contains anchor "b" = false ->
  _getCenter tl rad anchor sz = (0, 0).
Proof. intros Hl Hr Ht Hb. unfold _getCenter. by rewrite Hl, Hr, Ht, Hb. Qed.


Lemma size_nonneg tl rad :
  0 <= tl_w tl -> 0 <= tl_h tl -> 0 <= box_w (size tl rad) /\ 0 <= box_h (size tl rad).
Proof.
  intros Hw Hh. simpl.
  pose proof (Rabs_pos (cos rad)). pose proof (Rabs_pos (sin rad)).
  split; apply Rplus_le_le_0_compat; apply Rmult_le_pos; lra.
Qed.

Lemma abs_sin_cos rad :
  0 <= Rabs (sin rad) /\ 0 <= Rabs (cos rad) /\
  Rabs (sin rad) * Rabs (sin rad) + Rabs (cos rad) * Rabs (cos rad) = 1.
Proof.
  pose proof (sin2_cos2 rad) as Hsc. unfold Rsqr in Hsc.
  split_and!; [apply Rabs_pos..|].
  rewrite <- !Rabs_mult, !(Rabs_pos_eq (_ * _)) by nra. lra.
Qed.

Lemma le_sqrt_of_sq x y : 0 <= x -> x * x <= y -> x <= sqrt y.
Proof. intros Hx Hxy. rewrite <- (sqrt_square x) by done. by apply sqrt_le_1_alt. Qed.

(** One side of the rotated box: [h * c + w * s] with [s], [c] the
    absolute sine and cosine, between the shorter side and the diagonal. *)
Lemma rotated_side_bounds w h s c :
  0 <= w -> 0 <= h -> 0 <= s -> 0 <= c -> s * s + c * c = 1 ->
  Rmin w h <= h * c + w * s <= sqrt (w * w + h * h).
Proof.
  intros Hw Hh Hs Hc H1. split.
  - pose proof (Rmin_l w h). pose proof (Rmin_r w h).
    assert (0 <= Rmin w h) by (apply Rmin_glb; lra).
    assert (1 <= s + c) by nra. nra.
  - apply le_sqrt_of_sq; [apply Rplus_le_le_0_compat; apply Rmult_le_pos; lra|].
    assert (Hid : w * w + h * h - (h * c + w * s) * (h * c + w * s) =
                  (w * c - h * s) * (w * c - h * s)).
    { replace (w * w + h * h) with ((w * w + h * h) * (s * s + c * c)) by (rewrite H1; ring).
      ring. }
    pose proof (Rle_0_sqr (w * c - h * s)). unfold Rsqr in *. lra.
Qed.

(** C26: for a label of non-negative size and any
    rotation, each side of the rotated bounding box [size(rad)] lies
    between the shorter unrotated side and the diagonal [d]: the box
    never shrinks below the label nor outgrows the circle of diameter
    [d] the spec says is rotation-invariant. *)
Theorem size_within_diagonal tl rad :
  0 <= tl_w tl -> 0 <= tl_h tl ->
  let b := size tl rad in
  (Rmin (tl_w tl) (tl_h tl) <= box_w b <= box_d b) /\
  (Rmin (tl_w tl) (tl_h tl) <= box_h b <= box_d b).
Proof.
  intros Hw Hh. cbn [size box_w box_h box_d].
  destruct (abs_sin_cos rad) as (Hs & Hc & H1). split.
  - apply (rotated_side_bounds _ _ (Rabs (cos rad)) (Rabs (sin rad))); lra.
  - apply (rotated_side_bounds _ _ (Rabs (sin rad)) (Rabs (cos rad))); lra.
Qed.

(** C27: for an anchor code without the
    rotated modifier [R] and a label of non-negative size, no side of the
    padding is negative. *)
Theorem padding_nonneg_plain_anchor tl rad anchor :
  contains anchor "R" = false -> 0 <= tl_w tl -> 0 <= tl_h tl ->
  0 <= pad_left (padding tl rad anchor) /\ 0 <= pad_right (padding tl rad anchor) /\
  0 <= pad_top (padding tl rad anchor) /\ 0 <= pad_bottom (padding tl rad anchor).
Proof.
  intros HR Hw Hh. destruct (size_nonneg tl rad Hw Hh) as [Hsw Hsh].
  unfold padding, _getCenter. rewrite HR.
  set (sw := box_w (size tl rad)) in *. set (sh := box_h (size tl rad)) in *.
  destruct (contains anchor "l"), (contains anchor "r"), (contains anchor "t"),
    (contains anchor "b"); simpl; split_and!; lra.
Qed.

(** A square label has the same rotated box at [-PI/3] and at [PI/6],
    a quarter turn apart. *)
Lemma size_square_quarter tl :
  tl_w tl = tl_h tl -> box_h (size tl (- (PI / 3))) = box_h (size tl (PI / 6)).
Proof.
  intros Hwh. simpl. rewrite cos_neg, sin_neg, Rabs_Ropp, cos_PI3, sin_PI3, cos_PI6, sin_PI6.
  pose proof (Rlt_le _ _ (sqrt_lt_R0 3 ltac:(lra))).
  rewrite !Rabs_right by lra. rewrite Hwh. ring.
Qed.

(** C24: for the rotated anchor ['tR] the code
    normalises the angle with [rad % halfPI] and, below [-quarterPI],
    subtracts [halfPI] where the nearest right angle is [halfPI] away
    the other way: for a square label the horizontal correction at
    [-PI/3] is the opposite of the one at [PI/6], a quarter turn away,
    though the spec normalises both to the same angle. *)
Theorem getCenter_tR_quarter_turn tl :
  tl_w tl = tl_h tl -> 0 < tl_h tl ->
  0 < fst (_getCenter tl (PI / 6) "tR" None) /\
  fst (_getCenter tl (- (PI / 3)) "tR" None) = - fst (_getCenter tl (PI / 6) "tR" None).
Proof.
  intros Hwh Hh. pose proof PI_RGT_0.
  assert (contains "tR" "l" = false /\ contains "tR" "r" = false /\ contains "tR" "t" = true /\
          contains "tR" "R" = true /\ contains "tR" "b" = false) as (Hl & Hr & Ht & HR & Hb)
    by (split_and!; reflexivity).
  unfold _getCenter. rewrite Hl, Hr, Ht, HR, Hb. cbv beta iota zeta.
  assert (Hq : 0 < halfPI) by (unfold halfPI; lra).
  rewrite !js_rem_small by (unfold halfPI; lra). cbn [fst].
  destruct (Rlt_dec (- quarterPI) (PI / 6)) as [_|Hn]; [|unfold quarterPI, halfPI in Hn; lra].
  destruct (Rlt_dec (- quarterPI) (- (PI / 3))) as [Hn|_]; [unfold quarterPI, halfPI in Hn; lra|].
  rewrite size_square_quarter by done.
  replace (- (PI / 3) - halfPI) with (- (PI - PI / 6)) by (unfold halfPI; field).
  rewrite sin_neg, sin_PI_x, sin_PI6.
  assert (0 < box_h (size tl (PI / 6))).
  { simpl. rewrite cos_PI6, sin_PI6, Hwh. pose proof (sqrt_lt_R0 3 ltac:(lra)).
    rewrite !Rabs_right by lra. nra. }
  split; [nra|ring].
Qed.

(** ** Drawing *)

Lemma draw_lines_no_save_restore ls x y lh :
  Forall (fun c => is_save c = false /\ is_restore c = false) (draw_lines ls x y lh).
Proof. revert y. induction ls; intros y; simpl; constructor; auto. Qed.

(** C20: [draw] saves the context first and restores
    it last, with no other save or restore in between, whatever the
    text, rotation, alignment or anchor (also for an empty text). *)
Theorem draw_restores_context tl ax ay rad align anchor :
  exists mid, draw tl ax ay rad align anchor = Save :: mid ++ [Restore] /\
    Forall (fun c => is_save c = false /\ is_restore c = false) mid.
Proof.
  unfold draw. destruct (_getCenter tl rad anchor None) as [cx cy].
  eexists. split.
  - simpl. f_equal. rewrite !app_comm_cons. reflexivity.
  - repeat constructor. apply draw_lines_no_save_restore.
Qed.

Lemma fill_texts_draw_lines ls x y lh :
  fill_texts (draw_lines ls x y lh) =
    zip_with (fun t i => (t, x, y - INR i * lh)) ls (seq 0 (length ls)).
Proof.
  revert y. induction ls as [|t ts IH]; intros y; simpl; [done|].
  rewrite IH, <- seq_shift, zip_with_fmap_r. f_equal.
  - f_equal. simpl. ring.
  - apply zip_with_ext; [|done|done]. intros t' i. rewrite S_INR. f_equal. ring.
Qed.

(** C23: [draw] paints the lines from the last to
    the first, at the offset of the alignment, the last line half a line
    below the middle of the block and each earlier line one line height
    higher. *)
Theorem draw_lines_bottom_to_top tl ax ay rad align anchor :
  let lh := font_lineHeight (tl_font tl) in
  fill_texts (draw tl ax ay rad align anchor) =
    zip_with (fun t i => (t, align_x (tl_w tl) align, tl_h tl / 2 - lh / 2 - INR i * lh))
      (rev (tl_text tl)) (seq 0 (length (tl_text tl))).
Proof.
  simpl. unfold draw. destruct (_getCenter tl rad anchor None) as [cx cy].
  unfold fill_texts. rewrite !omap_app. simpl. rewrite app_nil_r.
  fold (fill_texts (draw_lines (rev (tl_text tl)) (align_x (tl_w tl) align)
    (tl_h tl / 2 - font_lineHeight (tl_font tl) / 2) (font_lineHeight (tl_font tl)))).
  by rewrite fill_texts_draw_lines, length_rev.
Qed.
(** C22: the test [Should calculate size at
    initialization]: on a surface that measures ['test label'] in the
    10px font between 40 and 43 pixels, a new label in that font with
    line height 12 is 12 high and 40 to 43 wide, and for every row
    [(r, w, h)] of the test's table [size(r)] is exactly [w] wide and
    [h] high (the test only asks for closeness). *)
Theorem tickLabel_test_size_at_init :
  40 <= measureText "10px sans-serif" "test label" <= 43 ->
  let tl := fst (tickLabel_new ∅ (mkFont "10px sans-serif" 12) "#fff" (TextLine "test label")) in
  tl_h tl = 12 /\ (40 <= tl_w tl <= 43) /\
  Forall (fun '(r, w, h) => box_w (size tl r) = w /\ box_h (size tl r) = h) (tickLabel_test_sizes tl).
Proof.
  intros Hm. cbn. rewrite !lookup_empty. cbn. rewrite !lookup_empty, Rmax_right by lra. cbn.
  split; [lra|]. split; [lra|].
  unfold tickLabel_test_sizes. cbn [tl_w tl_h].
  replace (0.5 * PI) with (PI / 2) by lra. replace (-0.5 * PI) with (- (PI / 2)) by lra.
  repeat apply Forall_cons_2; try apply Forall_nil_2; split; rewrite ?cos_0, ?sin_0, ?cos_PI, ?sin_PI, ?sin_neg, ?cos_neg, ?cos_PI2,
    ?sin_PI2, ?Rabs_Ropp, ?Rabs_R1, ?Rabs_R0.
  all: rewrite ?(Rabs_left (-1)) by lra; ring.
Qed.

End TickLabel.

(** ** Concrete runs

    A surface whose font draws every character 6 pixels wide, and the
    label of the spec's test: ['test label'] in a 10px font with line
    height 12. *)
#[local] Program Instance six_px_surface : DrawingSurface := {|
  measureText := fun _ t => 6 * INR (String.length t)
|}.
Next Obligation. intros f t. pose proof (pos_INR (String.length t)). lra. Qed.

Definition test_font : font := mkFont "10px sans-serif" 12.

Lemma tickLabel_new_measure_witness :
  let '(tl, c') := tickLabel_new ∅ test_font "#fff" (TextLine "test label") in
  tl_text tl = ["test label"] /\
  tl_w tl = max_width (map (measureText (font_string test_font)) ["test label"]) /\
  tl_h tl = INR 1 * 12 /\ tl_r tl = tl_d tl / 2 /\ cache_ok c'.
Proof. exact (tickLabel_new_measure ∅ test_font "#fff" (TextLine "test label") cache_ok_empty). Defined.

Definition test_label : TickLabel :=
  fst (tickLabel_new ∅ test_font "#fff" (TextLine "test label")).

Lemma test_label_nonneg : 0 <= tl_w test_label /\ 0 <= tl_h test_label.
Proof.
  unfold test_label, tickLabel_new, measureWidth, longestText; simpl. split.
  - apply Rmax_l.
  - lra.
Qed.

Lemma padding_nonneg_plain_anchor_witness :
  0 <= pad_left (padding test_label 0 "lt") /\ 0 <= pad_right (padding test_label 0 "lt") /\
  0 <= pad_top (padding test_label 0 "lt") /\ 0 <= pad_bottom (padding test_label 0 "lt").
Proof.
  apply padding_nonneg_plain_anchor; [reflexivity|apply test_label_nonneg..].
Defined.

Lemma size_within_diagonal_witness :
  (0 <= tl_w test_label /\ 0 <= tl_h test_label) /\
  box_w (size test_label (PI / 3)) <= box_d (size test_label (PI / 3)).
Proof.
  split; [exact test_label_nonneg|].
  destruct test_label_nonneg as [Hw Hh].
  exact (proj2 (proj1 (size_within_diagonal test_label (PI / 3) Hw Hh))).
Defined.

(** A one-line label ['ab'] is 12 pixels wide and 12 high. *)
Definition square_label : TickLabel :=
  fst (tickLabel_new ∅ test_font "#fff" (TextLine "ab")).

Lemma getCenter_tR_quarter_turn_witness :
  (tl_w square_label = tl_h square_label /\ 0 < tl_h square_label) /\
  (0 < fst (_getCenter square_label (PI / 6) "tR" None) /\
   fst (_getCenter square_label (- (PI / 3)) "tR" None) =
     - fst (_getCenter square_label (PI / 6) "tR" None)).
Proof.
  assert (Hs : tl_w square_label = tl_h square_label /\ 0 < tl_h square_label).
  { unfold square_label, tickLabel_new, measureWidth, longestText; simpl.
    rewrite lookup_empty. simpl. rewrite lookup_empty. rewrite Rmax_right by lra. split; lra. }
  split; [exact Hs|]. apply getCenter_tR_quarter_turn; apply Hs.
Defined.

(** A surface whose font draws every character 4.2 pixels wide: it
    measures ['test label'] at 42 pixels, inside the test's range. *)
#[local] Program Instance test_surface : DrawingSurface := {|
  measureText := fun _ t => 42 / 10 * INR (String.length t)
|}.
Next Obligation. intros f t. pose proof (pos_INR (String.length t)). lra. Qed.

Lemma tickLabel_test_size_at_init_witness :
  40 <= @measureText test_surface "10px sans-serif" "test label" <= 43 /\
  tl_h (fst (@tickLabel_new test_surface ∅ (mkFont "10px sans-serif" 12) "#fff"
               (TextLine "test label"))) = 12.
Proof.
  assert (Hm : 40 <= @measureText test_surface "10px sans-serif" "test label" <= 43).
  { simpl. lra. }
  split; [exact Hm|]. exact (proj1 (@tickLabel_test_size_at_init test_surface Hm)).
Defined.


Lemma padding_anchor_edges_witness :
  (pad_left (padding test_label 0 "lt"), pad_right (padding test_label 0 "lt")) =
    (0, box_w (size test_label 0)).
Proof. exact (proj1 (padding_anchor_edges test_label 0 "lt" eq_refl)). Defined.
