(* ===== verification/Label.v ===== *)
(** * The label element: src/src/elements/element.label.js

    A [Label] is the record of the element's fields: its position, the
    rotation in radians [_rotation], the lines [_text], the cached size
    [_size] (unset, the falsy [0] the text setter writes, or a measured
    size) and its [options] ([None]: an object without [font], such as
    the empty object the constructor installs; [draw] throws on it).  The constructor applies its configuration with
    [Object.assign], so the [text] and [rotation] keys go through the
    setters ([label_assign]).  [label_set_rotation]/[label_rotation],
    [label_set_text]/[label_text], [linesChanged], [label_measure]
    ([_measure], with the module's [textWidthCache]), [label_draw] and
    [label_getCenterPoint] are the members of the same name; [setStyle]
    and [rotatedSize] the module functions.

    [Label_id], [Label_defaults] and [Label_defaultRoutes] are the
    static members.

    The module's [textWidthCache] holds one object literal [{}] per
    font: a line named like a member of [Object.prototype]
    ([object_prototype_keys]) reads the inherited member instead of a
    width, and [Math.max] turns the width into [NaN] ([None] of
    [js_max]); a [fillText] at a [NaN] [x] is [FillTextNaN].

    [label_step] is the life of a label as a state machine (construct,
    assign, draw) and the theorem by rule induction over it shows that
    the size cache is never filled.  [toRadians], [toDegrees] and the
    [getProps] of the element base class are modelled from the spec. *)

From S2P Require Import Prelude Canvas.
From Stdlib Require Import Reals Lra.

Local Open Scope R_scope.

Inductive size_slot :=
| SizeUnset
| SizeZero
| SizeOf (width height : R).

Record label_options := mkLabelOptions {
  lo_align : string;
  lo_font : font;
  lo_color : string;
  lo_textShadowBlur : R;
  lo_textShadowColor : string
}.

Record Label := mkLabel {
  lb_x : R;
  lb_y : R;
  _rotation : R;
  _text : list string;
  _size : size_slot;
  lb_options : option label_options   (* [None]: an options object without [font] *)
}.

(** [helpers.math.toRadians] and [toDegrees]. *)
Definition toRadians (deg : R) : R := deg * (PI / 180).
Definition toDegrees (rad : R) : R := rad * (180 / PI).

Fixpoint items_differ (a b : list string) : bool :=
  match a, b with
  | x :: xs, y :: ys => if decide (x = y) then items_differ xs ys else true
  | _, _ => false
  end.

(** [linesChanged(a, b)]; [a] is absent when the label had no text. *)
Definition linesChanged (a : option (list string)) (b : list string) : bool :=
  match a with
  | None => true
  | Some a =>
      if negb (Nat.eqb (length a) (length b)) then true else items_differ a b
  end.

Definition label_set_rotation (l : Label) (deg : R) : Label :=
  mkLabel (lb_x l) (lb_y l) (toRadians deg) (_text l) (_size l) (lb_options l).

Definition label_rotation (l : Label) : R := toDegrees (_rotation l).

Definition label_set_text (l : Label) (value : text_value) : Label :=
  let a := text_lines value in
  let sz := if linesChanged (Some (_text l)) a then SizeZero else _size l in
  mkLabel (lb_x l) (lb_y l) (_rotation l) a sz (lb_options l).

Definition label_text (l : Label) : text_value :=
  match _text l with
  | [s] => TextLine s
  | a => TextLines a
  end.

(** The keys of a configuration object, in order. *)
Inductive cfg_field :=
| CfgX (x : R)
| CfgY (y : R)
| CfgText (t : text_value)
| CfgRotation (deg : R)
| CfgOptions (o : option label_options)
| CfgSize (s : size_slot).

(** [Object.assign(this, cfg)] for one key: accessors run their setter. *)
Definition label_assign (l : Label) (f : cfg_field) : Label :=
  match f with
  | CfgX x => mkLabel x (lb_y l) (_rotation l) (_text l) (_size l) (lb_options l)
  | CfgY y => mkLabel (lb_x l) y (_rotation l) (_text l) (_size l) (lb_options l)
  | CfgText t => label_set_text l t
  | CfgRotation d => label_set_rotation l d
  | CfgOptions o => mkLabel (lb_x l) (lb_y l) (_rotation l) (_text l) (_size l) o
  | CfgSize s => mkLabel (lb_x l) (lb_y l) (_rotation l) (_text l) s (lb_options l)
  end.

(** [new Label(cfg)]: [x] and [y] are those of the element base class
    (unset, taken as 0 here), [_size] is unset. *)
Definition label_new (cfg : list cfg_field) : Label :=
  fold_left label_assign cfg (mkLabel 0 0 0 [] SizeUnset None).

(** The static members [Label.id], [Label.defaults] and
    [Label.defaultRoutes]. *)
Definition Label_id : string := "label".

Record label_defaults := mkLabelDefaults {
  ld_align : string;
  ld_anchor : string;
  ld_display : bool
}.

Definition Label_defaults : label_defaults := mkLabelDefaults "center" "center" true.

Definition Label_defaultRoutes : list (string * string) :=
  [("backgroundColor", "color"); ("borderColor", "color")].

(** The members of [Object.prototype]: a read of one of these keys on
    an object literal with no own property of that name finds the
    inherited member (a function, or [Object.prototype] itself for
    [__proto__]), a truthy value that is not a number. *)
Definition object_prototype_keys : list string :=
  ["constructor"; "hasOwnProperty"; "isPrototypeOf"; "propertyIsEnumerable";
   "toLocaleString"; "toString"; "valueOf"; "__proto__"; "__defineGetter__";
   "__defineSetter__"; "__lookupGetter__"; "__lookupSetter__"].

Definition is_proto_key (k : string) : bool := bool_decide (k ∈ object_prototype_keys).

(** A width that is a number or [NaN] ([None]), and [Math.max] on two
    of them: [NaN] as soon as one is not a number. *)
Definition js_max (a b : option R) : option R :=
  match a, b with
  | Some x, Some y => Some (Rmax x y)
  | _, _ => None
  end.

Section LabelDraw.
Context `{DrawingSurface}.

(** [cache[line] || (cache[line] = ctx.measureText(line).width)] on the
    per-font cache, the object literal [{}] of line 79: a key of
    [Object.prototype] reads the inherited member, which is truthy, so
    nothing is measured or stored and the width is not a number; a
    cached width of 0 is falsy and measured again. *)
Definition cached_width (f : string) (fc : gmap string R) (line : string)
  : option R * gmap string R :=
  if is_proto_key line then (None, fc)
  else match fc !! line with
       | Some w => if Req_EM_T w 0 then (Some (measureText f line), <[line := measureText f line]> fc)
                   else (Some w, fc)
       | None => (Some (measureText f line), <[line := measureText f line]> fc)
       end.

Fixpoint measure_loop (f : string) (fc : gmap string R) (width : option R) (lines : list string)
  : option R * gmap string R :=
  match lines with
  | [] => (width, fc)
  | line :: ls =>
      let '(lineWidth, fc') := cached_width f fc line in
      measure_loop f fc' (js_max lineWidth width) ls
  end.

(** [_measure(ctx)]: the size [{width, height}] and the updated cache. *)
Definition label_measure (l : Label) (o : label_options) (cache : width_cache)
  : (option R * R) * width_cache :=
  let fs := font_string (lo_font o) in
  let fc := default ∅ (cache !! fs) in
  let lines := _text l in
  let height := INR (length lines) * font_lineHeight (lo_font o) in
  let '(width, fc') := measure_loop fs fc (Some 0) lines in
  ((width, height), <[fs := fc']> cache).

Definition setStyle (o : label_options) : list ctx_call :=
  [SetFont (font_string (lo_font o)); SetFillStyle (lo_color o);
   SetTextBaseline "middle"; SetTextAlign (lo_align o);
   SetShadowBlur (lo_textShadowBlur o); SetShadowColor (lo_textShadowColor o)].

(** [ctx.fillText(text, x, y)] with [x] a number or [NaN]. *)
Definition fill_call (t : string) (x : option R) (y : R) : ctx_call :=
  match x with Some x => FillText t x y | None => FillTextNaN t y end.

(** The loop of [draw]: from the last line up, starting at
    [size.height - lineHeight]. *)
Fixpoint label_draw_lines (rev_lines : list string) (x : option R) (y lineHeight : R)
  : list ctx_call :=
  match rev_lines with
  | [] => []
  | t :: ts => fill_call t x y :: label_draw_lines ts x (y - lineHeight) lineHeight
  end.

Definition label_align_x (width : R) (align : string) : R :=
  if decide (align = "left") then width / -2
  else if decide (align = "right") then width / 2 else 0.

(** Line 69 on a width that may be [NaN]: [NaN / -2] and [NaN / 2] are
    [NaN], the centred [0] does not read the width. *)
Definition label_x (width : option R) (align : string) : option R :=
  match width with
  | Some w => Some (label_align_x w align)
  | None => if decide (align = "left") then None
            else if decide (align = "right") then None else Some 0
  end.

(** [draw(ctx)]: the calls made and the cache after them; [None] when
    the options have no font (reading [options.font.lineHeight] throws),
    as the empty options object of the constructor. *)
Definition label_draw (l : Label) (cache : width_cache) : option (list ctx_call * width_cache) :=
  match lb_options l with
  | None => None
  | Some o =>
      let '((width, height), cache') :=
        match _size l with
        | SizeOf w h => ((Some w, h), cache)
        | _ => label_measure l o cache
        end in
      let lh := font_lineHeight (lo_font o) in
      Some ([Save; Translate (lb_x l) (lb_y l); Rotate (_rotation l)] ++ setStyle o ++
            label_draw_lines (rev (_text l)) (label_x width (lo_align o)) (height - lh) lh,
            cache')
  end.
End LabelDraw.

(** [rotatedSize(size, rotation)] on a measured size. *)
Definition rotatedSize (width height rotation : R) : R * R :=
  let s := sin rotation in
  let c := cos rotation in
  (s * (height / 2) + c * (width / 2), c * (height / 2) + s * (width / 2)).

(** The outcome of [getCenterPoint()]: a [TypeError] when [_size] is
    unset ([undefined.width]), a size of [NaN]s when it is the number 0,
    the rotated size otherwise.  The rotation passed is what [getProps]
    reads, the [rotation] getter, in degrees. *)
Inductive center_point :=
| CPTypeError
| CPNaN (x y : R)
| CPPoint (x y w h : R).

Definition label_getCenterPoint (l : Label) : center_point :=
  match _size l with
  | SizeUnset => CPTypeError
  | SizeZero => CPNaN (lb_x l) (lb_y l)
  | SizeOf w h =>
      let '(rw, rh) := rotatedSize w h (label_rotation l) in CPPoint (lb_x l) (lb_y l) rw rh
  end.

(** ** Text and rotation accessors *)

Lemma items_differ_false a b :
  length a = length b -> items_differ a b = false <-> a = b.
Proof.
  revert b. induction a as [|x xs IH]; intros [|y ys] Hlen; simpl in *;
    try discriminate; [done|].
  case_decide; subst.
  - rewrite IH by lia. split; [by intros ->|by intros [=]].
  - split; [discriminate|by intros [=]].
Qed.

(** C31: [linesChanged] of a previous text reports no
    change exactly when the two arrays have the same lines in the same
    order. *)
Theorem linesChanged_iff a b : linesChanged (Some a) b = false <-> a = b.
Proof.
  unfold linesChanged. destruct (Nat.eqb_spec (length a) (length b)) as [Hl|Hl]; simpl.
  - by apply items_differ_false.
  - split; [discriminate|intros ->; done].
Qed.

(** C30: setting the text stores it as an array
    of lines and resets the cached size to 0 unless the lines are the
    same as before, in which case the cache is kept. *)
Theorem set_text_invalidates_size l v :
  _text (label_set_text l v) = text_lines v /\
  _size (label_set_text l v) =
    if decide (_text l = text_lines v) then _size l else SizeZero.
Proof.
  split; [done|]. unfold label_set_text. cbn [_size].
  destruct (linesChanged (Some (_text l)) (text_lines v)) eqn:Hc;
    case_decide as Heq; try done.
  - rewrite Heq in Hc. by rewrite (proj2 (linesChanged_iff _ _) eq_refl) in Hc.
  - by apply linesChanged_iff in Hc.
Qed.

(** Reading the text back gives the lines that were
    set (a one-line array is read back as its string). *)
Lemma text_roundtrip l v : text_lines (label_text (label_set_text l v)) = text_lines v.
Proof. unfold label_text. simpl. by destruct (text_lines v) as [|s [|s' ls]]. Qed.

(** The [rotation] property is set and read in
    degrees and stored in radians; reading it back gives the degrees
    that were set. *)
Lemma rotation_roundtrip l deg : label_rotation (label_set_rotation l deg) = deg.
Proof.
  unfold label_rotation, label_set_rotation, toDegrees, toRadians. simpl.
  field. apply PI_neq0.
Qed.

(** ** Measurement *)

Lemma js_max_comm a b : js_max a b = js_max b a.
Proof. destruct a, b; simpl; try done. by rewrite Rmax_comm. Qed.

Lemma fold_js_max_nan ws : fold_left js_max ws None = None.
Proof. by induction ws. Qed.

(** The width of a line as [_measure] reads it: [NaN] for a key of
    [Object.prototype], else the measured width. *)
Definition line_width `{DrawingSurface} (f line : string) : option R :=
  if is_proto_key line then None else Some (measureText f line).

Lemma fold_line_width `{DrawingSurface} f ls w :
  fold_left js_max (map (line_width f) ls) (Some w) =
    if existsb is_proto_key ls then None else Some (fold_left Rmax (map (measureText f) ls) w).
Proof.
  revert w. induction ls as [|t ts IH]; intros w; cbn [map fold_left existsb]; [done|].
  assert (Hl : line_width f t = if is_proto_key t then None else Some (measureText f t)) by done.
  rewrite Hl. destruct (is_proto_key t); cbn [orb js_max]; [apply fold_js_max_nan|].
  by rewrite IH, Rmax_comm.
Qed.

Section Measure.
Context `{DrawingSurface}.

Lemma cached_width_spec f fc line :
  font_cache_ok f fc ->
  fst (cached_width f fc line) = line_width f line /\
  font_cache_ok f (snd (cached_width f fc line)).
Proof.
  intros Hfc. unfold cached_width, line_width. destruct (is_proto_key line); [done|].
  destruct (fc !! line) as [w|] eqn:Hw.
  - destruct (Req_EM_T w 0); simpl; [eauto with chartjs|]. split; [by rewrite (Hfc line w Hw)|done].
  - simpl. eauto with chartjs.
Qed.

Lemma measure_loop_spec f fc width ls :
  font_cache_ok f fc ->
  exists fc', measure_loop f fc width ls = (fold_left js_max (map (line_width f) ls) width, fc')
              /\ font_cache_ok f fc'.
Proof.
  revert fc width. induction ls as [|line ls IH]; intros fc width Hfc; simpl; [eauto|].
  destruct (cached_width_spec f fc line Hfc) as [Hw Hfc'].
  destruct (cached_width f fc line) as [lw fc1]. simpl in *. subst lw.
  rewrite js_max_comm. by apply IH.
Qed.

(** Without a line named like a member of [Object.prototype] the width
    is a number, whatever the cache holds. *)
Lemma measure_loop_numeric f fc w0 ls :
  existsb is_proto_key ls = false -> exists w fc', measure_loop f fc (Some w0) ls = (Some w, fc').
Proof.
  revert fc w0. induction ls as [|t ts IH]; intros fc w0 Hp; simpl in *; [eauto|].
  apply orb_false_iff in Hp as [Ht Hts]. unfold cached_width. rewrite Ht.
  destruct (fc !! t) as [w|]; [destruct (Req_EM_T w 0)|]; simpl; by apply IH.
Qed.

(** C32: on a consistent width cache,
    [_measure] gives the number of lines times the line height, and the
    largest measured width of the lines unless one of them is named like
    a member of [Object.prototype]: the per-font cache is the object
    literal [{}], whose inherited member is read instead of a width, and
    [Math.max] makes the width [NaN].  The cache stays consistent. *)
Theorem measure_cache_transparent l o c :
  cache_ok c ->
  exists c', label_measure l o c =
    ((if existsb is_proto_key (_text l) then None
      else Some (max_width (map (measureText (font_string (lo_font o))) (_text l))),
      INR (length (_text l)) * font_lineHeight (lo_font o)), c') /\ cache_ok c'.
Proof.
  intros Hc. unfold label_measure.
  destruct (measure_loop_spec (font_string (lo_font o)) (default ∅ (c !! font_string (lo_font o)))
    (Some 0) (_text l)) as (fc' & -> & Hfc'); [eauto with chartjs|].
  rewrite fold_line_width. eexists. split; [reflexivity|]. by apply cache_ok_insert.
Qed.

(** ** Drawing *)

Lemma label_draw_lines_no_restore ls x y lh :
  Forall (fun c => is_restore c = false) (label_draw_lines ls x y lh).
Proof. revert y. induction ls; intros y; simpl; constructor; [by destruct x|auto]. Qed.

(** C29: [Label.draw] saves the context and
    changes its transform and style but never restores it: no call it
    makes is a [restore]. *)
Theorem label_draw_never_restores l c calls c' :
  label_draw l c = Some (calls, c') ->
  head calls = Some Save /\ Forall (fun call => is_restore call = false) calls.
Proof.
  unfold label_draw. destruct (lb_options l) as [o|]; [|discriminate].
  destruct (match _size l with SizeOf w h => ((Some w, h), c) | _ => label_measure l o c end)
    as [[width height] cache'].
  intros [=<- <-]. split; [done|].
  repeat constructor. apply label_draw_lines_no_restore.
Qed.

Lemma fill_texts_label_draw_lines ls x y lh :
  fill_texts (label_draw_lines ls (Some x) y lh) =
    zip_with (fun t i => (t, x, y - INR i * lh)) ls (seq 0 (length ls)).
Proof.
  revert y. induction ls as [|t ts IH]; intros y; simpl; [done|].
  rewrite IH, <- seq_shift, zip_with_fmap_r. f_equal.
  - f_equal. simpl. ring.
  - apply zip_with_ext; [|done|done]. intros t' i. rewrite S_INR. f_equal. ring.
Qed.

(** C33: a label drawn without a cached size
    paints its lines from the last to the first, the [j]-th painted line
    at [(n - 1 - j)] line heights below the anchor: the first line sits on
    the anchor and the block hangs below it, where the tick label centres
    its block on the anchor.  (A line named like an [Object.prototype]
    member makes the width [NaN], and so the [x] of a left or right
    aligned label.) *)
Theorem label_draw_lines_from_anchor l o c calls c' :
  lb_options l = Some o -> (forall w h, _size l <> SizeOf w h) ->
  existsb is_proto_key (_text l) = false ->
  label_draw l c = Some (calls, c') ->
  let n := length (_text l) in
  let lh := font_lineHeight (lo_font o) in
  exists width, fill_texts calls =
    zip_with (fun t j => (t, label_align_x width (lo_align o), (INR n - 1 - INR j) * lh))
      (rev (_text l)) (seq 0 n).
Proof.
  intros Ho Hsz Hp. unfold label_draw. rewrite Ho.
  assert (Hm : match _size l with SizeOf w h => ((Some w, h), c) | _ => label_measure l o c end
               = label_measure l o c) by (destruct (_size l); try done; by edestruct Hsz).
  rewrite Hm. unfold label_measure.
  destruct (measure_loop_numeric (font_string (lo_font o)) (default ∅ (c !! font_string (lo_font o)))
    0 (_text l) Hp) as (width & fc' & ->).
  intros [=<- <-]. exists width. unfold fill_texts. simpl.
  fold (fill_texts (label_draw_lines (rev (_text l)) (Some (label_align_x width (lo_align o)))
    (INR (length (_text l)) * font_lineHeight (lo_font o) - font_lineHeight (lo_font o))
    (font_lineHeight (lo_font o)))).
  rewrite fill_texts_label_draw_lines, length_rev.
  apply zip_with_ext; [|done|done]. intros t j. f_equal. ring.
Qed.
End Measure.

(** ** The life of a label

    A label is built by the constructor from configuration keys that do
    not write the private [_size] field, then changes by assignments of
    its public properties and by draws.  [draw] reads the label and makes
    calls on the context but assigns no field of it. *)

Definition public_field (f : cfg_field) : Prop := forall s, f <> CfgSize s.

Section Life.
Context `{DrawingSurface}.

Inductive label_step : Label -> Label -> Prop :=
| step_assign l f : public_field f -> label_step l (label_assign l f)
| step_draw l c calls c' : label_draw l c = Some (calls, c') -> label_step l l.

Inductive label_reachable : Label -> Prop :=
| reach_new cfg : Forall public_field cfg -> label_reachable (label_new cfg)
| reach_step l l' : label_reachable l -> label_step l l' -> label_reachable l'.
End Life.

Definition size_unmeasured (l : Label) : Prop := _size l = SizeUnset \/ _size l = SizeZero.

Lemma label_assign_unmeasured l f :
  size_unmeasured l -> public_field f -> size_unmeasured (label_assign l f).
Proof.
  intros Hl Hf. destruct f as [x|y|t|d|o|s]; try exact Hl.
  - unfold label_assign, label_set_text, size_unmeasured. cbn [_size].
    destruct (linesChanged (Some (_text l)) (text_lines t)); [by right|exact Hl].
  - by destruct (Hf s).
Qed.

Lemma label_new_unmeasured cfg :
  Forall public_field cfg -> size_unmeasured (label_new cfg).
Proof.
  unfold label_new. intros Hcfg.
  assert (H0 : forall l0, size_unmeasured l0 -> size_unmeasured (fold_left label_assign cfg l0)).
  { induction Hcfg as [|f cfg Hf Hcfg IH]; intros l0 Hl0; simpl; [done|].
    apply IH. by apply label_assign_unmeasured. }
  apply H0. by left.
Qed.

(** C28: on every label reachable from the
    constructor by assignments and draws, the size cache holds no
    measured size: the text setter only ever writes 0 to it and [draw]
    measures without storing the result, so [getCenterPoint] either
    throws (the size was never set) or computes with [NaN] (it is 0). *)
Theorem label_size_never_measured `{DrawingSurface} l :
  label_reachable l ->
  size_unmeasured l /\
  (label_getCenterPoint l = CPTypeError \/
   label_getCenterPoint l = CPNaN (lb_x l) (lb_y l)).
Proof.
  intros Hr. assert (Hu : size_unmeasured l).
  { induction Hr as [cfg Hcfg|l l' Hr IH Hstep].
    - by apply label_new_unmeasured.
    - destruct Hstep as [l f Hf|l c calls c' Hd]; [by apply label_assign_unmeasured|done]. }
  split; [done|]. unfold label_getCenterPoint.
  destruct Hu as [-> | ->]; [by left|by right].
Qed.

(** ** Concrete runs *)

#[local] Program Instance label_six_px : DrawingSurface := {|
  measureText := fun _ t => 6 * INR (String.length t)
|}.
Next Obligation. intros f t. pose proof (pos_INR (String.length t)). lra. Qed.

Definition label_font : font := mkFont "12px sans-serif" 14.
Definition label_opts : label_options := mkLabelOptions "center" label_font "#000" 0 "".
Definition two_line_label : Label :=
  label_new [CfgOptions (Some label_opts); CfgText (TextLines ["first"; "second"]); CfgRotation 90].

Lemma measure_cache_transparent_witness :
  exists c', label_measure two_line_label label_opts ∅ =
    ((Some (max_width (map (measureText "12px sans-serif") ["first"; "second"])),
      INR 2 * 14), c') /\ cache_ok c'.
Proof. exact (measure_cache_transparent two_line_label label_opts ∅ cache_ok_empty). Defined.

Lemma label_draw_never_restores_witness :
  exists calls c', label_draw two_line_label ∅ = Some (calls, c') /\
    head calls = Some Save /\ Forall (fun call => is_restore call = false) calls.
Proof.
  eexists _, _. split; [reflexivity|].
  eapply (label_draw_never_restores two_line_label ∅). reflexivity.
Defined.

Lemma label_draw_lines_from_anchor_witness :
  exists calls c', label_draw two_line_label ∅ = Some (calls, c') /\
    exists width, fill_texts calls =
      zip_with (fun t j => (t, label_align_x width "center", (INR 2 - 1 - INR j) * 14))
        ["second"; "first"] (seq 0 2).
Proof.
  eexists _, _. split; [reflexivity|].
  eapply (label_draw_lines_from_anchor two_line_label label_opts ∅);
    [reflexivity| |reflexivity|reflexivity].
  intros w h. discriminate.
Defined.

Lemma label_size_never_measured_witness :
  label_getCenterPoint two_line_label = CPNaN 0 0.
Proof.
  destruct (label_size_never_measured two_line_label) as [_ [H|H]].
  - apply reach_new. repeat constructor; intros s; discriminate.
  - discriminate.
  - exact H.
Defined.

(** A label whose text is ["constructor"]: the per-font cache [{}]
    yields the inherited [Object.prototype.constructor], and the
    measured width is [NaN]. *)
Example constructor_line_width_nan :
  fst (fst (label_measure (label_new [CfgOptions (Some label_opts); CfgText (TextLine "constructor")])
                          label_opts ∅)) = None.
Proof. reflexivity. Qed.
